(** * Calm CLI meditation timer: a shallow embedding of [main.py]

    The timing engine of the terminal meditation application is embedded
    function by function.  Python floats are read as exact rationals ([Q]),
    Python ints as [Z]; the calls that reach the outside world (terminal,
    clock, keyboard, log file) are recorded in an explicit program state.
    The arithmetic of the progress line is given a second time with every
    operation rounded to binary64, and the floats typed at the menu include
    the infinities and nan. *)

From Stdlib Require Import ZArith QArith Qround List String Ascii Bool Lia Lqa.
From Stdlib Require Import DecimalString.
From Stdlib Require Import Qabs Qpower DecimalPos DecimalZ.
Import ListNotations.

Set Implicit Arguments.

(** ** Python values *)

(** A Python number is an [int] or a [float]; only formatting and the log
    distinguish the two, arithmetic goes through [value]. *)
Inductive num : Type :=
| Int (z : Z)
| Float (q : Q).

Definition value (n : num) : Q :=
  match n with
  | Int z => inject_Z z
  | Float q => q
  end.

(** [a * b] on numbers: int times int stays an int. *)
Definition num_mul (a b : num) : num :=
  match a, b with
  | Int x, Int y => Int (x * y)
  | _, _ => Float (value a * value b)
  end.

(** The exceptions the program can meet. *)
Inductive exn : Type :=
| KeyboardInterrupt
| ValueError
| ZeroDivisionError
| KeyError
| OverflowError.

(** Outcome of a computation: a value, a raised exception, or a loop that
    used up the iterations granted to it. *)
Inductive result (A : Type) : Type :=
| Ret (a : A)
| Raise (e : exn)
| Diverge.

Arguments Ret {A} a.
Arguments Raise {A} e.
Arguments Diverge {A}.

(** [a / b] on floats. *)
Definition truediv (a b : Q) : result Q :=
  if Qeq_bool b 0 then Raise ZeroDivisionError else Ret (a / b)%Q.

(** [int(x)] on a float: truncation toward zero. *)
Definition int_of_float (x : Q) : Z :=
  Z.quot (Qnum x) (Zpos (Qden x)).

(** A result too large for a float: it would round to [2^1024] or beyond. *)
Definition overflows (x : Q) : bool :=
  Qle_bool (inject_Z (2 ^ 1024 - 2 ^ 970)) (Qabs x).

(** [a / b] on numbers.  The quotient of two ints is a float, and one too
    large for a float raises OverflowError. *)
Definition py_truediv (a b : num) : result Q :=
  match a, b with
  | Int x, Int y =>
      if (y =? 0)%Z then Raise ZeroDivisionError
      else if overflows (inject_Z x / inject_Z y) then Raise OverflowError
      else Ret (inject_Z x / inject_Z y)%Q
  | _, _ => truediv (value a) (value b)
  end.

(** What [float(s)] can return: a finite float, an infinity or nan. *)
Inductive pyfloat : Type :=
| Finite (q : Q)
| PosInf
| NegInf
| NaN.

(** [x <= 0] on such a float: false for nan. *)
Definition float_le0 (x : pyfloat) : bool :=
  match x with
  | Finite q => Qle_bool q 0
  | NegInf => true
  | PosInf | NaN => false
  end.

(** [int(x)]: nan raises ValueError, an infinity OverflowError. *)
Definition py_int_of_float (x : pyfloat) : result Z :=
  match x with
  | Finite q => Ret (int_of_float q)
  | NaN => Raise ValueError
  | PosInf | NegInf => Raise OverflowError
  end.

(** [a // b] and [a % b] on floats (floor division and its remainder). *)
Definition floordiv (a b : Q) : Q := inject_Z (Qfloor (a / b)).
Definition pymod (a b : Q) : Q := (a - b * floordiv a b)%Q.

(** [max(0, x)]. *)
Definition max0 (x : Q) : Q := if Qle_bool x 0 then 0%Q else x.

(** ** Strings and formatting *)

Definition CR : string := String (ascii_of_nat 13) EmptyString.
Definition LF : string := String (ascii_of_nat 10) EmptyString.

(** [s * n] for a string [s]. *)
Fixpoint str_mul (s : string) (n : nat) : string :=
  match n with
  | O => EmptyString
  | S k => (s ++ str_mul s k)%string
  end.

Definition str_times (s : string) (n : Z) : string := str_mul s (Z.to_nat n).

(** [str(z)] for an int. *)
Definition str_Z (z : Z) : string := NilZero.string_of_int (Z.to_int z).

(** [f"{z:02d}"]: zero padded, sign first. *)
Definition fmt02d (z : Z) : string :=
  if (z <? 0)%Z
  then ("-" ++ str_Z (Z.abs z))%string
  else let d := str_Z z in
       (str_mul "0" (2 - String.length d) ++ d)%string.

(** [f"{z:2d}"]: right aligned in two columns. *)
Definition fmt2d (z : Z) : string :=
  let d := str_Z z in (str_mul " " (2 - String.length d) ++ d)%string.

Fixpoint count_char (c : ascii) (s : string) : nat :=
  match s with
  | EmptyString => O
  | String a s' => (if Ascii.eqb a c then 1 else 0) + count_char c s'
  end.

(** ** Progress renderer (body of the loop of [progress_bar]) *)

Definition bar_len : Z := 30.

(** [int(percent * bar_len)] *)
Definition filled_of (percent : Q) : Z := int_of_float (percent * inject_Z bar_len).

(** ["[" + "#" * filled + "-" * (bar_len - filled) + "]"] *)
Definition bar (filled : Z) : string :=
  ("[" ++ str_times "#" filled ++ str_times "-" (bar_len - filled) ++ "]")%string.

Definition mins_left (total elapsed : Q) : Z :=
  int_of_float (floordiv (total - elapsed) 60).

Definition secs_left (total elapsed : Q) : Z :=
  int_of_float (pymod (total - elapsed) 60).

(** What [sys.stdout.write] is given. *)
Inductive display : Type :=
| BarLine (prefix : string) (filled mins secs : Z)
| ClearLine
| PhaseLine (label : string) (t : Z).

Definition countdown (mins secs : Z) : string :=
  (fmt02d mins ++ ":" ++ fmt02d secs)%string.

Definition display_text (d : display) : string :=
  match d with
  | BarLine prefix filled mins secs =>
      (CR ++ prefix ++ " " ++ bar filled ++ " " ++ countdown mins secs ++ " remaining")%string
  | ClearLine => (CR ++ str_mul " " 80 ++ CR)%string
  | PhaseLine label t => (CR ++ label ++ ": " ++ fmt2d t ++ " ")%string
  end.

(** A bar of thirty slots, [filled] of them filled. *)
Definition thirty_slots (filled : Z) : Prop :=
  (0 <= filled <= 30)%Z /\
  String.length (bar filled) = 32%nat /\
  count_char "#" (bar filled) = Z.to_nat filled /\
  count_char "-" (bar filled) = Z.to_nat (30 - filled).

(** Lines 71-77: the line drawn for [elapsed] out of [total_seconds]. *)
Definition render (total elapsed : Q) (prefix : string) : result display :=
  match truediv elapsed total with
  | Ret percent =>
      Ret (BarLine prefix (filled_of percent) (mins_left total elapsed) (secs_left total elapsed))
  | Raise e => Raise e
  | Diverge => Diverge
  end.

(** The spec's wording of the filled-slot count. *)
Definition spec_filled (total elapsed : Q) : Z := Qfloor (30 * elapsed / total).

(** ** Cue scripts *)

Definition cue : Type := (Q * string)%type.

(** Lines 131-134 without the printing:
    [while i < len(script) and elapsed >= script[i][0]: emit script[i][1]; i += 1],
    [rest] being [script[i:]]. *)
Fixpoint due_loop (rest : list cue) (elapsed : Q) (i : nat) : list string * nat :=
  match rest with
  | [] => ([], i)
  | (offset, text) :: rest' =>
      if Qle_bool offset elapsed
      then let (ts, j) := due_loop rest' elapsed (S i) in (text :: ts, j)
      else ([], i)
  end.

Definition next_due (script : list cue) (i : nat) (elapsed : Q) : list string * nat :=
  due_loop (skipn i script) elapsed i.

(** Repeated calls, the cursor of one call handed to the next.  Each entry
    records the elapsed value, the texts emitted and the cursor returned. *)
Fixpoint run_cues (script : list cue) (i : nat) (es : list Q)
  : list (Q * list string * nat) :=
  match es with
  | [] => []
  | e :: es' =>
      let (ts, j) := next_due script i e in
      (e, ts, j) :: run_cues script j es'
  end.

Definition emitted (ticks : list (Q * list string * nat)) : list string :=
  List.concat (map (fun t => snd (fst t)) ticks).

Definition final_cursor (i : nat) (ticks : list (Q * list string * nat)) : nat :=
  last (map snd ticks) i.

(** script[i:j] *)
Definition slice {A} (i j : nat) (l : list A) : list A := firstn (j - i) (skipn i l).

Fixpoint nondecreasing (l : list Q) : Prop :=
  match l with
  | [] => True
  | x :: l' => match l' with [] => True | y :: _ => (x <= y)%Q end /\ nondecreasing l'
  end.

(** Each call emits [script[i:j]], whose offsets have been reached. *)
Fixpoint ticks_ok (script : list cue) (i : nat) (ticks : list (Q * list string * nat))
  : Prop :=
  match ticks with
  | [] => True
  | (e, ts, j) :: rest =>
      (i <= j <= List.length script)%nat /\
      ts = map snd (slice i j script) /\
      Forall (fun c => (fst c <= e)%Q) (slice i j script) /\
      ticks_ok script j rest
  end.

(** How often the cue at position [n] of the script was emitted, given the
    cursors between which each call emitted. *)
Fixpoint times_emitted (n i : nat) (ticks : list (Q * list string * nat)) : nat :=
  match ticks with
  | [] => O
  | (_, _, j) :: rest =>
      ((if (i <=? n) && (n <? j) then 1 else 0) + times_emitted n j rest)%nat
  end.

Definition script1 : list cue :=
  [(0%Q, "A"); (5%Q, "B"); (5%Q, "C"); (10%Q, "D")]%string.

(** ** Program state and effects *)

(** The calls that reach the terminal, in the order they are made. *)
Inductive event : Type :=
| Clear                        (* clear() *)
| Bell                         (* bell() *)
| Print (s : string)           (* print(s) *)
| PrintCentered (s : string)   (* print_centered(s), width 60 *)
| Write (d : display)          (* sys.stdout.write(...) *)
| Flush                        (* sys.stdout.flush() *)
| Sleep (d : Q)                (* time.sleep(d) *)
| Prompt (s : string).         (* the prompt shown by input(s) *)

(** One row of the CSV log, as built by [log_session]. *)
Record row : Type := mkRow {
  timestamp : Q;
  kind : string;
  duration_min : num;
  notes : string }.

Inductive line : Type :=
| Header
| Row (r : row).

(** [logf = None]: the log file does not exist. [intr = Some k]: the user
    presses Ctrl-C when [k] more effects have happened. *)
Record state : Type := mkState {
  reads : nat;
  typed : nat;
  intr : option nat;
  out : list event;
  logf : option (list line) }.

(** What the program does not decide: the system clock (its successive
    readings), the lines the user types, and the Python built-ins whose
    exact behaviour (Unicode, float syntax and printing) is left open. *)
Record world : Type := mkWorld {
  clock : nat -> Q;
  stdin : nat -> string;
  strip : string -> string;
  py_float : string -> option pyfloat;
  py_int : string -> option Z;
  fmt_float : Q -> string;
  fmt_entry : line -> string }.

Definition M (A : Type) : Type := state -> result A * state.

Definition ret {A} (a : A) : M A := fun s => (Ret a, s).

Definition bind {A B} (m : M A) (k : A -> M B) : M B :=
  fun s =>
    match m s with
    | (Ret a, s') => k a s'
    | (Raise e, s') => (Raise e, s')
    | (Diverge, s') => (Diverge, s')
    end.

Definition raise {A} (e : exn) : M A := fun s => (Raise e, s).
Definition diverge {A} : M A := fun s => (Diverge, s).

Definition lift {A} (r : result A) : M A := fun s => (r, s).

Declare Scope monad_scope.
Delimit Scope monad_scope with monad.
Notation "x <- m ;; k" := (bind m (fun x => k))
  (at level 61, m at next level, right associativity) : monad_scope.
Notation "m ;; k" := (bind m (fun _ => k))
  (at level 61, right associativity) : monad_scope.
Open Scope monad_scope.

Definition exn_eqb (a b : exn) : bool :=
  match a, b with
  | KeyboardInterrupt, KeyboardInterrupt => true
  | ValueError, ValueError => true
  | ZeroDivisionError, ZeroDivisionError => true
  | KeyError, KeyError => true
  | OverflowError, OverflowError => true
  | _, _ => false
  end.

(** [try: m  except e: h] *)
Definition try_except {A} (m : M A) (e : exn) (h : M A) : M A :=
  fun s =>
    match m s with
    | (Raise e', s') => if exn_eqb e e' then h s' else (Raise e', s')
    | rs => rs
    end.

Definition set_intr (i : option nat) (s : state) : state :=
  mkState (reads s) (typed s) i (out s) (logf s).
Definition add_out (e : event) (s : state) : state :=
  mkState (reads s) (typed s) (intr s) (out s ++ [e]) (logf s).
Definition set_logf (l : option (list line)) (s : state) : state :=
  mkState (reads s) (typed s) (intr s) (out s) l.

Definition lines (s : state) : list line :=
  match logf s with
  | None => []
  | Some l => l
  end.

(** Every effect is a point where a pending Ctrl-C is delivered, once. *)
Definition step : M unit :=
  fun s =>
    match intr s with
    | Some O => (Raise KeyboardInterrupt, set_intr None s)
    | Some (S k) => (Ret tt, set_intr (Some k) s)
    | None => (Ret tt, s)
    end.

Definition emit (e : event) : M unit :=
  step ;; fun s => (Ret tt, add_out e s).

Definition clear : M unit := emit Clear.
Definition bell : M unit := emit Bell.
Definition print (s : string) : M unit := emit (Print s).
Definition print_centered (s : string) : M unit := emit (PrintCentered s).
Definition write (d : display) : M unit := emit (Write d).
Definition flush : M unit := emit Flush.
Definition sleep (d : Q) : M unit := emit (Sleep d).

Fixpoint for_each {A} (l : list A) (body : A -> M unit) : M unit :=
  match l with
  | [] => ret tt
  | a :: l' => body a ;; for_each l' body
  end.

(** [range(1, n + 1)] and [range(n, 0, -1)] *)
Definition range_up (n : Z) : list Z := map Z.of_nat (seq 1 (Z.to_nat n)).
Definition range_down (n : Z) : list Z := rev (range_up n).

Section Program.

Variable w : world.

(** [time.time()] and [datetime.now()]: the next reading of the clock. *)
Definition time_time : M Q :=
  fun s => (Ret (clock w (reads s)),
            mkState (S (reads s)) (typed s) (intr s) (out s) (logf s)).

(** [input()] *)
Definition read_line : M string :=
  step ;;
  fun s => (Ret (stdin w (typed s)),
            mkState (reads s) (S (typed s)) (intr s) (out s) (logf s)).

(** [input(prompt)] *)
Definition input (prompt : string) : M string :=
  emit (Prompt prompt) ;; read_line.

(** [str(n)] as used by the f-strings. *)
Definition str_num (n : num) : string :=
  match n with
  | Int z => str_Z z
  | Float q => fmt_float w q
  end.

(** *** The log file *)

Definition path_exists : M bool :=
  step ;; fun s => (Ret (match logf s with Some _ => true | None => false end), s).

(** [open(LOG_FILE, "a")] creates the file when it is absent. *)
Definition open_append : M unit :=
  step ;; fun s => (Ret tt, set_logf (Some (lines s)) s).

Definition append_line (l : line) : M unit :=
  step ;; fun s => (Ret tt, set_logf (Some (lines s ++ [l])) s).

Definition log_session (kind : string) (duration_min : num) (notes : string) : M unit :=
  now <- time_time ;;
  let row := mkRow now kind duration_min notes in
  file_exists <- path_exists ;;
  open_append ;;
  (if negb file_exists then append_line Header else ret tt) ;;
  append_line (Row row).

(** *** progress_bar *)

Fixpoint progress_loop (fuel : nat) (total_seconds : Q) (prefix : string) (start : Q)
  : M unit :=
  match fuel with
  | O => diverge
  | S fuel' =>
      now <- time_time ;;
      let elapsed := (now - start)%Q in
      if Qle_bool total_seconds elapsed then ret tt
      else
        d <- lift (render total_seconds elapsed prefix) ;;
        write d ;;
        flush ;;
        sleep (1 # 2) ;;
        progress_loop fuel' total_seconds prefix start
  end.

Definition progress_bar (fuel : nat) (total_seconds : Q) (prefix : string) : M unit :=
  start <- time_time ;;
  progress_loop fuel total_seconds prefix start ;;
  write ClearLine.

(** *** Guided scripts *)

Definition GUIDED_5 : list cue :=
  [ (0%Q, "Sit comfortably, spine straight, hands relaxed.");
    (8%Q, "Close your eyes softly. Bring attention to the breath.");
    (20%Q, "Follow your inhale... and your exhale. No need to control.");
    (60%Q, "If the mind wanders, gently bring it back to the breath.");
    (120%Q, "Feel the body—weight on the seat, ground beneath you.");
    (180%Q, "Notice sounds outside without judging them.");
    (240%Q, "Feel gratitude for this time. When ready, deepen the breath.") ]%string.

Definition GUIDED_10 : list cue :=
  [ (0%Q, "Make yourself comfortable. Relax your shoulders.");
    (10%Q, "Close your eyes. Take three slow breaths, in and out.");
    (30%Q, "Allow your breath to find its own natural rhythm.");
    (90%Q, "Scan the body from head to toe—release any tension.");
    (180%Q, "Focus on the rise and fall of the chest or belly.");
    (300%Q, "If thoughts appear, label them 'thinking' and let them pass.");
    (420%Q, "Extend your out-breath by one second — just softly.");
    (540%Q, "Bring kindness to yourself. Hold this moment of calm.");
    (570%Q, "When ready, wiggle your fingers and toes and open eyes slowly.") ]%string.

Definition GUIDED_15 : list cue :=
  [ (0%Q, "Begin seated or lying down. Let the body soften.");
    (12%Q, "Take a deep inhalation and a slow exhalation.");
    (40%Q, "Scan your body and breathe into any tight spots.");
    (120%Q, "Now focus on breath sensations — cool at the nostrils, warm at the exhale.");
    (300%Q, "If a thought grabs you, observe it, then return to the breath.");
    (480%Q, "Stay with a gentle attention; do not push or force.");
    (660%Q, "Offer a short gratitude for something simple (a breath, a sound).");
    (840%Q, "Slowly deepen your breath and return awareness to the room.");
    (880%Q, "When ready, open your eyes and take this calm into your next minutes.") ]%string.

(** *** guided_session *)

(** Lines 131-134, [rest] being [script[i:]]: print the lines whose time
    has come and return the advanced cursor. *)
Fixpoint play_due (rest : list cue) (elapsed : Q) (i : nat) : M nat :=
  match rest with
  | [] => ret i
  | (offset, text) :: rest' =>
      if Qle_bool offset elapsed
      then print "" ;; print_centered text ;; play_due rest' elapsed (S i)
      else ret i
  end.

(** One iteration of the [while True] loop of [guided_session]: [None] is
    the [break], [Some i'] carries the cursor into the next iteration. *)
Definition guided_tick (fuel : nat) (script : list cue) (total_seconds start_time : Q)
  (i : nat) : M (option nat) :=
  now <- time_time ;;
  let elapsed := (now - start_time)%Q in
  if Qle_bool total_seconds elapsed then ret None
  else
    i' <- play_due (skipn i script) elapsed i ;;
    let remaining := max0 (total_seconds - elapsed) in
    progress_bar fuel remaining "Guided:" ;;
    ret (Some i').

Fixpoint guided_loop (fuel : nat) (script : list cue) (total_seconds start_time : Q)
  (i : nat) : M unit :=
  match fuel with
  | O => diverge
  | S fuel' =>
      r <- guided_tick fuel' script total_seconds start_time i ;;
      match r with
      | None => ret tt
      | Some i' => guided_loop fuel' script total_seconds start_time i'
      end
  end.

Definition session_complete : string :=
  "Session complete — gently come back when ready.".

Definition guided_session (fuel : nat) (script : list cue) (duration_min : num) : M unit :=
  clear ;;
  let total_seconds := num_mul duration_min (Int 60) in
  start_time <- time_time ;;
  bell ;;
  guided_loop fuel script (value total_seconds) start_time 0 ;;
  bell ;;
  print_centered session_complete ;;
  log_session ("Guided " ++ str_num duration_min ++ " min") duration_min "" ;;
  input "Press Enter to return to menu..." ;;
  ret tt.

(** *** custom_timer *)

Definition custom_timer (fuel : nat) (duration_min : num) : M unit :=
  clear ;;
  print_centered ("Custom silent timer — " ++ str_num duration_min ++ " minutes") ;;
  bell ;;
  progress_bar fuel (value (num_mul duration_min (Int 60))) "Timer:" ;;
  bell ;;
  print_centered "Time's up. Well done." ;;
  log_session "Custom timer" duration_min "" ;;
  input "Press Enter to return to menu..." ;;
  ret tt.

(** *** box_breathing *)

(** One phase: [for t in range(n, 0, -1): write; flush; sleep(1)]. *)
Definition phase (label : string) (n : Z) : M unit :=
  for_each (range_down n) (fun t =>
    write (PhaseLine label t) ;;
    flush ;;
    sleep 1).

Definition box_duration (cycles inhale hold exhale : Z) : num :=
  Float (inject_Z (cycles * (inhale + hold + exhale + hold)) / 60).

Definition box_breathing (cycles inhale hold exhale : Z) : M unit :=
  clear ;;
  print_centered "Box Breathing Exercise" ;;
  print "" ;;
  print ("Cycles: " ++ str_Z cycles ++ ", Pattern: Inhale " ++ str_Z inhale
         ++ "s — Hold " ++ str_Z hold ++ "s — Exhale " ++ str_Z exhale
         ++ "s — Hold " ++ str_Z hold ++ "s") ;;
  bell ;;
  sleep (12 # 10) ;;
  for_each (range_up cycles) (fun c =>
    print (LF ++ "Cycle " ++ str_Z c ++ "/" ++ str_Z cycles) ;;
    phase "Inhale  " inhale ;;
    phase "Hold    " hold ;;
    phase "Exhale  " exhale ;;
    phase "Hold    " hold ;;
    print "") ;;
  bell ;;
  print (LF ++ "Box breathing complete. Notice how you feel.") ;;
  log_session "Box breathing" (box_duration cycles inhale hold exhale) "" ;;
  input "Press Enter to return to menu..." ;;
  ret tt.

(** *** body_scan *)

Definition parts : list string :=
  [ "top of the head — notice sensations there";
    "forehead and eyes — soften the muscles";
    "jaw and mouth — let the jaw relax";
    "neck and shoulders — release weight into the chair";
    "arms, hands, and fingers — soft and heavy";
    "chest and belly — breathe into the chest";
    "lower back and hips — let them sink";
    "thighs and knees — feel support";
    "calves and shins — let go";
    "feet and toes — notice contact with the floor" ]%string.

(** [enumerate(l, start=k)] *)
Fixpoint enumerate {A} (k : Z) (l : list A) : list (Z * A) :=
  match l with
  | [] => []
  | a :: l' => (k, a) :: enumerate (k + 1) l'
  end.

Definition body_scan (fuel : nat) (duration_min : num) : M unit :=
  clear ;;
  let total_seconds := num_mul duration_min (Int 60) in
  per_part <- lift (py_truediv total_seconds (Int (Z.of_nat (List.length parts)))) ;;
  bell ;;
  print_centered ("Body-scan — " ++ str_num duration_min ++ " minutes") ;;
  sleep (12 # 10) ;;
  for_each (enumerate 1 parts) (fun ip =>
    print "" ;;
    print_centered ("Focus: " ++ snd ip) ;;
    progress_bar fuel per_part
      ("Part " ++ str_Z (fst ip) ++ "/" ++ str_Z (Z.of_nat (List.length parts)) ++ ":")) ;;
  bell ;;
  print_centered "Body scan complete. Slowly reconnect with the room." ;;
  log_session ("Body-scan " ++ str_num duration_min ++ " min") duration_min "" ;;
  input "Press Enter to return to menu..." ;;
  ret tt.

(** *** show_log *)

(** [rows[-20:]] *)
Definition last20 {A} (l : list A) : list A := skipn (List.length l - 20) l.

Definition read_log : M (list line) := fun s => (Ret (lines s), s).

Definition show_log : M unit :=
  clear ;;
  file_exists <- path_exists ;;
  if negb file_exists then
    print "No log found yet. Your sessions will be saved to meditation_log.csv" ;;
    input "Press Enter to return to menu..." ;;
    ret tt
  else
    print_centered "Meditation Log" ;;
    print (str_mul "-" 60) ;;
    content <- read_log ;;
    (* csv.DictReader: the first line names the fields *)
    match content with
    | [] | [_] => print "No sessions logged yet."
    | Header :: rows => for_each (last20 rows) (fun r => print (fmt_entry w r))
    | Row _ :: _ => raise KeyError
    end ;;
    print (str_mul "-" 60) ;;
    input "Press Enter to return to menu..." ;;
    ret tt.

(** *** main_menu *)

(** [s or d] on strings *)
Definition or_default (s d : string) : string :=
  match s with
  | EmptyString => d
  | _ => s
  end.

Definition parse {A} (o : option A) : M A :=
  match o with
  | Some a => ret a
  | None => raise ValueError
  end.

(** [str(x)] for a float as typed at the menu. *)
Definition str_float (x : pyfloat) : string :=
  match x with
  | Finite q => fmt_float w q
  | PosInf => "inf"
  | NegInf => "-inf"
  | NaN => "nan"
  end.

(** [custom_timer(mins)] when [mins * 60] is not a finite float: [mins] is
    nan or infinite, or the product overflows.  The loop test of
    [progress_bar] is then false and [int()] of a nan raises ValueError in
    the first iteration (line 73 for a nan total, line 75 for an infinite
    one, where [inf // 60] is nan), before anything is drawn. *)
Definition custom_timer_unbounded (mins : pyfloat) : M unit :=
  clear ;;
  print_centered ("Custom silent timer — " ++ str_float mins ++ " minutes") ;;
  bell ;;
  time_time ;;
  time_time ;;
  raise ValueError.

(** [custom_timer(mins)] for the float read at the menu. *)
Definition custom_timer_of (fuel : nat) (mins : pyfloat) : M unit :=
  match mins with
  | Finite q =>
      if overflows (q * 60) then custom_timer_unbounded mins
      else custom_timer fuel (Float q)
  | _ => custom_timer_unbounded mins
  end.

Definition menu_custom (fuel : nat) : M unit :=
  try_except
    (t <- input "Enter duration in minutes (e.g., 7.5): " ;;
     mins <- parse (py_float w (strip w t)) ;;
     (if float_le0 mins then raise ValueError else ret tt) ;;
     custom_timer_of fuel mins)
    ValueError
    (print "Invalid duration. Press Enter to continue..." ;;
     read_line ;;
     ret tt).

Definition menu_box : M unit :=
  try_except
    (a <- input "Number of cycles (default 4): " ;;
     cycles <- parse (py_int w (or_default a "4")) ;;
     b <- input "Inhale seconds (default 4): " ;;
     inhale <- parse (py_int w (or_default b "4")) ;;
     c <- input "Hold seconds (default 4): " ;;
     hold <- parse (py_int w (or_default c "4")) ;;
     d <- input "Exhale seconds (default 4): " ;;
     exhale <- parse (py_int w (or_default d "4")) ;;
     box_breathing cycles inhale hold exhale)
    ValueError
    (print "Invalid numbers. Returning to menu..." ;;
     sleep (12 # 10)).

Definition menu_body_scan (fuel : nat) : M unit :=
  try_except
    (t <- input "Duration minutes (default 10): " ;;
     mins <- parse (py_float w (or_default t "10")) ;;
     n <- lift (py_int_of_float mins) ;;
     body_scan fuel (Int n))
    ValueError
    (print "Invalid input. Returning to menu..." ;;
     sleep (12 # 10)).

Definition show_menu : M unit :=
  clear ;;
  print (str_mul "=" 60) ;;
  print_centered "Calm CLI — Simple Meditation App" ;;
  print (str_mul "=" 60) ;;
  print "Choose an option:" ;;
  print " 1) Guided — 5 minutes" ;;
  print " 2) Guided — 10 minutes" ;;
  print " 3) Guided — 15 minutes" ;;
  print " 4) Custom silent timer" ;;
  print " 5) Box breathing exercise" ;;
  print " 6) Body-scan meditation (10 min default)" ;;
  print " 7) View session log" ;;
  print " 0) Exit" ;;
  print "".

(** The body of the [while True] loop of [main_menu]: [true] means go on,
    [false] is the [break] of choice 0. *)
Definition menu_tick (fuel : nat) : M bool :=
  show_menu ;;
  t <- input "Enter choice: " ;;
  let choice := strip w t in
  if String.eqb choice "1" then guided_session fuel GUIDED_5 (Int 5) ;; ret true
  else if String.eqb choice "2" then guided_session fuel GUIDED_10 (Int 10) ;; ret true
  else if String.eqb choice "3" then guided_session fuel GUIDED_15 (Int 15) ;; ret true
  else if String.eqb choice "4" then menu_custom fuel ;; ret true
  else if String.eqb choice "5" then menu_box ;; ret true
  else if String.eqb choice "6" then menu_body_scan fuel ;; ret true
  else if String.eqb choice "7" then show_log ;; ret true
  else if String.eqb choice "0" then
    clear ;;
    print_centered "May you have a calm and peaceful day — goodbye." ;;
    ret false
  else
    print "Unknown choice. Try again." ;;
    sleep 1 ;;
    ret true.

Fixpoint main_menu (fuel : nat) : M unit :=
  match fuel with
  | O => diverge
  | S fuel' =>
      go_on <- menu_tick fuel' ;;
      if go_on then main_menu fuel' else ret tt
  end.

Definition farewell : string := LF ++ LF ++ "Session interrupted. Take care.".

(** [if __name__ == "__main__"] *)
Definition main (fuel : nat) : M unit :=
  try_except (main_menu fuel) KeyboardInterrupt (print farewell).

End Program.

(** ** A sample world *)

(** Decimal integers with an optional minus sign. *)
Definition dec_int (s : string) : option Z :=
  option_map Z.of_int (NilZero.int_of_string s).

(** A clock read every half second, the first two readings equal. *)
Definition half_second_clock (k : nat) : Q := inject_Z (Z.of_nat (k - 1)) / 2.

(** The lines of [typed], then empty lines. *)
Definition typing (typed : list string) (k : nat) : string := nth k typed EmptyString.

Definition sample_world (typed : list string) : world :=
  mkWorld half_second_clock (typing typed) (fun s => s)
          (fun s => option_map (fun z => Finite (inject_Z z)) (dec_int s)) dec_int
          (fun q => str_Z (Qnum q) ++ "/" ++ str_Z (Zpos (Qden q)))%string
          (fun l => match l with Header => "timestamp" | Row r => kind r end)%string.

Definition start_state : state := mkState 0 0 None [] None.

(** The terminal events a computation adds to those of [s]. *)
Definition news (s s' : state) : list event := skipn (List.length (out s)) (out s').

Definition cue_prints (evs : list event) : list string :=
  flat_map (fun e => match e with PrintCentered t => [t] | _ => [] end) evs.

Definition bells (evs : list event) : nat :=
  List.length (filter (fun e => match e with Bell => true | _ => false end) evs).

Definition bar_fills (evs : list event) : list Z :=
  flat_map (fun e => match e with Write (BarLine _ f _ _) => [f] | _ => [] end) evs.

(** Seconds slept in the count-down of box breathing (the [sleep(1)] calls). *)
Definition counted_seconds (evs : list event) : Z :=
  Z.of_nat (List.length (filter (fun e => match e with
                                          | Sleep d => Qeq_bool d 1
                                          | _ => false end) evs)).

(** ** Vocabulary of the specifications *)

Definition add_outs (evs : list event) (s : state) : state :=
  mkState (reads s) (typed s) (intr s) (out s ++ evs) (logf s).

Definition writes (evs : list event) : list display :=
  flat_map (fun e => match e with Write d => [d] | _ => [] end) evs.

Definition not_bell (e : event) : bool :=
  match e with Bell => false | _ => true end.

Definition not_cue (e : event) : bool :=
  match e with PrintCentered _ => false | _ => true end.

(** What [progress_bar] does to the terminal. *)
Definition drawing (e : event) : bool :=
  match e with Write _ | Flush | Sleep _ => true | _ => false end.

Definition any_event (e : event) : bool := true.

(** [s'] comes after [s]: the terminal received further events, all of
    them accepted by [ok]. *)
Definition only (ok : event -> bool) (s s' : state) : Prop :=
  exists evs, out s' = (out s ++ evs)%list /\ forallb ok evs = true.

Definition same_log (s s' : state) : Prop := logf s' = logf s.

Definition quiet (ok : event -> bool) (s s' : state) : Prop :=
  same_log s s' /\ only ok s s'.

(** A computation relates every state to the state it leaves, whatever the
    outcome. *)
Definition stable {A} (R : state -> state -> Prop) (m : M A) : Prop :=
  forall s, R s (snd (m s)).

(** Hoare triples: [Q] after a normal return, [E] after an exception or a
    loop out of iterations. *)
Definition triple {A} (P : state -> Prop) (m : M A) (Q : A -> state -> Prop)
  (E : state -> Prop) : Prop :=
  forall s, P s ->
    match m s with
    | (Ret a, s') => Q a s'
    | (_, s') => E s'
    end.

(** The interrupt discipline: [KeyboardInterrupt] comes out of a computation
    exactly when the pending Ctrl-C was delivered in it. *)
Definition delivers {A} (m : M A) : Prop :=
  forall s,
    match fst (m s) with
    | Raise KeyboardInterrupt => intr s <> None /\ intr (snd (m s)) = None
    | _ => (intr s = None -> intr (snd (m s)) = None) /\
           (intr s <> None -> intr (snd (m s)) <> None)
    end.

(** What one session may add to the log file. *)
Definition log_growth (ls : list line) : Prop :=
  ls = [] \/ ls = [Header] \/ exists r, ls = [Row r] \/ ls = [Header; Row r].

(** The sessions of the menu. *)
Inductive session : Type :=
| Guided (script : list cue) (duration_min : num)
| CustomTimer (duration_min : num)
| BoxBreathing (cycles inhale hold exhale : Z)
| BodyScan (duration_min : num).

Definition run_session (w : world) (fuel : nat) (k : session) : M unit :=
  match k with
  | Guided script d => guided_session w fuel script d
  | CustomTimer d => custom_timer w fuel d
  | BoxBreathing c i h e => box_breathing w c i h e
  | BodyScan d => body_scan w fuel d
  end.

(** The configurations (cursor, state) at the head of the loop of
    [guided_session], from the state [s1] in which the loop is entered. *)
Inductive at_tick (w : world) (script : list cue) (total start : Q) (s1 : state)
  : nat -> state -> Prop :=
| at_first : at_tick w script total start s1 0 s1
| at_next fuel i s i' s' :
    at_tick w script total start s1 i s ->
    guided_tick w fuel script total start i s = (Ret (Some i'), s') ->
    at_tick w script total start s1 i' s'.

(** The clock never runs backwards. *)
Definition monotone (w : world) : Prop :=
  forall n, (clock w n <= clock w (S n))%Q.

(** Phases of a session started in [s0]: [n] bells rung and the log file
    untouched; the log written after the end bell; and what holds of a
    session wherever it stops. *)
Definition rung (n : nat) (s0 s : state) : Prop :=
  logf s = logf s0 /\ exists evs, out s = (out s0 ++ evs)%list /\ bells evs = n.

Definition logged (s0 s : state) : Prop :=
  (exists evs, out s = (out s0 ++ evs)%list /\ (2 <= bells evs)%nat) /\
  exists ls, lines s = (lines s0 ++ ls)%list /\ log_growth ls.

Definition log_safe (s0 s : state) : Prop :=
  ((bells (news s0 s) < 2)%nat -> logf s = logf s0) /\
  exists ls, lines s = (lines s0 ++ ls)%list /\ log_growth ls.

(** The terminal events of an uninterrupted run of box breathing. *)
Definition phase_events (label : string) (n : Z) : list event :=
  flat_map (fun t => [Write (PhaseLine label t); Flush; Sleep 1]) (range_down n).

Definition cycle_events (cycles inhale hold exhale c : Z) : list event :=
  ([Print (LF ++ "Cycle " ++ str_Z c ++ "/" ++ str_Z cycles)]
   ++ phase_events "Inhale  " inhale
   ++ phase_events "Hold    " hold
   ++ phase_events "Exhale  " exhale
   ++ phase_events "Hold    " hold
   ++ [Print ""])%list.

Definition box_events (cycles inhale hold exhale : Z) : list event :=
  ([Clear; PrintCentered "Box Breathing Exercise"; Print "";
    Print ("Cycles: " ++ str_Z cycles ++ ", Pattern: Inhale " ++ str_Z inhale
           ++ "s — Hold " ++ str_Z hold ++ "s — Exhale " ++ str_Z exhale
           ++ "s — Hold " ++ str_Z hold ++ "s");
    Bell; Sleep (12 # 10)]
   ++ flat_map (cycle_events cycles inhale hold exhale) (range_up cycles)
   ++ [Bell; Print (LF ++ "Box breathing complete. Notice how you feel.");
       Prompt "Press Enter to return to menu..."])%list.

(** The header a first write puts in front of the row. *)
Definition header_if_new (s : state) : list line :=
  match logf s with
  | None => [Header]
  | Some _ => []
  end.

(** Since [s1] exactly the first [j] cues of the script were printed, all
    of them with an offset below the total duration. *)
Definition printed (script : list cue) (total : Q) (s1 : state) (j : nat) (s : state)
  : Prop :=
  (j <= List.length script)%nat /\
  Forall (fun c => (fst c < total)%Q) (firstn j script) /\
  exists evs, out s = (out s1 ++ evs)%list /\ cue_prints evs = map snd (firstn j script).

(** A bar that is drawn is never full. *)
Definition fill_ok (e : event) : bool :=
  match e with
  | Write (BarLine _ f _ _) => (f <=? 29)%Z
  | _ => true
  end.

Definition not_write (e : event) : bool :=
  match e with Write _ => false | _ => true end.

(** Since [s1] the progress line was written to, and last of all cleared. *)
Definition cleared (s1 s : state) : Prop :=
  exists evs, out s = (out s1 ++ evs)%list /\
              last (writes evs) (BarLine "" 30 0 0) = ClearLine.

(** ** Binary64 arithmetic

    The definitions above read a float as the rational it stands for and
    compute exactly.  The machine rounds every operation to the nearest
    binary64 number, ties to even.  [b64] is that rounding on the
    rationals, for results within the range of a float; the operations of
    lines 71-77 are repeated below with every intermediate result rounded
    as the machine rounds it. *)

(** [2^k], for any integer [k]. *)
Definition pow2 (k : Z) : Q := (2 ^ k)%Q.

(** The binary exponent of a positive rational: [2^e <= x < 2^(e+1)]. *)
Definition ilog2 (x : Q) : Z :=
  let e := (Z.log2 (Qnum x) - Z.log2 (Zpos (Qden x)))%Z in
  if Qle_bool (pow2 e) x then e else (e - 1)%Z.

(** The nearest integer, ties to the even one. *)
Definition rne (x : Q) : Z :=
  let f := Qfloor x in
  match (x - inject_Z f ?= 1 # 2)%Q with
  | Lt => f
  | Gt => (f + 1)%Z
  | Eq => if Z.even f then f else (f + 1)%Z
  end.

(** The exponent of the last place of a binary64 number of the size of [x]:
    53 significant bits, and no finer than [2^-1074]. *)
Definition ulp_exp (x : Q) : Z := Z.max (ilog2 (Qabs x) - 52) (-1074).

(** Rounding to binary64. *)
Definition b64 (x : Q) : Q :=
  if Qeq_bool x 0 then 0%Q
  else (inject_Z (rne (x / pow2 (ulp_exp x))) * pow2 (ulp_exp x))%Q.

(** [fmod(x, y)] of the C library: the remainder of the truncated quotient,
    computed exactly. *)
Definition fmod (x y : Q) : Q := (x - y * inject_Z (int_of_float (x / y)))%Q.

(** [x // y] and [x % y] on floats, as the interpreter computes them from
    [fmod]. *)
Definition float_divmod (vx wx : Q) : Q * Q :=
  let m := fmod vx wx in
  let d := b64 (b64 (vx - m) / wx) in
  let '(d, m) :=
    if Qeq_bool m 0 then (d, m)
    else if Bool.eqb (negb (Qle_bool 0 wx)) (negb (Qle_bool 0 m)) then (d, m)
         else (b64 (d - 1), b64 (m + wx)) in
  let f :=
    if Qeq_bool d 0 then 0%Q
    else let f := inject_Z (Qfloor d) in
         if Qle_bool (b64 (d - f)) (1 # 2) then f else b64 (f + 1) in
  (f, m).

(** Line 71: [percent = elapsed / total_seconds]. *)
Definition percent64 (total elapsed : Q) : Q := b64 (elapsed / total).

(** Line 73: [filled = int(percent * bar_len)]. *)
Definition filled64 (total elapsed : Q) : Z :=
  int_of_float (b64 (percent64 total elapsed * inject_Z bar_len)).

(** [total_seconds - elapsed] of lines 75 and 76. *)
Definition remaining64 (total elapsed : Q) : Q := b64 (total - elapsed).

(** Line 75: [mins_left = int((total_seconds - elapsed) // 60)]. *)
Definition mins64 (total elapsed : Q) : Z :=
  int_of_float (fst (float_divmod (remaining64 total elapsed) 60)).

(** Line 76: [secs_left = int((total_seconds - elapsed) % 60)]. *)
Definition secs64 (total elapsed : Q) : Z :=
  int_of_float (snd (float_divmod (remaining64 total elapsed) 60)).

(** Lines 71-77 on binary64 numbers. *)
Definition render64 (total elapsed : Q) (prefix : string) : result display :=
  if Qeq_bool total 0 then Raise ZeroDivisionError
  else Ret (BarLine prefix (filled64 total elapsed)
                    (mins64 total elapsed) (secs64 total elapsed)).

(** The spec's wording of the countdown: the seconds that remain, truncated
    toward zero, as two digits of minutes and two of seconds. *)
Definition digit (n : Z) : ascii := ascii_of_nat (48 + Z.to_nat n).

Definition two_digits (n : Z) : string :=
  String (digit (n / 10)) (String (digit (n mod 10)) EmptyString).

Definition spec_countdown (total elapsed : Q) : string :=
  let r := int_of_float (total - elapsed) in
  (two_digits (r / 60) ++ ":" ++ two_digits (r mod 60))%string.

(** ** Further vocabulary *)

(** A log file as [log_session] leaves it: absent, or the header followed
    by rows. *)
Definition well_formed (f : option (list line)) : Prop :=
  match f with
  | None => True
  | Some l => exists rows, l = Header :: map Row rows
  end.

Definition no_exception (e : exn) : bool := false.

Definition value_error_only (e : exn) : bool :=
  match e with ValueError => true | _ => false end.

(** How a computation may end without crashing the program: with a value
    or out of iterations, the log file well-formed; with an exception that
    [allowed] accepts, the log file well-formed for its handler; or with the
    KeyboardInterrupt that [main] catches. *)
Definition survives {A} (allowed : exn -> bool) (r : result A) (s' : state) : Prop :=
  match r with
  | Raise KeyboardInterrupt => True
  | Raise e => allowed e = true /\ well_formed (logf s')
  | _ => well_formed (logf s')
  end.

(** From a well-formed log file the computation ends in one of these ways,
    whenever an interrupt arrives, if any. *)
Definition safe {A} (allowed : exn -> bool) (m : M A) : Prop :=
  forall s, well_formed (logf s) -> survives allowed (fst (m s)) (snd (m s)).

(** A float of ordinary size: finite and at most [2^63] in magnitude. *)
Definition bounded_float (x : pyfloat) : Prop :=
  match x with
  | Finite q => (Qabs q <= inject_Z (2 ^ 63))%Q
  | _ => False
  end.

(** The lines typed hold ordinary numbers only: wherever one of them is
    read as a number, it is finite and at most [2^63] in magnitude. *)
Definition tame (w : world) : Prop :=
  forall k,
    (forall x, py_float w (strip w (stdin w k)) = Some x -> bounded_float x) /\
    (forall x, py_float w (or_default (stdin w k) "10") = Some x -> bounded_float x) /\
    (forall z, py_int w (or_default (stdin w k) "4") = Some z -> (Z.abs z <= 2 ^ 63)%Z).

(** A reading of the entry of choice 6 that no float can carry through the
    body scan: an infinity, on which [int()] raises, or a finite number whose
    whole minutes, times 60 and divided by the ten parts, exceed the range of
    a float. *)
Definition beyond_scan (x : pyfloat) : bool :=
  match x with
  | Finite q => overflows (inject_Z (int_of_float q * 60) / inject_Z 10)
  | PosInf | NegInf => true
  | NaN => false
  end.

(** What [show_menu] prints. *)
Definition menu_events : list event :=
  [Clear; Print (str_mul "=" 60); PrintCentered "Calm CLI — Simple Meditation App";
   Print (str_mul "=" 60); Print "Choose an option:";
   Print " 1) Guided — 5 minutes"; Print " 2) Guided — 10 minutes";
   Print " 3) Guided — 15 minutes"; Print " 4) Custom silent timer";
   Print " 5) Box breathing exercise"; Print " 6) Body-scan meditation (10 min default)";
   Print " 7) View session log"; Print " 0) Exit"; Print ""].

(** A list of fill counts that never goes down. *)
Fixpoint ascending (l : list Z) : Prop :=
  match l with
  | [] => True
  | x :: l' => Forall (fun y => (x <= y)%Z) l' /\ ascending l'
  end.

(** What the terminal shows for the lines of a log, oldest first. *)
Definition shown (w : world) (ls : list line) : list event :=
  map (fun l => Print (fmt_entry w l)) ls.

(** The centered lines of a complete body scan. *)
Definition body_scan_lines (w : world) (d : num) : list string :=
  (("Body-scan — " ++ str_num w d ++ " minutes")%string
   :: map (fun p => ("Focus: " ++ p)%string) parts
   ++ ["Body scan complete. Slowly reconnect with the room."%string])%list.

(** * Properties *)

(** ** Arithmetic of the renderer *)

Section Rounding.
Local Open Scope Q_scope.

Lemma Qfloor_unique (x : Q) (z : Z) :
  inject_Z z <= x -> x < inject_Z (z + 1) -> Qfloor x = z.
Proof.
  intros Hlo Hhi.
  pose proof (Qfloor_le x) as Hle.
  pose proof (Qlt_floor x) as Hlt.
  assert (H1 : (Qfloor x < z + 1)%Z).
  { rewrite Zlt_Qlt. eapply Qle_lt_trans; eauto. }
  assert (H2 : (z < Qfloor x + 1)%Z).
  { rewrite Zlt_Qlt. eapply Qle_lt_trans; eauto. }
  lia.
Qed.

Lemma int_of_float_nonneg (x : Q) : 0 <= x -> int_of_float x = Qfloor x.
Proof.
  destruct x as [n d]. unfold Qle, int_of_float, Qfloor. simpl.
  intros H. apply Z.quot_div_nonneg; lia.
Qed.

Lemma int_of_float_Z (z : Z) : int_of_float (inject_Z z) = z.
Proof. unfold int_of_float. simpl. apply Z.quot_1_r. Qed.

Lemma Qfloor_div60 (x : Q) : Qfloor (x / 60) = (Qfloor x / 60)%Z.
Proof.
  pose proof (Qfloor_le x) as Hle.
  pose proof (Qlt_floor x) as Hlt.
  set (r := Qfloor x) in *.
  pose proof (Z.div_mod r 60 ltac:(lia)) as Hdm.
  pose proof (Z.mod_pos_bound r 60 ltac:(lia)) as Hb.
  set (q := (r / 60)%Z) in *.
  assert (Hr1 : inject_Z (60 * q) <= inject_Z r) by (rewrite <- Zle_Qle; lia).
  assert (Hr2 : inject_Z (r + 1) <= inject_Z (60 * (q + 1))) by (rewrite <- Zle_Qle; lia).
  rewrite !inject_Z_mult in *. rewrite !inject_Z_plus in *.
  apply Qfloor_unique.
  - apply Qle_shift_div_l; [reflexivity|].
    rewrite Qmult_comm. eapply Qle_trans; eauto.
  - rewrite inject_Z_plus. apply Qlt_shift_div_r; [reflexivity|].
    rewrite Qmult_comm. eapply Qlt_le_trans; eauto.
Qed.

Lemma mins_left_floor (total elapsed : Q) :
  mins_left total elapsed = (Qfloor (total - elapsed) / 60)%Z.
Proof.
  unfold mins_left, floordiv. rewrite int_of_float_Z. apply Qfloor_div60.
Qed.

Lemma secs_left_floor (total elapsed : Q) :
  secs_left total elapsed = (Qfloor (total - elapsed) mod 60)%Z.
Proof.
  unfold secs_left, pymod, floordiv.
  set (x := total - elapsed).
  rewrite Qfloor_div60.
  pose proof (Qfloor_le x) as Hle.
  pose proof (Qlt_floor x) as Hlt.
  set (r := Qfloor x) in *.
  pose proof (Z.div_mod r 60 ltac:(lia)) as Hdm.
  pose proof (Z.mod_pos_bound r 60 ltac:(lia)) as Hb.
  set (q := (r / 60)%Z) in *.
  assert (Hq : inject_Z r == 60 * inject_Z q + inject_Z (r mod 60)).
  { rewrite Hdm at 1. rewrite inject_Z_plus, inject_Z_mult. reflexivity. }
  assert (H0 : 0 <= inject_Z (r mod 60)) by (change 0 with (inject_Z 0); rewrite <- Zle_Qle; lia).
  rewrite inject_Z_plus in Hlt. change (inject_Z 1) with 1 in Hlt.
  assert (Hlo : inject_Z (r mod 60) <= x - 60 * inject_Z q).
  { apply (Qplus_le_l _ _ (60 * inject_Z q)). ring_simplify.
    rewrite Qplus_comm. rewrite <- Hq. exact Hle. }
  rewrite int_of_float_nonneg by (eapply Qle_trans; eauto).
  apply Qfloor_unique; [exact Hlo|].
  rewrite inject_Z_plus. change (inject_Z 1) with 1.
  apply (Qplus_lt_l _ _ (60 * inject_Z q)). ring_simplify.
  eapply Qlt_le_trans; [exact Hlt|]. rewrite Hq. ring_simplify. apply Qle_refl.
Qed.

Lemma filled_spec (total elapsed : Q) :
  0 < total -> 0 <= elapsed ->
  filled_of (elapsed / total) = spec_filled total elapsed.
Proof.
  intros Ht He. unfold filled_of, spec_filled, bar_len.
  assert (Hp : 0 <= elapsed / total).
  { apply Qle_shift_div_l; [exact Ht|]. ring_simplify. exact He. }
  rewrite int_of_float_nonneg.
  - apply Qfloor_comp. change (inject_Z 30) with 30. field.
    intro H. rewrite H in Ht. discriminate.
  - change (inject_Z 30) with 30.
    apply Qmult_le_0_compat; [exact Hp | discriminate].
Qed.

Lemma spec_filled_mono (total e1 e2 : Q) :
  0 < total -> e1 <= e2 -> (spec_filled total e1 <= spec_filled total e2)%Z.
Proof.
  intros Ht H. unfold spec_filled. apply Qfloor_resp_le.
  unfold Qdiv. apply Qmult_le_compat_r.
  - apply Qmult_le_l; [reflexivity | exact H].
  - apply Qinv_le_0_compat. apply Qlt_le_weak. exact Ht.
Qed.

Lemma spec_filled_range (total elapsed : Q) :
  0 < total -> 0 <= elapsed -> elapsed <= total ->
  (0 <= spec_filled total elapsed <= 30)%Z.
Proof.
  intros Ht H0 H1. split.
  - replace 0%Z with (spec_filled total 0).
    + apply spec_filled_mono; assumption.
    + unfold spec_filled. apply Qfloor_unique.
      * apply Qle_shift_div_l; [exact Ht|]. ring_simplify. apply Qle_refl.
      * apply Qlt_shift_div_r; [exact Ht|]. ring_simplify.
        change (inject_Z (0 + 1)) with 1. ring_simplify. exact Ht.
  - replace 30%Z with (spec_filled total total).
    + apply spec_filled_mono; assumption.
    + unfold spec_filled. apply Qfloor_unique.
      * apply Qle_shift_div_l; [exact Ht|]. apply Qle_refl.
      * apply Qlt_shift_div_r; [exact Ht|].
        change (inject_Z (30 + 1)) with 31.
        apply Qmult_lt_compat_r; [exact Ht | reflexivity].
Qed.

End Rounding.

(** ** Rounding to binary64 *)

Lemma pow2_pos (k : Z) : (0 < pow2 k)%Q.
Proof. apply Qpower_0_lt. reflexivity. Qed.

Lemma pow2_plus (a b : Z) : (pow2 (a + b) == pow2 a * pow2 b)%Q.
Proof. apply Qpower_plus. intros H. discriminate H. Qed.

Lemma pow2_le (a b : Z) : (a <= b)%Z -> (pow2 a <= pow2 b)%Q.
Proof. intros H. apply Qpower_le_compat_l; [exact H | intros C; discriminate C]. Qed.

Lemma pow2_lt (a b : Z) : (a < b)%Z -> (pow2 a < pow2 b)%Q.
Proof. intros H. apply Qpower_lt_compat_l; [exact H | reflexivity]. Qed.

Lemma pow2_lt_inv (a b : Z) : (pow2 a < pow2 b)%Q -> (a < b)%Z.
Proof. intros H. eapply Qpower_lt_compat_l_inv; [exact H | reflexivity]. Qed.

Lemma pow2_Z (n : Z) : (0 <= n)%Z -> (pow2 n == inject_Z (2 ^ n))%Q.
Proof. intros H. unfold pow2. rewrite Zpower_Qpower by exact H. reflexivity. Qed.

Lemma pow2_split (a b : Z) : (pow2 a == pow2 (a - b) * pow2 b)%Q.
Proof. rewrite <- pow2_plus. replace (a - b + b)%Z with a by ring. reflexivity. Qed.

Lemma ilog2_spec (x : Q) :
  (0 < x)%Q -> (pow2 (ilog2 x) <= x)%Q /\ (x < pow2 (ilog2 x + 1))%Q.
Proof.
  intros Hx. destruct x as [a b].
  assert (Ha : (0 < a)%Z) by (unfold Qlt in Hx; simpl in Hx; lia).
  unfold ilog2. cbn [Qnum Qden].
  destruct (Z.log2_spec a Ha) as [Ha1 Ha2].
  destruct (Z.log2_spec (Zpos b) (Pos2Z.is_pos b)) as [Hb1 Hb2].
  set (la := Z.log2 a) in *. set (lb := Z.log2 (Zpos b)) in *.
  assert (Hla : (0 <= la)%Z) by apply Z.log2_nonneg.
  assert (Hlb : (0 <= lb)%Z) by apply Z.log2_nonneg.
  assert (Hb0 : (0 < inject_Z (Zpos b))%Q) by reflexivity.
  assert (Hx' : (a # b == inject_Z a / inject_Z (Zpos b))%Q) by apply Qmake_Qdiv.
  assert (Qa1 : (pow2 la <= inject_Z a)%Q).
  { rewrite pow2_Z by exact Hla. rewrite <- Zle_Qle. exact Ha1. }
  assert (Qa2 : (inject_Z a < pow2 (la + 1))%Q).
  { rewrite pow2_Z by lia. rewrite <- Zlt_Qlt. replace (la + 1)%Z with (Z.succ la) by lia.
    exact Ha2. }
  assert (Qb1 : (pow2 lb <= inject_Z (Zpos b))%Q).
  { rewrite pow2_Z by exact Hlb. rewrite <- Zle_Qle. exact Hb1. }
  assert (Qb2 : (inject_Z (Zpos b) < pow2 (lb + 1))%Q).
  { rewrite pow2_Z by lia. rewrite <- Zlt_Qlt. replace (lb + 1)%Z with (Z.succ lb) by lia.
    exact Hb2. }
  assert (Hlow : (pow2 (la - lb - 1) < a # b)%Q).
  { rewrite Hx'. apply Qlt_shift_div_l; [exact Hb0|].
    apply Qlt_le_trans with (pow2 la); [|exact Qa1].
    rewrite (pow2_split la (lb + 1)).
    replace (la - (lb + 1))%Z with (la - lb - 1)%Z by ring.
    apply Qmult_lt_l; [apply pow2_pos | exact Qb2]. }
  assert (Hhigh : (a # b < pow2 (la - lb + 1))%Q).
  { rewrite Hx'. apply Qlt_shift_div_r; [exact Hb0|].
    apply Qlt_le_trans with (pow2 (la + 1)); [exact Qa2|].
    rewrite (pow2_split (la + 1) lb).
    replace (la + 1 - lb)%Z with (la - lb + 1)%Z by ring.
    apply Qmult_le_l; [apply pow2_pos | exact Qb1]. }
  destruct (Qle_bool (pow2 (la - lb)) (a # b)) eqn:E.
  - apply Qle_bool_iff in E. split; [exact E | exact Hhigh].
  - split.
    + apply Qlt_le_weak. exact Hlow.
    + replace (la - lb - 1 + 1)%Z with (la - lb)%Z by ring.
      apply Qnot_le_lt. intros C. apply Qle_bool_iff in C. congruence.
Qed.

Lemma ilog2_unique (x : Q) (e : Z) :
  (pow2 e <= x)%Q -> (x < pow2 (e + 1))%Q -> ilog2 x = e.
Proof.
  intros H1 H2.
  assert (Hx : (0 < x)%Q) by (eapply Qlt_le_trans; [apply pow2_pos | exact H1]).
  destruct (ilog2_spec Hx) as [G1 G2].
  assert (A : (ilog2 x < e + 1)%Z).
  { apply pow2_lt_inv. eapply Qle_lt_trans; eauto. }
  assert (B : (e < ilog2 x + 1)%Z).
  { apply pow2_lt_inv. eapply Qle_lt_trans; eauto. }
  lia.
Qed.

Lemma ilog2_mono (x y : Q) : (0 < x)%Q -> (x <= y)%Q -> (ilog2 x <= ilog2 y)%Z.
Proof.
  intros Hx Hxy.
  assert (Hy : (0 < y)%Q) by (eapply Qlt_le_trans; eauto).
  destruct (ilog2_spec Hx) as [G1 _]. destruct (ilog2_spec Hy) as [_ K2].
  assert (A : (ilog2 x < ilog2 y + 1)%Z).
  { apply pow2_lt_inv. eapply Qle_lt_trans; [exact G1|].
    eapply Qle_lt_trans; eauto. }
  lia.
Qed.

Lemma rne_bounds (x : Q) : (Qfloor x <= rne x <= Qfloor x + 1)%Z.
Proof.
  unfold rne. destruct (x - inject_Z (Qfloor x) ?= 1 # 2)%Q; [|lia|lia].
  destruct (Z.even (Qfloor x)); lia.
Qed.

Lemma rne_Z (n : Z) : rne (inject_Z n) = n.
Proof.
  unfold rne. rewrite Qfloor_Z.
  assert (H : (inject_Z n - inject_Z n ?= 1 # 2)%Q = Lt).
  { apply Qlt_alt. setoid_replace (inject_Z n - inject_Z n)%Q with 0%Q by ring. reflexivity. }
  rewrite H. reflexivity.
Qed.

Lemma rne_mono (x y : Q) : (x <= y)%Q -> (rne x <= rne y)%Z.
Proof.
  intros Hxy.
  pose proof (Qfloor_resp_le _ _ Hxy) as Hf.
  pose proof (rne_bounds x) as Bx. pose proof (rne_bounds y) as By.
  destruct (Z.eq_dec (Qfloor x) (Qfloor y)) as [E|E]; [|lia].
  unfold rne in *. rewrite <- E in *.
  destruct (Qcompare_spec (x - inject_Z (Qfloor x)) (1 # 2)) as [Hx|Hx|Hx];
    destruct (Qcompare_spec (y - inject_Z (Qfloor x)) (1 # 2)) as [Hy|Hy|Hy];
    try destruct (Z.even (Qfloor x)); try lia; exfalso; lra.
Qed.

Lemma rne_eq (x y : Q) : (x == y)%Q -> rne x = rne y.
Proof.
  intros H. apply Z.le_antisymm; apply rne_mono; rewrite H; apply Qle_refl.
Qed.

Lemma ilog2_eq (x y : Q) : (0 < x)%Q -> (x == y)%Q -> ilog2 x = ilog2 y.
Proof.
  intros Hx H. destruct (ilog2_spec Hx) as [A B].
  symmetry. apply ilog2_unique; rewrite <- H; assumption.
Qed.

Lemma ulp_exp_eq (x y : Q) : ~ (x == 0)%Q -> (x == y)%Q -> ulp_exp x = ulp_exp y.
Proof.
  intros Hx H. unfold ulp_exp. f_equal. f_equal.
  apply ilog2_eq; [|rewrite H; reflexivity].
  apply Qabs_case; intros Hs.
  - apply Qle_lteq in Hs. destruct Hs as [Hs|Hs]; [exact Hs|].
    exfalso. apply Hx. symmetry. exact Hs.
  - apply Qle_lteq in Hs. destruct Hs as [Hs|Hs]; [lra|].
    exfalso. apply Hx. exact Hs.
Qed.

Lemma b64_eq (x y : Q) : (x == y)%Q -> (b64 x == b64 y)%Q.
Proof.
  intros H. unfold b64.
  destruct (Qeq_bool x 0) eqn:Ex.
  - apply Qeq_bool_eq in Ex.
    assert (Ey : Qeq_bool y 0 = true) by (apply Qeq_eq_bool; rewrite <- H; exact Ex).
    rewrite Ey. reflexivity.
  - assert (Nx : ~ (x == 0)%Q) by (intros C; apply Qeq_eq_bool in C; congruence).
    assert (Ey : Qeq_bool y 0 = false).
    { destruct (Qeq_bool y 0) eqn:E; [|reflexivity].
      apply Qeq_bool_eq in E. exfalso. apply Nx. rewrite H. exact E. }
    rewrite Ey. rewrite <- (ulp_exp_eq Nx H).
    rewrite (@rne_eq (x / pow2 (ulp_exp x)) (y / pow2 (ulp_exp x))); [reflexivity|].
    unfold Qdiv. apply Qmult_comp; [exact H | reflexivity].
Qed.

#[global] Instance b64_comp : Proper (Qeq ==> Qeq) b64.
Proof. intros x y H. apply b64_eq. exact H. Qed.

(** Rounding on the grid of the multiples of [2^k]. *)
Lemma grid_mono (k : Z) (x y : Q) :
  (x <= y)%Q ->
  (inject_Z (rne (x / pow2 k)) * pow2 k <= inject_Z (rne (y / pow2 k)) * pow2 k)%Q.
Proof.
  intros H. apply Qmult_le_compat_r; [|apply Qlt_le_weak, pow2_pos].
  rewrite <- Zle_Qle. apply rne_mono.
  apply Qmult_le_compat_r; [exact H|].
  apply Qlt_le_weak, Qinv_lt_0_compat, pow2_pos.
Qed.

Lemma grid_fix (k n : Z) (x : Q) :
  (x == inject_Z n * pow2 k)%Q -> (inject_Z (rne (x / pow2 k)) * pow2 k == x)%Q.
Proof.
  intros H.
  assert (Hp : ~ (pow2 k == 0)%Q).
  { intros C. pose proof (pow2_pos k) as P. rewrite C in P. discriminate P. }
  rewrite (@rne_eq (x / pow2 k) (inject_Z n)).
  - rewrite rne_Z. symmetry. exact H.
  - rewrite H. apply Qdiv_mult_l. exact Hp.
Qed.

Lemma b64_unfold (x : Q) :
  (0 < x)%Q -> b64 x = (inject_Z (rne (x / pow2 (ulp_exp x))) * pow2 (ulp_exp x))%Q.
Proof.
  intros H. unfold b64.
  destruct (Qeq_bool x 0) eqn:E; [|reflexivity].
  apply Qeq_bool_eq in E. rewrite E in H. discriminate H.
Qed.

Lemma b64_0 (x : Q) : (x == 0)%Q -> b64 x = 0%Q.
Proof. intros H. unfold b64. apply Qeq_eq_bool in H. rewrite H. reflexivity. Qed.

Lemma b64_nonneg (x : Q) : (0 <= x)%Q -> (0 <= b64 x)%Q.
Proof.
  intros H. destruct (Qlt_le_dec 0 x) as [P|P].
  - rewrite b64_unfold by exact P.
    apply Qmult_le_0_compat; [|apply Qlt_le_weak, pow2_pos].
    change 0%Q with (inject_Z 0). rewrite <- Zle_Qle.
    rewrite <- (rne_Z 0). apply rne_mono.
    apply Qle_shift_div_l; [apply pow2_pos|]. rewrite Qmult_0_l. exact H.
  - rewrite b64_0; [apply Qle_refl | apply Qle_antisym; assumption].
Qed.

Lemma ulp_exp_pos (x : Q) :
  (0 < x)%Q -> ulp_exp x = Z.max (ilog2 x - 52) (-1074).
Proof.
  intros H. unfold ulp_exp. f_equal. f_equal.
  assert (Ha : (Qabs x == x)%Q) by (apply Qabs_pos, Qlt_le_weak, H).
  apply ilog2_eq; [rewrite Ha; exact H | exact Ha].
Qed.

Lemma ulp_exp_mono (x y : Q) : (0 < x)%Q -> (x <= y)%Q -> (ulp_exp x <= ulp_exp y)%Z.
Proof.
  intros Hx Hxy.
  assert (Hy : (0 < y)%Q) by (eapply Qlt_le_trans; eauto).
  rewrite !ulp_exp_pos by assumption.
  pose proof (ilog2_mono Hx Hxy). lia.
Qed.

(** Rounding never changes the order of two numbers. *)
Lemma b64_mono (x y : Q) : (0 <= x)%Q -> (x <= y)%Q -> (b64 x <= b64 y)%Q.
Proof.
  intros H0 Hxy.
  destruct (Qlt_le_dec 0 x) as [Hx|Hx].
  2:{ rewrite (@b64_0 x) by (apply Qle_antisym; assumption).
      apply b64_nonneg. eapply Qle_trans; eauto. }
  assert (Hy : (0 < y)%Q) by (eapply Qlt_le_trans; eauto).
  pose proof (ulp_exp_mono Hx Hxy) as Hk.
  rewrite (b64_unfold Hx), (b64_unfold Hy).
  destruct (Z.eq_dec (ulp_exp x) (ulp_exp y)) as [E|E].
  - rewrite E. apply grid_mono. exact Hxy.
  - set (kx := ulp_exp x) in *. set (ky := ulp_exp y) in *.
    assert (Hlt : (kx < ky)%Z) by lia.
    pose proof (ulp_exp_pos Hx) as Ex. pose proof (ulp_exp_pos Hy) as Ey.
    fold kx in Ex. fold ky in Ey.
    destruct (ilog2_spec Hx) as [_ Bx]. destruct (ilog2_spec Hy) as [Ay _].
    assert (Hym : (pow2 (ky + 52) <= y)%Q).
    { eapply Qle_trans; [|exact Ay]. apply pow2_le. lia. }
    assert (Hxm : (x <= pow2 (ky + 52))%Q).
    { apply Qlt_le_weak. eapply Qlt_le_trans; [exact Bx|]. apply pow2_le. lia. }
    apply Qle_trans with (pow2 (ky + 52)).
    + eapply Qle_trans; [apply (grid_mono kx Hxm)|].
      rewrite (@grid_fix kx (2 ^ (ky + 52 - kx)) (pow2 (ky + 52))); [apply Qle_refl|].
      rewrite <- pow2_Z by lia. rewrite <- pow2_plus.
      replace (ky + 52 - kx + kx)%Z with (ky + 52)%Z by ring. reflexivity.
    + eapply Qle_trans; [|apply (grid_mono ky Hym)].
      rewrite (@grid_fix ky (2 ^ 52) (pow2 (ky + 52))); [apply Qle_refl|].
      rewrite <- pow2_Z by lia. rewrite <- pow2_plus.
      replace (52 + ky)%Z with (ky + 52)%Z by ring. reflexivity.
Qed.

(** The integers up to [2^53] are binary64 numbers. *)
Lemma b64_Z (n : Z) : (0 <= n <= 2 ^ 53)%Z -> (b64 (inject_Z n) == inject_Z n)%Q.
Proof.
  intros [H0 H1].
  destruct (Z.eq_dec n 0) as [->|Hn]; [reflexivity|].
  assert (Hpos : (0 < n)%Z) by lia.
  assert (Hq : (0 < inject_Z n)%Q) by (change 0%Q with (inject_Z 0); rewrite <- Zlt_Qlt; lia).
  destruct (Z.log2_spec n Hpos) as [L1 L2].
  assert (Hl : ilog2 (inject_Z n) = Z.log2 n).
  { apply ilog2_unique.
    - rewrite pow2_Z by apply Z.log2_nonneg. rewrite <- Zle_Qle. exact L1.
    - rewrite pow2_Z by (pose proof (Z.log2_nonneg n); lia). rewrite <- Zlt_Qlt.
      replace (Z.log2 n + 1)%Z with (Z.succ (Z.log2 n)) by lia. exact L2. }
  assert (Hl53 : (Z.log2 n <= 53)%Z).
  { rewrite <- (Z.log2_pow2 53) by lia. apply Z.log2_le_mono. exact H1. }
  pose proof (Z.log2_nonneg n) as Hl0.
  rewrite (b64_unfold Hq). rewrite (ulp_exp_pos Hq), Hl.
  replace (Z.max (Z.log2 n - 52) (-1074)) with (Z.log2 n - 52)%Z by lia.
  destruct (Z_le_gt_dec (Z.log2 n) 52) as [Hs|Hs].
  - apply (@grid_fix _ (n * 2 ^ (52 - Z.log2 n))).
    rewrite inject_Z_mult, <- pow2_Z by lia.
    rewrite <- Qmult_assoc, <- pow2_plus.
    replace (52 - Z.log2 n + (Z.log2 n - 52))%Z with 0%Z by ring.
    change (pow2 0) with 1%Q. ring.
  - assert (E53 : Z.log2 n = 53%Z) by lia. rewrite E53 in *.
    assert (En : n = (2 ^ 53)%Z) by lia. subst n.
    apply (@grid_fix _ (2 ^ 52)). reflexivity.
Qed.

(** *** The bar in binary64 *)

(** At the thirty-one slot boundaries the two roundings cancel. *)
Lemma slot_boundaries (n : Z) :
  (0 <= n <= 30)%Z -> (b64 (b64 (inject_Z n / 30) * 30) == inject_Z n)%Q.
Proof.
  intros Hn.
  assert (Hall : forallb (fun k => Qeq_bool (b64 (b64 (inject_Z (Z.of_nat k) / 30) * 30))
                                            (inject_Z (Z.of_nat k)))
                         (seq 0 31) = true) by (vm_compute; reflexivity).
  rewrite forallb_forall in Hall.
  specialize (Hall (Z.to_nat n)). rewrite Z2Nat.id in Hall by lia.
  apply Qeq_bool_eq. apply Hall. apply in_seq. lia.
Qed.

Lemma scaled_mono (total e1 e2 : Q) :
  (0 < total)%Q -> (0 <= e1)%Q -> (e1 <= e2)%Q ->
  (b64 (b64 (e1 / total) * 30) <= b64 (b64 (e2 / total) * 30))%Q.
Proof.
  intros Ht H0 H12.
  assert (Hi : (0 <= / total)%Q) by (apply Qlt_le_weak, Qinv_lt_0_compat, Ht).
  assert (Hq : (0 <= e1 / total)%Q) by (apply Qmult_le_0_compat; assumption).
  apply b64_mono.
  - apply Qmult_le_0_compat; [apply b64_nonneg; exact Hq | discriminate].
  - apply Qmult_le_compat_r; [|discriminate].
    apply b64_mono; [exact Hq|]. apply Qmult_le_compat_r; assumption.
Qed.

Lemma filled64_floor (total elapsed : Q) :
  (0 < total)%Q -> (0 <= elapsed)%Q -> (elapsed <= total)%Q ->
  (spec_filled total elapsed <= filled64 total elapsed <= spec_filled total elapsed + 1)%Z /\
  (0 <= filled64 total elapsed <= 30)%Z.
Proof.
  intros Ht H0 H1.
  destruct (spec_filled_range Ht H0 H1) as [R0 R30].
  unfold filled64, percent64, bar_len. change (inject_Z 30) with 30%Q.
  set (n := spec_filled total elapsed) in *.
  pose proof (Qfloor_le (30 * elapsed / total)) as Hlo.
  pose proof (Qlt_floor (30 * elapsed / total)) as Hhi.
  fold (spec_filled total elapsed) in Hlo, Hhi. fold n in Hlo, Hhi.
  assert (Ht0 : ~ (total == 0)%Q) by (intros C; rewrite C in Ht; discriminate Ht).
  assert (Hratio : (elapsed / total == (30 * elapsed / total) / 30)%Q) by (field; exact Ht0).
  assert (Hq0 : (0 <= elapsed / total)%Q).
  { apply Qle_shift_div_l; [exact Ht|]. rewrite Qmult_0_l. exact H0. }
  set (F := b64 (b64 (elapsed / total) * 30)).
  assert (HF0 : (0 <= F)%Q).
  { apply b64_nonneg. apply Qmult_le_0_compat; [apply b64_nonneg; exact Hq0 | discriminate]. }
  assert (Lower : (inject_Z n <= F)%Q).
  { rewrite <- (slot_boundaries (conj R0 R30)). unfold F.
    assert (Hn0 : (0 <= inject_Z n / 30)%Q).
    { apply Qle_shift_div_l; [reflexivity|]. rewrite Qmult_0_l.
      change 0%Q with (inject_Z 0). rewrite <- Zle_Qle. exact R0. }
    apply b64_mono.
    - apply Qmult_le_0_compat; [apply b64_nonneg; exact Hn0 | discriminate].
    - apply Qmult_le_compat_r; [|discriminate].
      apply b64_mono; [exact Hn0|]. rewrite Hratio.
      apply Qmult_le_compat_r; [exact Hlo | discriminate]. }
  assert (Upper : forall m, (0 <= m <= 30)%Z -> (30 * elapsed / total <= inject_Z m)%Q ->
                            (F <= inject_Z m)%Q).
  { intros m Hm Hle. rewrite <- (slot_boundaries Hm). unfold F.
    apply b64_mono.
    - apply Qmult_le_0_compat; [apply b64_nonneg; exact Hq0 | discriminate].
    - apply Qmult_le_compat_r; [|discriminate].
      apply b64_mono; [exact Hq0|]. rewrite Hratio.
      apply Qmult_le_compat_r; [exact Hle | discriminate]. }
  rewrite (int_of_float_nonneg HF0).
  assert (Hge : (n <= Qfloor F)%Z).
  { rewrite <- (Qfloor_Z n). apply Qfloor_resp_le. exact Lower. }
  assert (H30 : (Qfloor F <= 30)%Z).
  { rewrite <- (Qfloor_Z 30). apply Qfloor_resp_le. apply Upper; [lia|].
    apply Qle_shift_div_r; [exact Ht|].
    change (inject_Z 30) with 30%Q. apply Qmult_le_l; [reflexivity | exact H1]. }
  assert (Hle1 : (Qfloor F <= n + 1)%Z).
  { destruct (Z.eq_dec n 30) as [E|E]; [lia|].
    rewrite <- (Qfloor_Z (n + 1)). apply Qfloor_resp_le. apply Upper; [lia|].
    apply Qlt_le_weak. exact Hhi. }
  lia.
Qed.

(** *** The countdown in binary64 *)

Lemma trunc_rem60 (x : Q) :
  (0 <= x)%Q ->
  int_of_float (x - 60 * inject_Z (Qfloor x / 60)) = (Qfloor x mod 60)%Z.
Proof.
  intros Hx.
  pose proof (Qfloor_le x) as Hle.
  pose proof (Qlt_floor x) as Hlt.
  set (r := Qfloor x) in *.
  pose proof (Z.div_mod r 60 ltac:(lia)) as Hdm.
  pose proof (Z.mod_pos_bound r 60 ltac:(lia)) as Hb.
  set (q := (r / 60)%Z) in *.
  assert (Hq : (inject_Z r == 60 * inject_Z q + inject_Z (r mod 60))%Q).
  { rewrite Hdm at 1. rewrite inject_Z_plus, inject_Z_mult. reflexivity. }
  assert (H0 : (0 <= inject_Z (r mod 60))%Q).
  { change 0%Q with (inject_Z 0); rewrite <- Zle_Qle; lia. }
  rewrite inject_Z_plus in Hlt. change (inject_Z 1) with 1%Q in Hlt.
  assert (Hlo : (inject_Z (r mod 60) <= x - 60 * inject_Z q)%Q) by lra.
  rewrite int_of_float_nonneg by lra.
  apply Qfloor_unique; [exact Hlo|].
  rewrite inject_Z_plus. change (inject_Z 1) with 1%Q. lra.
Qed.

(** Below [2^53] the floor division and the remainder by 60 are exact. *)
Lemma float_divmod_60 (r : Q) :
  (0 <= r)%Q -> (r <= inject_Z (2 ^ 53))%Q ->
  (fst (float_divmod r 60) == inject_Z (Qfloor r / 60))%Q /\
  (snd (float_divmod r 60) == r - 60 * inject_Z (Qfloor r / 60))%Q.
Proof.
  intros H0 H53.
  assert (Hr60 : (0 <= r / 60)%Q).
  { apply Qle_shift_div_l; [reflexivity|]. rewrite Qmult_0_l. exact H0. }
  assert (Hk : int_of_float (r / 60) = (Qfloor r / 60)%Z).
  { rewrite int_of_float_nonneg by exact Hr60. apply Qfloor_div60. }
  pose proof (Qfloor_le r) as Hle.
  assert (Hf0 : (0 <= Qfloor r)%Z).
  { rewrite <- (Qfloor_Z 0). apply Qfloor_resp_le. exact H0. }
  pose proof (Z.div_mod (Qfloor r) 60 ltac:(lia)) as Hdm.
  pose proof (Z.mod_pos_bound (Qfloor r) 60 ltac:(lia)) as Hb.
  assert (Hk0 : (0 <= Qfloor r / 60)%Z) by (apply Z.div_pos; lia).
  set (k := (Qfloor r / 60)%Z) in *.
  assert (Hf53 : (Qfloor r <= 2 ^ 53)%Z).
  { rewrite <- (Qfloor_Z (2 ^ 53)). apply Qfloor_resp_le. exact H53. }
  assert (H60k : (inject_Z (60 * k) <= r)%Q).
  { eapply Qle_trans; [|exact Hle]. rewrite <- Zle_Qle. lia. }
  unfold float_divmod, fmod. rewrite Hk.
  set (m := (r - 60 * inject_Z k)%Q).
  assert (Hm0 : (0 <= m)%Q).
  { unfold m. rewrite inject_Z_mult in H60k. change (inject_Z 60) with 60%Q in H60k. lra. }
  assert (Hd : (b64 (b64 (r - m) / 60) == inject_Z k)%Q).
  { assert (E1 : (r - m == inject_Z (60 * k))%Q).
    { unfold m. rewrite inject_Z_mult. change (inject_Z 60) with 60%Q. ring. }
    rewrite E1. rewrite b64_Z by lia.
    assert (E2 : (inject_Z (60 * k) / 60 == inject_Z k)%Q).
    { rewrite inject_Z_mult. change (inject_Z 60) with 60%Q. field. }
    rewrite E2. apply b64_Z. lia. }
  set (d := b64 (b64 (r - m) / 60)) in *.
  assert (Hsame : (if Qeq_bool m 0 then (d, m)
                   else if Bool.eqb (negb (Qle_bool 0 60)) (negb (Qle_bool 0 m)) then (d, m)
                        else (b64 (d - 1), b64 (m + 60))) = (d, m)).
  { destruct (Qeq_bool m 0); [reflexivity|].
    assert (Em : Qle_bool 0 m = true) by (apply Qle_bool_iff; exact Hm0).
    rewrite Em. reflexivity. }
  rewrite Hsame. cbn [fst snd]. split; [|reflexivity].
  destruct (Qeq_bool d 0) eqn:Ed.
  - apply Qeq_bool_eq in Ed. rewrite <- Hd. symmetry. exact Ed.
  - assert (Ef : Qfloor d = k) by (rewrite Hd; apply Qfloor_Z).
    rewrite Ef.
    assert (Ez : (b64 (d - inject_Z k) == 0)%Q).
    { rewrite b64_0; [reflexivity|]. rewrite Hd. ring. }
    assert (Eh : Qle_bool (b64 (d - inject_Z k)) (1 # 2) = true).
    { apply Qle_bool_iff. rewrite Ez. discriminate. }
    rewrite Eh. reflexivity.
Qed.

Lemma int_of_float_eq (x : Q) (z : Z) : (x == inject_Z z)%Q -> int_of_float x = z.
Proof.
  intros H. destruct (Z_le_gt_dec 0 z) as [P|P].
  - rewrite int_of_float_nonneg.
    + rewrite H. apply Qfloor_Z.
    + rewrite H. change 0%Q with (inject_Z 0). rewrite <- Zle_Qle. exact P.
  - destruct x as [a b]. unfold Qeq in H. simpl in H. unfold int_of_float. simpl.
    rewrite Z.mul_1_r in H. subst a. apply Z.quot_mul. lia.
Qed.

Lemma countdown64_floor (total elapsed : Q) :
  (0 <= elapsed)%Q -> (elapsed <= total)%Q -> (total <= inject_Z (2 ^ 53))%Q ->
  let r := int_of_float (remaining64 total elapsed) in
  (int_of_float (total - elapsed) <= r <= int_of_float (total - elapsed) + 1)%Z /\
  (0 <= r)%Z /\
  mins64 total elapsed = (r / 60)%Z /\
  secs64 total elapsed = (r mod 60)%Z.
Proof.
  intros H0 H1 H53 r.
  assert (Hx : (0 <= total - elapsed)%Q) by lra.
  assert (Hr0 : (0 <= remaining64 total elapsed)%Q) by (apply b64_nonneg; exact Hx).
  assert (Ht0 : (0 <= total)%Q) by lra.
  assert (Hr53 : (remaining64 total elapsed <= inject_Z (2 ^ 53))%Q).
  { rewrite <- (@b64_Z (2 ^ 53)) by lia. unfold remaining64.
    apply b64_mono; [exact Hx | lra]. }
  destruct (float_divmod_60 Hr0 Hr53) as [Ef Es].
  assert (Er : r = Qfloor (remaining64 total elapsed)) by (apply int_of_float_nonneg; exact Hr0).
  rewrite (int_of_float_nonneg Hx).
  pose proof (Qfloor_le (total - elapsed)) as Fle.
  pose proof (Qlt_floor (total - elapsed)) as Flt.
  set (x := Qfloor (total - elapsed)) in *.
  assert (Hx0 : (0 <= x)%Z).
  { unfold x. rewrite <- (Qfloor_Z 0). apply Qfloor_resp_le. exact Hx. }
  assert (Hx53 : (x <= 2 ^ 53)%Z).
  { unfold x. rewrite <- (Qfloor_Z (2 ^ 53)). apply Qfloor_resp_le. lra. }
  assert (Lo : (inject_Z x <= remaining64 total elapsed)%Q).
  { rewrite <- (@b64_Z x) by lia. unfold remaining64.
    apply b64_mono; [|exact Fle].
    change 0%Q with (inject_Z 0). rewrite <- Zle_Qle. exact Hx0. }
  assert (Hi : (remaining64 total elapsed <= inject_Z (x + 1))%Q).
  { destruct (Z.eq_dec x (2 ^ 53)) as [E|E].
    - eapply Qle_trans; [exact Hr53|]. rewrite <- Zle_Qle. lia.
    - rewrite <- (@b64_Z (x + 1)) by lia. unfold remaining64.
      apply b64_mono; [exact Hx|]. apply Qlt_le_weak. exact Flt. }
  assert (G1 : (x <= r)%Z).
  { rewrite Er. rewrite <- (Qfloor_Z x). apply Qfloor_resp_le. exact Lo. }
  assert (G2 : (r <= x + 1)%Z).
  { rewrite Er. rewrite <- (Qfloor_Z (x + 1)). apply Qfloor_resp_le. exact Hi. }
  split; [lia|]. split; [lia|]. split.
  - unfold mins64. rewrite (int_of_float_eq Ef). rewrite Er. reflexivity.
  - unfold secs64.
    assert (E : int_of_float (snd (float_divmod (remaining64 total elapsed) 60))
                = int_of_float (remaining64 total elapsed
                                - 60 * inject_Z (Qfloor (remaining64 total elapsed) / 60))).
    { set (a := snd (float_divmod (remaining64 total elapsed) 60)) in *.
      set (b := (remaining64 total elapsed
                 - 60 * inject_Z (Qfloor (remaining64 total elapsed) / 60))%Q) in *.
      assert (Hb0 : (0 <= b)%Q).
      { unfold b. pose proof (Qfloor_le (remaining64 total elapsed)) as L.
        pose proof (Z.div_mod (Qfloor (remaining64 total elapsed)) 60 ltac:(lia)) as Dm.
        pose proof (Z.mod_pos_bound (Qfloor (remaining64 total elapsed)) 60 ltac:(lia)) as Mb.
        assert (L2 : (inject_Z (60 * (Qfloor (remaining64 total elapsed) / 60))
                      <= inject_Z (Qfloor (remaining64 total elapsed)))%Q).
        { rewrite <- Zle_Qle. lia. }
        rewrite inject_Z_mult in L2. change (inject_Z 60) with 60%Q in L2. lra. }
      rewrite !int_of_float_nonneg; [rewrite Es; reflexivity | exact Hb0 | rewrite Es; exact Hb0]. }
    rewrite E. rewrite trunc_rem60 by exact Hr0. rewrite Er. reflexivity.
Qed.

(** *** The text of the countdown *)

Lemma fmt02d_two_digits (n : Z) : (0 <= n < 100)%Z -> fmt02d n = two_digits n.
Proof.
  intros Hn.
  assert (Hall : forallb (fun k => String.eqb (fmt02d (Z.of_nat k)) (two_digits (Z.of_nat k)))
                         (seq 0 100) = true) by (vm_compute; reflexivity).
  rewrite forallb_forall in Hall.
  specialize (Hall (Z.to_nat n)). rewrite Z2Nat.id in Hall by lia.
  apply String.eqb_eq. apply Hall. apply in_seq. lia.
Qed.

Lemma in_all_ascii (a : ascii) : In a (map ascii_of_nat (seq 0 256)).
Proof.
  rewrite <- (ascii_nat_embedding a) at 1.
  apply in_map. apply in_seq. pose proof (nat_ascii_bounded a). lia.
Qed.

(** A decimal of one or two characters is below 100. *)
Lemma short_decimal (s : string) (v : Z) :
  (String.length s <= 2)%nat -> dec_int s = Some v -> (v < 100)%Z.
Proof.
  pose (check := fun s => match dec_int s with Some v => (v <? 100)%Z | None => true end).
  assert (H1 : forallb (fun a => check (String a EmptyString))
                       (map ascii_of_nat (seq 0 256)) = true)
    by (vm_compute; reflexivity).
  assert (H2 : forallb (fun a => forallb (fun b => check (String a (String b EmptyString)))
                                         (map ascii_of_nat (seq 0 256)))
                       (map ascii_of_nat (seq 0 256)) = true)
    by (vm_compute; reflexivity).
  rewrite forallb_forall in H1, H2.
  intros Hlen Hv.
  assert (Hc : check s = true).
  { destruct s as [|a [|b [|c s]]].
    - reflexivity.
    - apply H1. apply in_all_ascii.
    - specialize (H2 a (in_all_ascii a)). rewrite forallb_forall in H2.
      apply H2. apply in_all_ascii.
    - simpl in Hlen. lia. }
  unfold check in Hc. rewrite Hv in Hc. apply Z.ltb_lt. exact Hc.
Qed.

Lemma dec_int_str_Z (z : Z) : (0 < z)%Z -> dec_int (str_Z z) = Some z.
Proof.
  intros Hz. unfold dec_int, str_Z.
  rewrite NilZero.isi.
  - simpl. rewrite DecimalZ.of_to. reflexivity.
  - destruct z as [|p|p]; try lia. simpl. intros C. injection C as C.
    exact (DecimalPos.Unsigned.to_uint_nonnil p C).
  - destruct z as [|p|p]; try lia. simpl. discriminate.
Qed.

Lemma str_Z_long (z : Z) : (100 <= z)%Z -> (3 <= String.length (str_Z z))%nat.
Proof.
  intros Hz.
  destruct (le_lt_dec (String.length (str_Z z)) 2) as [L|L]; [|lia].
  assert (Hp : (0 < z)%Z) by lia.
  pose proof (short_decimal _ L (dec_int_str_Z Hp)). lia.
Qed.

Lemma fmt02d_long (z : Z) : (100 <= z)%Z -> fmt02d z = str_Z z.
Proof.
  intros Hz. unfold fmt02d.
  assert (E : (z <? 0)%Z = false) by (apply Z.ltb_ge; lia).
  rewrite E. cbv zeta.
  pose proof (str_Z_long Hz) as L.
  replace (2 - String.length (str_Z z))%nat with 0%nat by lia. reflexivity.
Qed.

(** ** The bar as a string *)

Lemma count_char_app (c : ascii) (a b : string) :
  count_char c (a ++ b) = (count_char c a + count_char c b)%nat.
Proof.
  induction a as [|x a IH]; simpl; [reflexivity|]. rewrite IH. lia.
Qed.

Lemma str_length_app (a b : string) :
  String.length (a ++ b) = (String.length a + String.length b)%nat.
Proof.
  induction a as [|x a IH]; simpl; [reflexivity|]. rewrite IH. reflexivity.
Qed.

Lemma str_mul_length (c : ascii) (n : nat) :
  String.length (str_mul (String c EmptyString) n) = n.
Proof. induction n as [|n IH]; simpl; [reflexivity|]. rewrite IH. reflexivity. Qed.

Lemma str_mul_count (c d : ascii) (n : nat) :
  count_char c (str_mul (String d EmptyString) n) = if Ascii.eqb d c then n else O.
Proof.
  induction n as [|n IH]; simpl.
  - destruct (Ascii.eqb d c); reflexivity.
  - rewrite IH. destruct (Ascii.eqb d c); reflexivity.
Qed.

Lemma bar_slots (f : Z) : (0 <= f <= 30)%Z -> thirty_slots f.
Proof.
  intros Hf. unfold thirty_slots, bar, str_times, bar_len.
  assert (Hsum : (Z.to_nat f + Z.to_nat (30 - f) = 30)%nat) by lia.
  split; [exact Hf|].
  generalize dependent (Z.to_nat (30 - f)). generalize (Z.to_nat f).
  intros n m Hsum.
  rewrite !str_length_app, !count_char_app, !str_mul_length, !str_mul_count.
  simpl. repeat split; lia.
Qed.

Lemma fmt02d_length (z : Z) : (0 <= z < 100)%Z -> String.length (fmt02d z) = 2%nat.
Proof.
  intros Hz.
  assert (Hall : forallb (fun n => Nat.eqb (String.length (fmt02d (Z.of_nat n))) 2)
                         (seq 0 100) = true) by (vm_compute; reflexivity).
  rewrite forallb_forall in Hall.
  specialize (Hall (Z.to_nat z)).
  rewrite Z2Nat.id in Hall by lia.
  apply Nat.eqb_eq. apply Hall. apply in_seq. lia.
Qed.

(** ** C5 and C6: the progress renderer *)

(** C5, as amended: for elapsed values in [0, total] and total > 0 the
    rendered bar has thirty slots; the number of filled slots,
    int(elapsed / total * 30) as computed in binary64, is
    floor(30 * elapsed / total) or one more (when the two roundings carry the
    product up to the next whole number), is at most 30, and does not
    decrease when elapsed grows. *)
Theorem render_filled_slots (total e1 e2 : Q) (prefix : string) :
  (0 < total)%Q -> (0 <= e1)%Q -> (e1 <= e2)%Q -> (e2 <= total)%Q ->
  exists f1 m1 s1 f2 m2 s2,
    render64 total e1 prefix = Ret (BarLine prefix f1 m1 s1) /\
    render64 total e2 prefix = Ret (BarLine prefix f2 m2 s2) /\
    (spec_filled total e1 <= f1 <= spec_filled total e1 + 1)%Z /\
    (spec_filled total e2 <= f2 <= spec_filled total e2 + 1)%Z /\
    thirty_slots f1 /\ thirty_slots f2 /\
    (f1 <= f2)%Z.
Proof.
  intros Ht H1 H12 H2.
  assert (H1t : (e1 <= total)%Q) by (eapply Qle_trans; eauto).
  assert (H02 : (0 <= e2)%Q) by (eapply Qle_trans; eauto).
  assert (Hnz : Qeq_bool total 0 = false).
  { destruct (Qeq_bool total 0) eqn:E; [|reflexivity].
    apply Qeq_bool_eq in E. rewrite E in Ht. discriminate. }
  unfold render64. rewrite Hnz.
  destruct (filled64_floor Ht H1 H1t) as [F1 B1].
  destruct (filled64_floor Ht H02 H2) as [F2 B2].
  do 6 eexists. split; [reflexivity|]. split; [reflexivity|].
  split; [exact F1|]. split; [exact F2|].
  split; [apply bar_slots; exact B1|].
  split; [apply bar_slots; exact B2|].
  unfold filled64, percent64, bar_len. change (inject_Z 30) with 30%Q.
  assert (M : (b64 (b64 (e1 / total) * 30) <= b64 (b64 (e2 / total) * 30))%Q).
  { apply scaled_mono; assumption. }
  assert (N1 : (0 <= b64 (b64 (e1 / total) * 30))%Q).
  { apply b64_nonneg. apply Qmult_le_0_compat; [|discriminate].
    apply b64_nonneg. apply Qle_shift_div_l; [exact Ht|]. rewrite Qmult_0_l. exact H1. }
  rewrite !int_of_float_nonneg; [apply Qfloor_resp_le; exact M | | exact N1].
  eapply Qle_trans; eauto.
Qed.

Lemma render_filled_slots_witness :
  exists f1 m1 s1 f2 m2 s2,
    render64 10 3 "Timer:" = Ret (BarLine "Timer:" f1 m1 s1) /\
    render64 10 (19 # 2) "Timer:" = Ret (BarLine "Timer:" f2 m2 s2) /\
    (spec_filled 10 3 <= f1 <= spec_filled 10 3 + 1)%Z /\
    (spec_filled 10 (19 # 2) <= f2 <= spec_filled 10 (19 # 2) + 1)%Z /\
    thirty_slots f1 /\ thirty_slots f2 /\
    (f1 <= f2)%Z.
Proof.
  apply (@render_filled_slots 10 3 (19 # 2) "Timer:"); vm_compute; congruence.
Defined.

(** C5 as stated fails: for a total of one second and elapsed the float 0.3
    (which lies below 3/10) the code fills nine slots, while
    floor(30 * elapsed / total) is eight. *)
Lemma filled_count_not_floor :
  let total := 1%Q in
  let elapsed := (5404319552844595 # 18014398509481984)%Q in
  (0 < total)%Q /\ (0 <= elapsed)%Q /\ (elapsed <= total)%Q /\
  (b64 elapsed == elapsed)%Q /\
  render64 total elapsed "Timer:" = Ret (BarLine "Timer:" 9 0 0) /\
  spec_filled total elapsed = 8%Z.
Proof.
  vm_compute. repeat split; congruence.
Qed.

(** C6, as amended: for 0 <= elapsed <= total, up to 2^53 seconds, the
    countdown shows the float difference total - elapsed truncated toward
    zero to whole seconds; that is the truncation of the exact remaining
    seconds or one second more (when the subtraction rounds up to a whole
    second).  It is shown as minutes and seconds, never below 00:00: two
    digits each below one hundred minutes; from one hundred minutes on the
    minutes take three digits or more, the seconds still two. *)
Theorem countdown_truncates (total elapsed : Q) :
  (0 <= elapsed)%Q -> (elapsed <= total)%Q -> (total <= inject_Z (2 ^ 53))%Q ->
  let r := int_of_float (remaining64 total elapsed) in
  (int_of_float (total - elapsed) <= r <= int_of_float (total - elapsed) + 1)%Z /\
  (0 <= r)%Z /\
  mins64 total elapsed = (r / 60)%Z /\
  secs64 total elapsed = (r mod 60)%Z /\
  ((r < 6000)%Z ->
   countdown (r / 60) (r mod 60)
   = (two_digits (r / 60) ++ ":" ++ two_digits (r mod 60))%string) /\
  ((6000 <= r)%Z ->
   countdown (r / 60) (r mod 60)
   = (str_Z (r / 60) ++ ":" ++ two_digits (r mod 60))%string /\
   dec_int (str_Z (r / 60)) = Some (r / 60)%Z /\
   (3 <= String.length (str_Z (r / 60)))%nat) /\
  forall prefix d, render64 total elapsed prefix = Ret d ->
    display_text d =
      (CR ++ prefix ++ " " ++ bar (filled64 total elapsed) ++ " "
          ++ countdown (r / 60) (r mod 60) ++ " remaining")%string.
Proof.
  intros H0 H1 H53 r.
  destruct (countdown64_floor H0 H1 H53) as (Hx & Hr0 & Hm & Hs).
  fold r in Hx, Hr0, Hm, Hs.
  pose proof (Z.mod_pos_bound r 60 ltac:(lia)) as Hb.
  assert (Hq : (0 <= r / 60)%Z) by (apply Z.div_pos; lia).
  split; [exact Hx|]. split; [exact Hr0|]. split; [exact Hm|]. split; [exact Hs|].
  split; [|split].
  - intros Hlt. unfold countdown.
    rewrite !fmt02d_two_digits; [reflexivity | lia |].
    split; [exact Hq|]. apply Z.div_lt_upper_bound; lia.
  - intros Hge.
    assert (H100 : (100 <= r / 60)%Z) by (apply Z.div_le_lower_bound; lia).
    split; [|split].
    + unfold countdown. rewrite fmt02d_long by exact H100.
      rewrite fmt02d_two_digits by lia. reflexivity.
    + apply dec_int_str_Z. lia.
    + apply str_Z_long. exact H100.
  - intros prefix d Hd. unfold render64 in Hd.
    destruct (Qeq_bool total 0); [discriminate|].
    injection Hd as <-. cbn [display_text]. rewrite Hm, Hs. reflexivity.
Qed.

Lemma countdown_truncates_witness :
  let r := int_of_float (remaining64 90 (1 # 2)) in
  (int_of_float (90 - (1 # 2)) <= r <= int_of_float (90 - (1 # 2)) + 1)%Z /\
  (0 <= r)%Z /\
  mins64 90 (1 # 2) = (r / 60)%Z /\
  secs64 90 (1 # 2) = (r mod 60)%Z /\
  ((r < 6000)%Z ->
   countdown (r / 60) (r mod 60)
   = (two_digits (r / 60) ++ ":" ++ two_digits (r mod 60))%string) /\
  ((6000 <= r)%Z ->
   countdown (r / 60) (r mod 60)
   = (str_Z (r / 60) ++ ":" ++ two_digits (r mod 60))%string /\
   dec_int (str_Z (r / 60)) = Some (r / 60)%Z /\
   (3 <= String.length (str_Z (r / 60)))%nat) /\
  forall prefix d, render64 90 (1 # 2) prefix = Ret d ->
    display_text d =
      (CR ++ prefix ++ " " ++ bar (filled64 90 (1 # 2)) ++ " "
          ++ countdown (r / 60) (r mod 60) ++ " remaining")%string.
Proof.
  apply (@countdown_truncates 90 (1 # 2)); vm_compute; congruence.
Defined.

(** C6 as stated fails: with total the float 1.2 and elapsed the float 0.2
    the exact remaining time is just below one second and truncates to
    00:00, but the float subtraction gives 1.0 and the code shows 00:01;
    and two hours remaining are shown as 120:00, which is not MM:SS. *)
Lemma countdown_rounds_up :
  let total := (5404319552844595 # 4503599627370496)%Q in
  let elapsed := (3602879701896397 # 18014398509481984)%Q in
  (0 <= elapsed)%Q /\ (elapsed <= total)%Q /\
  (b64 total == total)%Q /\ (b64 elapsed == elapsed)%Q /\
  (total - elapsed < 1)%Q /\
  countdown (mins64 total elapsed) (secs64 total elapsed) = "00:01"%string /\
  spec_countdown total elapsed = "00:00"%string /\
  countdown (mins64 7200 0) (secs64 7200 0) = "120:00"%string.
Proof.
  vm_compute. repeat split; congruence.
Qed.

(** ** C3 and C4: advancing the cue cursor *)

Lemma due_loop_spec (rest : list cue) (e : Q) (i : nat) :
  forall ts j, due_loop rest e i = (ts, j) ->
    (i <= j <= i + List.length rest)%nat /\
    ts = map snd (firstn (j - i) rest) /\
    Forall (fun c => (fst c <= e)%Q) (firstn (j - i) rest) /\
    (forall c, nth_error rest (j - i) = Some c -> (e < fst c)%Q).
Proof.
  revert i. induction rest as [|[offset text] rest IH]; intros i ts j H; simpl in H.
  - injection H as <- <-. rewrite Nat.sub_diag. simpl.
    repeat split; try lia; [constructor | discriminate].
  - destruct (Qle_bool offset e) eqn:E.
    + destruct (due_loop rest e (S i)) as [ts' j'] eqn:D.
      injection H as <- <-.
      destruct (IH _ _ _ D) as (Hj & Hts & Hall & Hstop).
      replace (j' - i)%nat with (S (j' - S i)) by lia. simpl.
      repeat split; try lia.
      * rewrite Hts. reflexivity.
      * constructor; [apply Qle_bool_iff; exact E | exact Hall].
      * exact Hstop.
    + injection H as <- <-. rewrite Nat.sub_diag. simpl.
      repeat split; try lia; [constructor|].
      intros c Hc. injection Hc as <-. simpl.
      apply Qnot_le_lt. intro Hle. apply Qle_bool_iff in Hle. congruence.
Qed.

Lemma next_due_spec (script : list cue) (i : nat) (e : Q) :
  (i <= List.length script)%nat ->
  forall ts j, next_due script i e = (ts, j) ->
    (i <= j <= List.length script)%nat /\
    ts = map snd (slice i j script) /\
    Forall (fun c => (fst c <= e)%Q) (slice i j script) /\
    (forall c, nth_error script j = Some c -> (e < fst c)%Q).
Proof.
  intros Hi ts j H. unfold next_due in H.
  destruct (due_loop_spec _ _ _ H) as (Hj & Hts & Hall & Hstop).
  rewrite length_skipn in Hj.
  repeat split; try lia; try assumption.
  intros c Hc. apply Hstop. rewrite nth_error_skipn.
  replace (i + (j - i))%nat with j by lia. exact Hc.
Qed.

(** C4: a second call with the same elapsed value and the cursor returned
    by the first emits nothing and leaves the cursor where it is. *)
Theorem next_due_idempotent (script : list cue) (i : nat) (elapsed : Q) :
  let (ts, j) := next_due script i elapsed in
  next_due script j elapsed = ([], j).
Proof.
  destruct (next_due script i elapsed) as [ts j] eqn:H.
  unfold next_due in *.
  destruct (due_loop_spec _ _ _ H) as (Hj & _ & _ & Hstop).
  assert (Hskip : skipn j script = skipn (j - i) (skipn i script)).
  { rewrite skipn_skipn. f_equal. lia. }
  rewrite Hskip.
  destruct (skipn (j - i) (skipn i script)) as [|[offset text] rest'] eqn:S; [reflexivity|].
  simpl.
  assert (Hn : nth_error (skipn i script) (j - i) = Some (offset, text)).
  { rewrite <- (firstn_skipn (j - i) (skipn i script)) at 1.
    rewrite nth_error_app2 by (rewrite length_firstn; lia).
    rewrite length_firstn, S.
    assert (Hlen : (j - i <= List.length (skipn i script))%nat).
    { destruct (Nat.le_gt_cases (j - i) (List.length (skipn i script))) as [L|L]; [exact L|].
      rewrite skipn_all2 in S by lia. discriminate. }
    rewrite Nat.min_l by exact Hlen. rewrite Nat.sub_diag. reflexivity. }
  specialize (Hstop _ Hn). simpl in Hstop.
  destruct (Qle_bool offset elapsed) eqn:E; [|reflexivity].
  apply Qle_bool_iff in E. exfalso. eapply Qlt_not_le; eauto.
Qed.

Lemma firstn_slice {A} (i j : nat) (l : list A) :
  (i <= j)%nat -> firstn j l = (firstn i l ++ slice i j l)%list.
Proof.
  intros H. unfold slice.
  destruct (Nat.le_gt_cases i (List.length l)) as [L|L].
  - rewrite <- (firstn_skipn i l) at 1.
    rewrite firstn_app, length_firstn.
    rewrite Nat.min_l by exact L. rewrite firstn_firstn, Nat.min_r by lia. reflexivity.
  - rewrite (skipn_all2 l) by lia. rewrite firstn_nil, app_nil_r.
    rewrite !firstn_all2 by lia. reflexivity.
Qed.

Lemma final_cursor_cons (i : nat) (e : Q) (ts : list string) (j : nat) rest :
  final_cursor i ((e, ts, j) :: rest) = final_cursor j rest.
Proof.
  unfold final_cursor. simpl map.
  generalize (map snd rest). intros l. revert i j.
  induction l as [|a l IH]; intros i j; [reflexivity|].
  change (last (j :: a :: l) i) with (last (a :: l) i).
  rewrite (IH i a), (IH j a). reflexivity.
Qed.

Lemma run_cues_ok (script : list cue) (es : list Q) :
  forall i, (i <= List.length script)%nat ->
    let ticks := run_cues script i es in
    let k := final_cursor i ticks in
    ticks_ok script i ticks /\
    (i <= k <= List.length script)%nat /\
    (map snd (firstn i script) ++ emitted ticks)%list = map snd (firstn k script).
Proof.
  induction es as [|e es IH]; intros i Hi; simpl.
  - unfold final_cursor, emitted. simpl. rewrite app_nil_r. repeat split; lia.
  - destruct (next_due script i e) as [ts j] eqn:H.
    destruct (next_due_spec _ _ Hi H) as (Hj & Hts & Hall & _).
    destruct (IH j ltac:(lia)) as (Hok & Hk & Hem).
    rewrite final_cursor_cons. simpl.
    repeat split; try lia; try assumption.
    unfold emitted in *. simpl. rewrite <- Hem.
    rewrite (firstn_slice script (proj1 Hj)), map_app, Hts.
    rewrite <- app_assoc. reflexivity.
Qed.

Lemma nondecreasing_nth (l : list Q) :
  nondecreasing l ->
  forall n m x y, (n <= m)%nat -> nth_error l n = Some x -> nth_error l m = Some y ->
    (x <= y)%Q.
Proof.
  induction l as [|a l IH]; intros Hs n m x y Hnm Hn Hm.
  - destruct n; discriminate.
  - destruct Hs as [Hhd Htl].
    assert (Hfirst : forall m' y', nth_error (a :: l) m' = Some y' -> (a <= y')%Q).
    { clear - IH Hhd Htl. intros m'. induction m' as [|m' IHm]; intros y' Hy.
      - injection Hy as <-. apply Qle_refl.
      - destruct l as [|b l]; [destruct m'; discriminate|].
        simpl in Hy. eapply Qle_trans; [exact Hhd|].
        apply (IH Htl 0%nat m' b y'); [lia | reflexivity | exact Hy]. }
    destruct n as [|n].
    + injection Hn as <-. eapply Hfirst; eauto.
    + destruct m as [|m]; [lia|]. simpl in Hn, Hm.
      eapply (IH Htl n m); eauto. lia.
Qed.

Lemma run_cues_reached (script : list cue) (es : list Q) :
  nondecreasing es ->
  forall i, (i <= List.length script)%nat -> es <> [] ->
    Forall (fun c => (fst c <= hd 0%Q es)%Q) (firstn i script) ->
    let k := final_cursor i (run_cues script i es) in
    Forall (fun c => (fst c <= last es 0%Q)%Q) (firstn k script) /\
    (forall c, nth_error script k = Some c -> (last es 0%Q < fst c)%Q).
Proof.
  induction es as [|e es IH]; intros Hs i Hi Hne Hbelow; [congruence|].
  simpl run_cues.
  destruct (next_due script i e) as [ts j] eqn:H.
  destruct (next_due_spec _ _ Hi H) as (Hj & Hts & Hall & Hstop).
  rewrite final_cursor_cons.
  assert (Hj' : Forall (fun c => (fst c <= e)%Q) (firstn j script)).
  { rewrite (firstn_slice script (proj1 Hj)). apply Forall_app. split; assumption. }
  destruct es as [|e' es].
  - simpl. split; assumption.
  - destruct Hs as [Hee Hs].
    change (last (e :: e' :: es) 0%Q) with (last (e' :: es) 0%Q).
    apply IH; [exact Hs | lia | discriminate |].
    simpl. eapply Forall_impl; [|exact Hj'].
    intros c Hc. simpl in Hc. eapply Qle_trans; eauto.
Qed.

Lemma times_emitted_range (script : list cue) (n : nat) (es : list Q) :
  forall i, (i <= List.length script)%nat ->
    let ticks := run_cues script i es in
    times_emitted n i ticks =
      if ((i <=? n) && (n <? final_cursor i ticks))%nat then 1%nat else 0%nat.
Proof.
  induction es as [|e es IH]; intros i Hi; simpl.
  - unfold final_cursor. simpl.
    destruct (i <=? n)%nat eqn:A, (n <? i)%nat eqn:B; try reflexivity.
    apply Nat.leb_le in A. apply Nat.ltb_lt in B. lia.
  - destruct (next_due script i e) as [ts j] eqn:H.
    destruct (next_due_spec _ _ Hi H) as (Hj & _).
    rewrite final_cursor_cons. simpl.
    rewrite (IH j) by lia.
    destruct (run_cues_ok script es (i := j) ltac:(lia)) as (_ & Hk & _).
    set (k := final_cursor j (run_cues script j es)) in *.
    destruct (i <=? n)%nat eqn:A, (n <? j)%nat eqn:B,
             (j <=? n)%nat eqn:C, (n <? k)%nat eqn:D; simpl; try reflexivity;
      repeat match goal with
      | H : (_ <=? _)%nat = true |- _ => apply Nat.leb_le in H
      | H : (_ <=? _)%nat = false |- _ => apply Nat.leb_gt in H
      | H : (_ <? _)%nat = true |- _ => apply Nat.ltb_lt in H
      | H : (_ <? _)%nat = false |- _ => apply Nat.ltb_ge in H
      end; lia.
Qed.

(** C3, as amended: against a script with non-decreasing offsets and
    non-decreasing elapsed values, starting from cursor 0, each call emits the
    next cues of the script in script order, none whose offset exceeds the
    elapsed value of that call; over the whole sequence no cue is emitted
    twice, and a cue is emitted (once) exactly when its offset is at most the
    last elapsed value. *)
Theorem cue_advance_once (script : list cue) (es : list Q) :
  nondecreasing (map fst script) -> nondecreasing es ->
  let ticks := run_cues script 0 es in
  let k := final_cursor 0 ticks in
  ticks_ok script 0 ticks /\
  (k <= List.length script)%nat /\
  emitted ticks = map snd (firstn k script) /\
  (forall n, (times_emitted n 0 ticks <= 1)%nat) /\
  (es <> [] ->
   forall n c, nth_error script n = Some c ->
     (times_emitted n 0 ticks = 1%nat <-> (fst c <= last es 0%Q)%Q) /\
     (times_emitted n 0 ticks = 0%nat <-> (last es 0%Q < fst c)%Q)).
Proof.
  intros Hscript Hes ticks k.
  destruct (run_cues_ok script es (i := 0%nat) ltac:(lia)) as (Hok & Hk & Hem).
  fold ticks in Hok, Hk, Hem. fold k in Hk, Hem.
  assert (Htimes : forall n, times_emitted n 0 ticks = if (n <? k)%nat then 1%nat else 0%nat).
  { intros n. unfold ticks, k. rewrite times_emitted_range by lia. reflexivity. }
  split; [exact Hok|]. split; [lia|]. split; [exact Hem|].
  split; [intros n; rewrite Htimes; destruct (n <? k)%nat; lia|].
  intros Hne n c Hn.
  destruct (run_cues_reached script Hes (i := 0%nat) ltac:(lia) Hne ltac:(constructor))
    as [Hbelow Hstop].
  fold ticks in Hbelow, Hstop. fold k in Hbelow, Hstop.
  rewrite Htimes.
  destruct (n <? k)%nat eqn:E.
  - apply Nat.ltb_lt in E.
    assert (Hle : (fst c <= last es 0%Q)%Q).
    { rewrite Forall_forall in Hbelow. apply Hbelow.
      apply nth_error_In with n. rewrite nth_error_firstn.
      destruct (n <? k)%nat eqn:E'; [exact Hn|]. apply Nat.ltb_ge in E'. lia. }
    split; split; try (intros; reflexivity || exact Hle); try discriminate.
    intros Hlt. exfalso. eapply Qlt_not_le; eauto.
  - apply Nat.ltb_ge in E.
    assert (Hlt : (last es 0%Q < fst c)%Q).
    { destruct (nth_error script k) as [ck|] eqn:Hk'.
      - eapply Qlt_le_trans; [apply Hstop; reflexivity|].
        apply (@nondecreasing_nth (map fst script) Hscript k n); [exact E | |].
        + apply map_nth_error. exact Hk'.
        + apply map_nth_error. exact Hn.
      - apply nth_error_None in Hk'.
        assert (n < List.length script)%nat by (apply nth_error_Some; congruence). lia. }
    split; split; try (intros; reflexivity || exact Hlt); try discriminate.
    intros Hle. exfalso. eapply Qlt_not_le; eauto.
Qed.

Lemma cue_advance_once_witness :
  let script := script1 in
  let es := [0; 6; 12]%Q in
  let ticks := run_cues script 0 es in
  let k := final_cursor 0 ticks in
  ticks_ok script 0 ticks /\
  (k <= List.length script)%nat /\
  emitted ticks = map snd (firstn k script) /\
  (forall n, (times_emitted n 0 ticks <= 1)%nat) /\
  (es <> [] ->
   forall n c, nth_error script n = Some c ->
     (times_emitted n 0 ticks = 1%nat <-> (fst c <= last es 0%Q)%Q) /\
     (times_emitted n 0 ticks = 0%nat <-> (last es 0%Q < fst c)%Q)).
Proof.
  apply (@cue_advance_once script1 [0; 6; 12]%Q); vm_compute; intuition congruence.
Defined.

(** C3 as stated fails: a cue whose offset the elapsed values never reach is
    not emitted at all, so it is not emitted exactly once. *)
Lemma cue_never_reached :
  let script := [(5%Q, "B"%string)] in
  let es := [1%Q] in
  nondecreasing (map fst script) /\ nondecreasing es /\
  run_cues script 0 es = [(1%Q, [], 0%nat)] /\
  emitted (run_cues script 0 es) = [] /\
  times_emitted 0 0 (run_cues script 0 es) <> 1%nat.
Proof.
  vm_compute. repeat split; congruence.
Qed.

(** ** Reasoning about effects *)

Lemma news_app (s s' : state) (evs : list event) :
  out s' = (out s ++ evs)%list -> news s s' = evs.
Proof.
  intros H. unfold news. rewrite H.
  rewrite skipn_app, Nat.sub_diag, skipn_all. reflexivity.
Qed.

Lemma bells_app (a b : list event) : bells (a ++ b) = (bells a + bells b)%nat.
Proof. unfold bells. rewrite filter_app, length_app. reflexivity. Qed.

Lemma cue_prints_app (a b : list event) :
  cue_prints (a ++ b) = (cue_prints a ++ cue_prints b)%list.
Proof. unfold cue_prints. apply flat_map_app. Qed.

Lemma bar_fills_app (a b : list event) :
  bar_fills (a ++ b) = (bar_fills a ++ bar_fills b)%list.
Proof. unfold bar_fills. apply flat_map_app. Qed.

Lemma writes_app (a b : list event) : writes (a ++ b) = (writes a ++ writes b)%list.
Proof. unfold writes. apply flat_map_app. Qed.

Lemma only_refl (ok : event -> bool) (s : state) : only ok s s.
Proof. exists []. rewrite app_nil_r. split; reflexivity. Qed.

Lemma only_trans (ok : event -> bool) (s1 s2 s3 : state) :
  only ok s1 s2 -> only ok s2 s3 -> only ok s1 s3.
Proof.
  intros (a & Ha & Hoka) (b & Hb & Hokb). exists (a ++ b)%list.
  rewrite Hb, Ha, app_assoc, forallb_app, Hoka, Hokb. split; reflexivity.
Qed.

Lemma only_weaken (ok ok' : event -> bool) (s s' : state) :
  (forall e, ok e = true -> ok' e = true) -> only ok s s' -> only ok' s s'.
Proof.
  intros H (evs & Hout & Hok). exists evs. split; [exact Hout|].
  rewrite forallb_forall in *. auto.
Qed.

Lemma quiet_refl (ok : event -> bool) (s : state) : quiet ok s s.
Proof. split; [reflexivity | apply only_refl]. Qed.

Lemma quiet_trans (ok : event -> bool) (s1 s2 s3 : state) :
  quiet ok s1 s2 -> quiet ok s2 s3 -> quiet ok s1 s3.
Proof.
  intros [L1 O1] [L2 O2]. split; [unfold same_log in *; congruence|].
  eapply only_trans; eauto.
Qed.

Lemma quiet_weaken (ok ok' : event -> bool) (s s' : state) :
  (forall e, ok e = true -> ok' e = true) -> quiet ok s s' -> quiet ok' s s'.
Proof. intros H [L O]. split; [exact L | eapply only_weaken; eauto]. Qed.

(** *** Programs built from the primitives *)

Section Closure.

Variable w : world.
Variable Phi : forall A : Type, M A -> Prop.
Variable ok : event -> bool.

Hypothesis Phi_ret : forall A (a : A), Phi (ret a).
Hypothesis Phi_bind : forall A B (m : M A) (k : A -> M B),
  Phi m -> (forall a, Phi (k a)) -> Phi (bind m k).
Hypothesis Phi_raise : forall A e, e <> KeyboardInterrupt -> Phi (@raise A e).
Hypothesis Phi_diverge : forall A, Phi (@diverge A).
Hypothesis Phi_try : forall A (m h : M A) e,
  e <> KeyboardInterrupt -> Phi m -> Phi h -> Phi (try_except m e h).
Hypothesis Phi_emit : forall e, ok e = true -> Phi (emit e).
Hypothesis Phi_time : Phi (time_time w).
Hypothesis Phi_read : Phi (read_line w).

Lemma closed_for_each A (l : list A) (body : A -> M unit) :
  (forall a, Phi (body a)) -> Phi (for_each l body).
Proof.
  intros H. induction l as [|a l IH]; simpl; [apply Phi_ret|].
  apply Phi_bind; [apply H | intros _; exact IH].
Qed.

Lemma closed_render (total elapsed : Q) (prefix : string) :
  Phi (lift (render total elapsed prefix)).
Proof.
  unfold render, truediv. destruct (Qeq_bool total 0).
  - apply (@Phi_raise display ZeroDivisionError). discriminate.
  - apply (@Phi_ret display).
Qed.

Lemma closed_truediv (a b : Q) : Phi (lift (truediv a b)).
Proof.
  unfold truediv. destruct (Qeq_bool b 0).
  - apply (@Phi_raise Q ZeroDivisionError). discriminate.
  - apply (@Phi_ret Q).
Qed.

Lemma closed_parse A (o : option A) : Phi (parse o).
Proof.
  destruct o; simpl; [apply Phi_ret | apply Phi_raise; discriminate].
Qed.

Lemma closed_py_truediv (a b : num) : Phi (lift (py_truediv a b)).
Proof.
  destruct a as [x|x], b as [y|y]; simpl; try apply closed_truediv.
  destruct (y =? 0)%Z; [apply (@Phi_raise Q ZeroDivisionError); discriminate|].
  destruct (overflows (inject_Z x / inject_Z y)).
  - apply (@Phi_raise Q OverflowError). discriminate.
  - apply (@Phi_ret Q).
Qed.

Lemma closed_py_int_of_float (x : pyfloat) : Phi (lift (py_int_of_float x)).
Proof.
  destruct x; simpl;
    [ apply (@Phi_ret Z)
    | apply (@Phi_raise Z OverflowError); discriminate
    | apply (@Phi_raise Z OverflowError); discriminate
    | apply (@Phi_raise Z ValueError); discriminate ].
Qed.

Section Drawing.

Hypothesis ok_draw : forall e, drawing e = true -> ok e = true.

Lemma closed_progress_loop (fuel : nat) (total : Q) (prefix : string) (start : Q) :
  Phi (progress_loop w fuel total prefix start).
Proof.
  induction fuel as [|fuel IH]; simpl; [apply Phi_diverge|].
  apply Phi_bind; [apply Phi_time | intros now].
  destruct (Qle_bool total (now - start)); [apply Phi_ret|].
  apply Phi_bind; [apply closed_render | intros d].
  apply Phi_bind; [apply Phi_emit, ok_draw; reflexivity | intros _].
  apply Phi_bind; [apply Phi_emit, ok_draw; reflexivity | intros _].
  apply Phi_bind; [apply Phi_emit, ok_draw; reflexivity | intros _].
  exact IH.
Qed.

Lemma closed_progress_bar (fuel : nat) (total : Q) (prefix : string) :
  Phi (progress_bar w fuel total prefix).
Proof.
  unfold progress_bar.
  apply Phi_bind; [apply Phi_time | intros start].
  apply Phi_bind; [apply closed_progress_loop | intros _].
  apply Phi_emit, ok_draw. reflexivity.
Qed.

Lemma closed_phase (label : string) (n : Z) : Phi (phase label n).
Proof.
  unfold phase. apply closed_for_each. intros t.
  repeat (apply Phi_bind; [apply Phi_emit, ok_draw; reflexivity | intros _]).
  apply Phi_emit, ok_draw. reflexivity.
Qed.

Section Text.

Hypothesis ok_print : forall t, ok (Print t) = true.
Hypothesis ok_cue : forall t, ok (PrintCentered t) = true.

Lemma closed_play_due (rest : list cue) (elapsed : Q) (i : nat) :
  Phi (play_due rest elapsed i).
Proof.
  revert i. induction rest as [|[offset text] rest IH]; intros i; simpl; [apply Phi_ret|].
  destruct (Qle_bool offset elapsed); [|apply Phi_ret].
  apply Phi_bind; [apply Phi_emit, ok_print | intros _].
  apply Phi_bind; [apply Phi_emit, ok_cue | intros _].
  apply IH.
Qed.

Lemma closed_guided_tick fuel script total start i :
  Phi (guided_tick w fuel script total start i).
Proof.
  unfold guided_tick.
  apply Phi_bind; [apply Phi_time | intros now].
  destruct (Qle_bool total (now - start)); [apply Phi_ret|].
  apply Phi_bind; [apply closed_play_due | intros i'].
  apply Phi_bind; [apply closed_progress_bar | intros _].
  apply Phi_ret.
Qed.

Lemma closed_guided_loop fuel script total start i :
  Phi (guided_loop w fuel script total start i).
Proof.
  revert i. induction fuel as [|fuel IH]; intros i; simpl; [apply Phi_diverge|].
  apply Phi_bind; [apply closed_guided_tick | intros [i'|]]; [apply IH | apply Phi_ret].
Qed.

End Text.
End Drawing.

(** The whole program, for properties that no primitive breaks. *)
Section Whole.

Hypothesis ok_all : forall e, ok e = true.
Hypothesis Phi_exists : Phi (path_exists).
Hypothesis Phi_open : Phi (open_append).
Hypothesis Phi_append : forall l, Phi (append_line l).
Hypothesis Phi_read_log : Phi (read_log).

Local Ltac closed :=
  repeat first
    [ apply Phi_ret
    | apply Phi_emit, ok_all
    | apply Phi_time
    | apply Phi_read
    | apply Phi_exists
    | apply Phi_open
    | apply Phi_append
    | apply Phi_read_log
    | apply closed_parse
    | apply closed_truediv
    | apply closed_py_truediv
    | apply closed_py_int_of_float
    | apply closed_progress_bar; intros; apply ok_all
    | apply closed_guided_loop; intros; apply ok_all
    | apply closed_phase; intros; apply ok_all
    | apply closed_for_each; intros
    | apply Phi_bind; [|intros]
    | apply Phi_raise; discriminate
    | apply Phi_try; [discriminate| |]
    | match goal with |- Phi (if ?b then _ else _) => destruct b end
    | match goal with |- Phi (match ?c with _ => _ end) => destruct c end ].

Lemma closed_input (prompt : string) : Phi (input w prompt).
Proof. unfold input. closed. Qed.

Lemma closed_log_session kind d notes : Phi (log_session w kind d notes).
Proof.
  unfold log_session. closed.
Qed.

Lemma closed_guided_session fuel script d : Phi (guided_session w fuel script d).
Proof.
  unfold guided_session, clear, bell, print_centered.
  closed; try apply closed_log_session; try apply closed_input; closed.
Qed.

Lemma closed_custom_timer fuel d : Phi (custom_timer w fuel d).
Proof.
  unfold custom_timer, clear, bell, print_centered.
  closed; try apply closed_log_session; try apply closed_input; closed.
Qed.

Lemma closed_box_breathing c i h e : Phi (box_breathing w c i h e).
Proof.
  unfold box_breathing, clear, bell, print_centered, print, sleep.
  closed; try apply closed_log_session; try apply closed_input; closed.
Qed.

Lemma closed_body_scan fuel d : Phi (body_scan w fuel d).
Proof.
  unfold body_scan, clear, bell, print_centered, print, sleep.
  closed; try apply closed_log_session; try apply closed_input; closed.
Qed.

Lemma closed_show_log : Phi (show_log w).
Proof.
  unfold show_log, clear, print_centered, print.
  closed; try apply closed_input; closed.
Qed.

Lemma closed_run_session fuel k : Phi (run_session w fuel k).
Proof.
  destruct k; simpl;
    [apply closed_guided_session | apply closed_custom_timer
    | apply closed_box_breathing | apply closed_body_scan].
Qed.

Lemma closed_menu_tick fuel : Phi (menu_tick w fuel).
Proof.
  unfold menu_tick, show_menu, clear, print_centered, print, sleep.
  closed; try apply closed_input;
  unfold menu_custom, menu_box, menu_body_scan, custom_timer_of, custom_timer_unbounded,
         clear, bell, print_centered, print, sleep;
  closed;
  try apply closed_guided_session; try apply closed_custom_timer;
  try apply closed_box_breathing; try apply closed_body_scan;
  try apply closed_show_log; try apply closed_input; closed.
Qed.

Lemma closed_main_menu fuel : Phi (main_menu w fuel).
Proof.
  induction fuel as [|fuel IH]; simpl; [apply Phi_diverge|].
  apply Phi_bind; [apply closed_menu_tick | intros [|]]; [exact IH | apply Phi_ret].
Qed.

End Whole.

End Closure.

(** *** Relations kept by every outcome *)

Section Stable.

Variable R : state -> state -> Prop.
Hypothesis R_refl : forall s, R s s.
Hypothesis R_trans : forall s1 s2 s3, R s1 s2 -> R s2 s3 -> R s1 s3.

Lemma stable_ret A (a : A) : stable R (ret a).
Proof. intros s. apply R_refl. Qed.

Lemma stable_raise A (e : exn) : stable R (@raise A e).
Proof. intros s. apply R_refl. Qed.

Lemma stable_diverge A : stable R (@diverge A).
Proof. intros s. apply R_refl. Qed.

Lemma stable_bind A B (m : M A) (k : A -> M B) :
  stable R m -> (forall a, stable R (k a)) -> stable R (bind m k).
Proof.
  intros Hm Hk s. unfold bind. specialize (Hm s).
  destruct (m s) as [[a|e|] s1]; simpl in *; try exact Hm.
  eapply R_trans; [exact Hm | apply Hk].
Qed.

Lemma stable_try A (m h : M A) (e : exn) :
  stable R m -> stable R h -> stable R (try_except m e h).
Proof.
  intros Hm Hh s. unfold try_except. specialize (Hm s).
  destruct (m s) as [[a|e'|] s1]; simpl in *; try exact Hm.
  destruct (exn_eqb e e'); simpl; [|exact Hm].
  eapply R_trans; [exact Hm | apply Hh].
Qed.

End Stable.

Lemma quiet_same (ok : event -> bool) (s s' : state) :
  out s' = out s -> logf s' = logf s -> quiet ok s s'.
Proof.
  intros Ho Hl. split; [exact Hl|]. exists []. rewrite app_nil_r. split; [exact Ho | reflexivity].
Qed.

Lemma emit_quiet (ok : event -> bool) (e : event) :
  ok e = true -> stable (quiet ok) (emit e).
Proof.
  intros H s. unfold emit, bind, step.
  destruct (intr s) as [[|k]|]; simpl; try (apply quiet_same; reflexivity);
    (split; [reflexivity|]; exists [e]; simpl; rewrite H; split; reflexivity).
Qed.

Lemma time_quiet (w : world) (ok : event -> bool) : stable (quiet ok) (time_time w).
Proof. intros s. apply quiet_same; reflexivity. Qed.

Lemma read_quiet (w : world) (ok : event -> bool) : stable (quiet ok) (read_line w).
Proof.
  intros s. unfold read_line, bind, step.
  destruct (intr s) as [[|k]|]; simpl; apply quiet_same; reflexivity.
Qed.

(** [quiet ok] is kept by every program built from events that [ok]
    accepts. *)
Ltac quiet_prims :=
  intros;
  first
    [ apply stable_ret, quiet_refl
    | apply stable_bind; [apply quiet_trans | assumption | assumption]
    | apply stable_raise, quiet_refl
    | apply stable_diverge, quiet_refl
    | apply stable_try; [apply quiet_trans | assumption | assumption]
    | apply emit_quiet; assumption
    | apply time_quiet
    | apply read_quiet
    | idtac ].

Lemma progress_bar_draws (w : world) (fuel : nat) (total : Q) (prefix : string) :
  stable (quiet drawing) (progress_bar w fuel total prefix).
Proof.
  apply closed_progress_bar with (Phi := fun A => @stable A (quiet drawing)) (ok := drawing);
    quiet_prims. assumption.
Qed.

Lemma phase_draws (label : string) (n : Z) : stable (quiet drawing) (phase label n).
Proof.
  apply closed_phase with (Phi := fun A => @stable A (quiet drawing)) (ok := drawing);
    quiet_prims. assumption.
Qed.

Lemma guided_loop_quiet (w : world) fuel script total start i :
  stable (quiet not_bell) (guided_loop w fuel script total start i).
Proof.
  apply closed_guided_loop with (Phi := fun A => @stable A (quiet not_bell)) (ok := not_bell);
    quiet_prims; try reflexivity.
  destruct e; try discriminate; reflexivity.
Qed.

(** *** The interrupt discipline *)

Lemma delivers_ret A (a : A) : delivers (ret a).
Proof. intros s. simpl. tauto. Qed.

Lemma delivers_raise A (e : exn) : e <> KeyboardInterrupt -> delivers (@raise A e).
Proof. intros H s. simpl. destruct e; tauto. Qed.

Lemma delivers_diverge A : delivers (@diverge A).
Proof. intros s. simpl. tauto. Qed.

Lemma delivers_bind A B (m : M A) (k : A -> M B) :
  delivers m -> (forall a, delivers (k a)) -> delivers (bind m k).
Proof.
  intros Hm Hk s. unfold bind. specialize (Hm s).
  destruct (m s) as [[a|e|] s1]; simpl in *; try exact Hm.
  specialize (Hk a s1).
  destruct (fst (k a s1)) as [b|[]|]; intuition congruence.
Qed.

Lemma delivers_try A (m h : M A) (e : exn) :
  e <> KeyboardInterrupt -> delivers m -> delivers h -> delivers (try_except m e h).
Proof.
  intros He Hm Hh s. unfold try_except. specialize (Hm s).
  destruct (m s) as [[a|e'|] s1]; simpl in *; try exact Hm.
  destruct (exn_eqb e e') eqn:Eq; simpl; [|exact Hm].
  assert (e' = e) by (destruct e, e'; simpl in Eq; congruence). subst e'.
  specialize (Hh s1).
  destruct e; try congruence;
    destruct (fst (h s1)) as [b|[]|]; intuition congruence.
Qed.

Lemma delivers_step : delivers step.
Proof.
  intros s. unfold step. destruct (intr s) as [[|k]|] eqn:E; simpl;
    rewrite ?E; split; congruence.
Qed.

Lemma delivers_after_step A (f : state -> result A * state) :
  (forall s, match fst (f s) with Raise KeyboardInterrupt => False | _ => True end) ->
  (forall s, intr (snd (f s)) = intr s) ->
  delivers (step ;; f).
Proof.
  intros Hr Hi. apply delivers_bind; [apply delivers_step|].
  intros _ s. specialize (Hr s). specialize (Hi s).
  destruct (fst (f s)) as [a|[]|]; rewrite ?Hi; tauto.
Qed.

Lemma delivers_emit (e : event) : delivers (emit e).
Proof. apply delivers_after_step; intros s; simpl; auto. Qed.

Lemma delivers_time (w : world) : delivers (time_time w).
Proof. intros s. simpl. tauto. Qed.

Lemma delivers_read (w : world) : delivers (read_line w).
Proof. apply delivers_after_step; intros s; simpl; auto. Qed.

Lemma delivers_main_menu (w : world) (fuel : nat) : delivers (main_menu w fuel).
Proof.
  apply closed_main_menu with (Phi := fun A => @delivers A) (ok := any_event);
    intros;
    first
      [ apply delivers_ret | apply delivers_bind; assumption
      | apply delivers_raise; assumption | apply delivers_diverge
      | apply delivers_try; assumption | apply delivers_emit
      | apply delivers_time | apply delivers_read | reflexivity
      | apply delivers_after_step; intros; simpl; auto
      | intros ?; simpl; tauto ].
Qed.

Lemma delivers_run_session (w : world) (fuel : nat) (k : session) :
  delivers (run_session w fuel k).
Proof.
  apply closed_run_session with (Phi := fun A => @delivers A) (ok := any_event);
    intros;
    first
      [ apply delivers_ret | apply delivers_bind; assumption
      | apply delivers_raise; assumption | apply delivers_diverge
      | apply delivers_try; assumption | apply delivers_emit
      | apply delivers_time | apply delivers_read | reflexivity
      | apply delivers_after_step; intros; simpl; auto
      | intros ?; simpl; tauto ].
Qed.

(** *** Hoare triples *)

Lemma triple_ret A (a : A) (P : state -> Prop) (Q : A -> state -> Prop) E :
  (forall s, P s -> Q a s) -> triple P (ret a) Q E.
Proof. intros H s Hs. simpl. auto. Qed.

Lemma triple_bind A B (m : M A) (k : A -> M B) P Q Q' E :
  triple P m Q E -> (forall a, triple (Q a) (k a) Q' E) -> triple P (bind m k) Q' E.
Proof.
  intros Hm Hk s Hs. unfold bind. specialize (Hm s Hs).
  destruct (m s) as [[a|e|] s1]; try exact Hm.
  apply Hk. exact Hm.
Qed.

Lemma triple_conseq A (m : M A) (P P' : state -> Prop) (Q Q' : A -> state -> Prop) E E' :
  triple P m Q E ->
  (forall s, P' s -> P s) -> (forall a s, Q a s -> Q' a s) -> (forall s, E s -> E' s) ->
  triple P' m Q' E'.
Proof.
  intros H HP HQ HE s Hs. specialize (H s (HP s Hs)).
  destruct (m s) as [[a|e|] s1]; auto.
Qed.

Lemma triple_stable A (m : M A) (R : state -> state -> Prop) (P P' E : state -> Prop) :
  stable R m ->
  (forall s s', P s -> R s s' -> P' s') -> (forall s, P' s -> E s) ->
  triple P m (fun _ => P') E.
Proof.
  intros Hm H HE s Hs. specialize (Hm s).
  destruct (m s) as [[a|e|] s1]; simpl in *; eauto.
Qed.

(** ** C8: an interrupted session and the log *)

Lemma quiet_no_bells (s s' : state) :
  quiet not_bell s s' ->
  logf s' = logf s /\ exists evs, out s' = (out s ++ evs)%list /\ bells evs = 0%nat.
Proof.
  intros [L (evs & Ho & Hok)]. split; [exact L|]. exists evs. split; [exact Ho|].
  unfold bells. clear Ho. induction evs as [|e evs IH]; [reflexivity|].
  simpl in Hok. apply andb_prop in Hok as [He Hevs].
  destruct e; simpl; try discriminate; auto.
Qed.

Lemma rung_quiet (n : nat) (s0 s s' : state) :
  rung n s0 s -> quiet not_bell s s' -> rung n s0 s'.
Proof.
  intros [L (evs & Ho & Hb)] Hq.
  destruct (quiet_no_bells Hq) as [L' (evs' & Ho' & Hb')].
  split; [congruence|]. exists (evs ++ evs')%list.
  rewrite Ho', Ho, app_assoc, bells_app. split; [reflexivity | lia].
Qed.

Lemma rung_safe (n : nat) (s0 s : state) : rung n s0 s -> log_safe s0 s.
Proof.
  intros [L _]. split; [intros _; exact L|].
  exists []. rewrite app_nil_r. unfold lines. rewrite L. split; [reflexivity | left; reflexivity].
Qed.

Lemma logged_safe (s0 s : state) : logged s0 s -> log_safe s0 s.
Proof.
  intros [(evs & Ho & Hb) Hls]. split; [|exact Hls].
  rewrite (news_app _ _ _ Ho). lia.
Qed.

Lemma logged_quiet (ok : event -> bool) (s0 s s' : state) :
  logged s0 s -> quiet ok s s' -> logged s0 s'.
Proof.
  intros [(evs & Ho & Hb) (ls & Hls & Hg)] [L (evs' & Ho' & _)]. split.
  - exists (evs ++ evs')%list. rewrite Ho', Ho, app_assoc, bells_app. split; [reflexivity | lia].
  - exists ls. unfold lines in *. rewrite L. split; assumption.
Qed.

Lemma quiet_rung A (m : M A) (n : nat) (s0 : state) :
  stable (quiet not_bell) m ->
  triple (rung n s0) m (fun _ => rung n s0) (log_safe s0).
Proof.
  intros H. eapply triple_stable; [exact H | |].
  - intros s s'. apply rung_quiet.
  - intros s. apply rung_safe.
Qed.

Lemma bell_rung (n : nat) (s0 : state) :
  triple (rung n s0) bell (fun _ => rung (S n) s0) (log_safe s0).
Proof.
  intros s [L (evs & Ho & Hb)]. unfold bell, emit, bind, step.
  destruct (intr s) as [[|k]|]; simpl.
  - apply rung_safe with n. split; [exact L|]. exists evs. split; assumption.
  - split; [exact L|]. exists (evs ++ [Bell])%list. simpl.
    rewrite Ho, app_assoc, bells_app, Hb. split; [reflexivity|]. unfold bells. simpl. lia.
  - split; [exact L|]. exists (evs ++ [Bell])%list. simpl.
    rewrite Ho, app_assoc, bells_app, Hb. split; [reflexivity|]. unfold bells. simpl. lia.
Qed.

Lemma log_session_logged (w : world) kind d notes (s0 : state) :
  triple (rung 2 s0) (log_session w kind d notes) (fun _ => logged s0) (log_safe s0).
Proof.
  intros s [L (evs & Ho & Hb)].
  assert (Hout : exists evs, out s = (out s0 ++ evs)%list /\ (2 <= bells evs)%nat).
  { exists evs. split; [exact Ho | lia]. }
  assert (Hl : lines s = lines s0) by (unfold lines; rewrite L; reflexivity).
  unfold log_session, bind, time_time, path_exists, open_append, append_line, step, bind.
  destruct s as [rd ty it ou lg]. simpl in *. subst lg.
  destruct it as [[|[|[|[|k]]]]|]; destruct (logf s0) as [l|] eqn:El; simpl;
    try (apply logged_safe); (split; [exact Hout|]);
    unfold lines; simpl; rewrite ?El;
    first
      [ exists []; rewrite app_nil_r; split; [reflexivity | left; reflexivity]
      | exists [Header]; split; [reflexivity | right; left; reflexivity]
      | eexists [Row _]; split; [reflexivity | right; right; eexists; left; reflexivity]
      | eexists [Header; Row _]; split;
        [reflexivity | right; right; eexists; right; reflexivity] ].
Qed.

Lemma quiet_logged A (m : M A) (ok : event -> bool) (s0 : state) :
  stable (quiet ok) m ->
  triple (logged s0) m (fun _ => logged s0) (log_safe s0).
Proof.
  intros H. eapply triple_stable; [exact H | |].
  - intros s s'. apply logged_quiet.
  - intros s. apply logged_safe.
Qed.

Lemma stable_weaken A (m : M A) (ok ok' : event -> bool) :
  (forall e, ok e = true -> ok' e = true) ->
  stable (quiet ok) m -> stable (quiet ok') m.
Proof. intros H Hm s. eapply quiet_weaken; eauto. Qed.

Lemma drawing_not_bell (e : event) : drawing e = true -> not_bell e = true.
Proof. destruct e; simpl; congruence. Qed.

Lemma input_quiet (w : world) (ok : event -> bool) (prompt : string) :
  ok (Prompt prompt) = true -> stable (quiet ok) (input w prompt).
Proof.
  intros H. unfold input.
  apply stable_bind; [apply quiet_trans | apply emit_quiet; exact H | intros _; apply read_quiet].
Qed.

Lemma lift_quiet A (ok : event -> bool) (r : result A) : stable (quiet ok) (lift r).
Proof. intros s. destruct r; apply quiet_refl. Qed.

(** Programs that ring no bell and leave the log alone. *)
Ltac no_bell :=
  repeat first
    [ apply emit_quiet; reflexivity
    | apply lift_quiet
    | apply time_quiet
    | apply read_quiet
    | apply guided_loop_quiet
    | apply stable_weaken with (ok := drawing);
        [exact drawing_not_bell | first [apply progress_bar_draws | apply phase_draws]]
    | apply stable_ret, quiet_refl
    | apply stable_raise, quiet_refl
    | apply closed_for_each with (Phi := fun A => @stable A (quiet not_bell));
        [ intros; apply stable_ret, quiet_refl
        | intros; apply stable_bind; [apply quiet_trans | assumption | assumption]
        | intros ]
    | apply stable_bind; [apply quiet_trans | | intros] ].

Ltac session_step :=
  eapply triple_bind;
  [ first
      [ apply bell_rung
      | apply log_session_logged
      | apply quiet_rung; no_bell
      | apply quiet_logged with (ok := any_event); apply input_quiet; reflexivity ]
  | intros ].

Lemma session_log_safe (w : world) (fuel : nat) (k : session) (s0 : state) :
  triple (rung 0 s0) (run_session w fuel k) (fun _ => log_safe s0) (log_safe s0).
Proof.
  destruct k; simpl;
    unfold guided_session, custom_timer, box_breathing, body_scan,
           clear, print_centered, print, sleep;
    repeat session_step;
    try (apply triple_ret; apply logged_safe).
Qed.

(** C8: a session that is interrupted before its end bell leaves the log
    file as it was; wherever a session stops, the log has grown by nothing,
    by the header, or by whole rows; an interrupt delivered inside a session
    comes out of it as a KeyboardInterrupt, which [main] catches with the
    farewell message. *)
Theorem interrupt_leaves_log (w : world) (fuel : nat) (k : session) (s : state) :
  let r := fst (run_session w fuel k s) in
  let s' := snd (run_session w fuel k s) in
  ((bells (news s s') < 2)%nat -> logf s' = logf s) /\
  (exists ls, lines s' = (lines s ++ ls)%list /\ log_growth ls) /\
  (intr s <> None -> intr s' = None -> r = Raise KeyboardInterrupt) /\
  (r = Raise KeyboardInterrupt -> intr s <> None /\ intr s' = None) /\
  forall s0,
    let top := main w fuel s0 in
    let below := main_menu w fuel s0 in
    fst top <> Raise KeyboardInterrupt /\
    (intr s0 <> None -> intr (snd below) = None -> fst below = Raise KeyboardInterrupt) /\
    (fst below = Raise KeyboardInterrupt ->
     fst top = Ret tt /\
     out (snd top) = (out (snd below) ++ [Print farewell])%list /\
     logf (snd top) = logf (snd below)).
Proof.
  intros r s'.
  assert (Hsafe : log_safe s s').
  { assert (H0 : rung 0 s s).
    { split; [reflexivity|]. exists []. rewrite app_nil_r. split; reflexivity. }
    pose proof (session_log_safe w fuel k H0) as H.
    unfold s'. destruct (run_session w fuel k s) as [[a|e|] s1]; exact H. }
  destruct Hsafe as [Hbefore Hgrow].
  pose proof (delivers_run_session w fuel k s) as Hd. fold r s' in Hd.
  split; [exact Hbefore|]. split; [exact Hgrow|].
  split; [|split].
  - intros Hs Hs'. destruct r as [a|[]|]; try (exfalso; tauto). reflexivity.
  - intros Hr. rewrite Hr in Hd. exact Hd.
  - intros s0 top below.
    pose proof (delivers_main_menu w fuel s0) as Hm. fold below in Hm.
    unfold top, main, try_except. fold below.
    destruct below as [[a|e|] s1] eqn:Eb; simpl in *.
    + split; [discriminate|]. split; [tauto | discriminate].
    + destruct e; simpl; try (split; [discriminate|]; split; [tauto | discriminate]).
      destruct Hm as [Hs0 Hs1].
      unfold print, emit, bind, step. rewrite Hs1. simpl.
      split; [discriminate|]. split; [reflexivity|]. intros _. repeat split.
    + split; [discriminate|]. split; [tauto | discriminate].
Qed.

(** An interrupted guided session, for illustration: Ctrl-C after five
    effects, nothing logged, the farewell printed last. *)
Example interrupted_guided_session :
  let s := set_intr (Some 5%nat) start_state in
  fst (guided_session (sample_world []) 100 script1 (Float (1 # 6)) s)
    = Raise KeyboardInterrupt /\
  logf (snd (guided_session (sample_world []) 100 script1 (Float (1 # 6)) s)) = None.
Proof. vm_compute. split; reflexivity. Qed.

(** ** C9: progress_bar with nothing to wait for *)

(** C9: with total_seconds <= 0 and a clock that did not run backwards
    between its first two readings, progress_bar leaves its loop in the first
    iteration: it reads the clock twice, never divides, draws no bar and only
    clears the line. *)
Theorem progress_bar_nonpositive (w : world) (fuel : nat) (total : Q) (prefix : string)
  (s : state) :
  (total <= 0)%Q ->
  (clock w (reads s) <= clock w (S (reads s)))%Q ->
  let run := progress_bar w (S fuel) total prefix s in
  run = write ClearLine (mkState (S (S (reads s))) (typed s) (intr s) (out s) (logf s)) /\
  fst run <> Raise ZeroDivisionError /\
  fst run <> Diverge /\
  bar_fills (news s (snd run)) = [] /\
  (intr s = None ->
   run = (Ret tt, mkState (S (S (reads s))) (typed s) None
                          (out s ++ [Write ClearLine]) (logf s))).
Proof.
  intros Ht Hc run.
  assert (Hstop : Qle_bool total (clock w (S (reads s)) - clock w (reads s)) = true).
  { apply Qle_bool_iff. eapply Qle_trans; [exact Ht|].
    apply (Qplus_le_l _ _ (clock w (reads s))). ring_simplify. exact Hc. }
  assert (Hrun : run = write ClearLine
                   (mkState (S (S (reads s))) (typed s) (intr s) (out s) (logf s))).
  { unfold run, progress_bar, bind, time_time. cbn -[Qminus Qle_bool write].
    rewrite Hstop. reflexivity. }
  split; [exact Hrun|]. rewrite Hrun.
  unfold write, emit, bind, step. simpl.
  destruct (intr s) as [[|k]|]; simpl; unfold news; simpl;
    rewrite ?skipn_app, ?Nat.sub_diag, ?skipn_all; simpl;
    repeat split; try discriminate; try reflexivity; intros; discriminate.
Qed.

Lemma progress_bar_nonpositive_witness :
  let w := sample_world [] in
  let s := start_state in
  let run := progress_bar w 1 0 "Timer:" s in
  run = write ClearLine (mkState (S (S (reads s))) (typed s) (intr s) (out s) (logf s)) /\
  fst run <> Raise ZeroDivisionError /\
  fst run <> Diverge /\
  bar_fills (news s (snd run)) = [] /\
  (intr s = None ->
   run = (Ret tt, mkState (S (S (reads s))) (typed s) None
                          (out s ++ [Write ClearLine]) (logf s))).
Proof.
  apply (@progress_bar_nonpositive (sample_world []) 0 0 "Timer:" start_state);
    vm_compute; congruence.
Defined.

(** ** C7: box breathing *)

Lemma add_outs_app (a b : list event) (s : state) :
  add_outs b (add_outs a s) = add_outs (a ++ b) s.
Proof. unfold add_outs. simpl. rewrite app_assoc. reflexivity. Qed.

Lemma add_outs_nil (s : state) : add_outs [] s = s.
Proof. destruct s. unfold add_outs. simpl. rewrite app_nil_r. reflexivity. Qed.

Lemma emit_run (e : event) (s : state) :
  intr s = None -> emit e s = (Ret tt, add_outs [e] s).
Proof. intros H. unfold emit, bind, step. rewrite H. reflexivity. Qed.

Lemma for_each_run A (f : A -> list event) (body : A -> M unit) (l : list A) :
  (forall a s, intr s = None -> body a s = (Ret tt, add_outs (f a) s)) ->
  forall s, intr s = None -> for_each l body s = (Ret tt, add_outs (flat_map f l) s).
Proof.
  intros H. induction l as [|a l IH]; intros s Hs; simpl.
  - rewrite add_outs_nil. reflexivity.
  - unfold bind. rewrite H by exact Hs. rewrite IH by exact Hs.
    rewrite add_outs_app. reflexivity.
Qed.

Lemma phase_run (label : string) (n : Z) (s : state) :
  intr s = None -> phase label n s = (Ret tt, add_outs (phase_events label n) s).
Proof.
  intros Hs. unfold phase, phase_events. apply for_each_run; [|exact Hs].
  intros t s1 H1. unfold write, flush, sleep, bind.
  rewrite !emit_run by (simpl; exact H1). rewrite !add_outs_app. reflexivity.
Qed.

Lemma cycle_run (cycles inhale hold exhale c : Z) (s : state) :
  intr s = None ->
  (print (LF ++ "Cycle " ++ str_Z c ++ "/" ++ str_Z cycles) ;;
   phase "Inhale  " inhale ;;
   phase "Hold    " hold ;;
   phase "Exhale  " exhale ;;
   phase "Hold    " hold ;;
   print "") s
  = (Ret tt, add_outs (cycle_events cycles inhale hold exhale c) s).
Proof.
  intros Hs. unfold print, bind.
  rewrite emit_run by exact Hs.
  repeat (rewrite phase_run by (simpl; exact Hs)).
  rewrite emit_run by (simpl; exact Hs).
  rewrite !add_outs_app. unfold cycle_events. rewrite <- ?app_assoc. reflexivity.
Qed.

Lemma log_session_run (w : world) kind d notes (s : state) :
  intr s = None ->
  log_session w kind d notes s =
    (Ret tt, mkState (S (reads s)) (typed s) None (out s)
               (Some (lines s ++ header_if_new s
                              ++ [Row (mkRow (clock w (reads s)) kind d notes)]))).
Proof.
  intros Hs. destruct s as [rd ty it ou lg]. simpl in Hs. subst it.
  unfold log_session, bind, time_time, path_exists, open_append, append_line, step, bind,
    lines, header_if_new.
  destruct lg as [l|]; simpl; rewrite ?app_nil_r; reflexivity.
Qed.

Lemma input_run (w : world) (prompt : string) (s : state) :
  intr s = None ->
  input w prompt s =
    (Ret (stdin w (typed s)),
     mkState (reads s) (S (typed s)) None (out s ++ [Prompt prompt]) (logf s)).
Proof.
  intros Hs. destruct s as [rd ty it ou lg]. simpl in Hs. subst it. reflexivity.
Qed.

Lemma box_breathing_run (w : world) (cycles inhale hold exhale : Z) (s : state) :
  intr s = None ->
  box_breathing w cycles inhale hold exhale s =
    (Ret tt,
     mkState (S (reads s)) (S (typed s)) None
       (out s ++ box_events cycles inhale hold exhale)
       (Some (lines s ++ header_if_new s
                ++ [Row (mkRow (clock w (reads s)) "Box breathing"
                               (box_duration cycles inhale hold exhale) "")]))).
Proof.
  intros Hs. unfold box_breathing, clear, bell, print_centered, print, sleep, bind.
  repeat (rewrite emit_run by (simpl; exact Hs)).
  rewrite (for_each_run (cycle_events cycles inhale hold exhale)); [| |simpl; exact Hs].
  2:{ intros c s1 H1. apply cycle_run. exact H1. }
  repeat (rewrite emit_run by (simpl; exact Hs)).
  rewrite log_session_run by (simpl; exact Hs).
  rewrite input_run by reflexivity.
  destruct s as [rd ty it ou lg]. simpl in *. subst it.
  unfold box_events, lines, header_if_new. simpl.
  rewrite <- ?app_assoc. reflexivity.
Qed.

Lemma counted_seconds_app (a b : list event) :
  counted_seconds (a ++ b) = (counted_seconds a + counted_seconds b)%Z.
Proof. unfold counted_seconds. rewrite filter_app, length_app. lia. Qed.

Lemma counted_flat_map A (f : A -> list event) (c : Z) (l : list A) :
  (forall a, counted_seconds (f a) = c) ->
  counted_seconds (flat_map f l) = (Z.of_nat (List.length l) * c)%Z.
Proof.
  intros H. induction l as [|a l IH]; [reflexivity|].
  simpl flat_map. rewrite counted_seconds_app, H, IH. simpl List.length. lia.
Qed.

Lemma range_up_length (n : Z) : List.length (range_up n) = Z.to_nat n.
Proof. unfold range_up. rewrite length_map, length_seq. reflexivity. Qed.

Lemma phase_seconds (label : string) (n : Z) :
  counted_seconds (phase_events label n) = Z.of_nat (Z.to_nat n).
Proof.
  unfold phase_events. rewrite counted_flat_map with (c := 1%Z).
  - unfold range_down. rewrite length_rev, range_up_length. lia.
  - intros t. reflexivity.
Qed.

Lemma bells_flat_map A (f : A -> list event) (l : list A) :
  (forall a, bells (f a) = 0%nat) -> bells (flat_map f l) = 0%nat.
Proof.
  intros H. induction l as [|a l IH]; [reflexivity|].
  simpl. rewrite bells_app, H, IH. reflexivity.
Qed.

(** C7: an uninterrupted box-breathing run with positive parameters counts
    down cycles * (inhale + 2 * hold + exhale) seconds and logs that number
    divided by 60 as duration_min; with cycles = 2 and four seconds per phase
    that is 32 seconds and 32 / 60 minutes. *)
Theorem box_breathing_duration (w : world) (cycles inhale hold exhale : Z) (s : state) :
  (0 < cycles)%Z -> (0 < inhale)%Z -> (0 < hold)%Z -> (0 < exhale)%Z ->
  intr s = None ->
  let total := (cycles * (inhale + 2 * hold + exhale))%Z in
  let run := box_breathing w cycles inhale hold exhale s in
  fst run = Ret tt /\
  counted_seconds (news s (snd run)) = total /\
  bells (news s (snd run)) = 2%nat /\
  lines (snd run) =
    (lines s ++ header_if_new s
       ++ [Row (mkRow (clock w (reads s)) "Box breathing"
                      (Float (inject_Z total / 60)) "")])%list /\
  box_duration 2 4 4 4 = Float (inject_Z 32 / 60).
Proof.
  intros Hc Hi Hh He Hs total run.
  unfold run. rewrite box_breathing_run by exact Hs. simpl fst. simpl snd.
  unfold news. simpl out.
  rewrite skipn_app, Nat.sub_diag, skipn_all. simpl skipn. rewrite app_nil_l.
  split; [reflexivity|]. split; [|split; [|split]].
  - unfold box_events. rewrite !counted_seconds_app.
    rewrite counted_flat_map
      with (c := (Z.of_nat (Z.to_nat inhale) + Z.of_nat (Z.to_nat hold)
                  + Z.of_nat (Z.to_nat exhale) + Z.of_nat (Z.to_nat hold))%Z).
    + rewrite range_up_length.
      change (counted_seconds [Clear; _; _; _; _; _]) with 0%Z.
      change (counted_seconds [Bell; _; _]) with 0%Z.
      unfold total. rewrite !Z2Nat.id by lia. ring.
    + intros c. unfold cycle_events. rewrite !counted_seconds_app, !phase_seconds.
      change (counted_seconds [Print _]) with 0%Z. ring.
  - unfold box_events. rewrite !bells_app. rewrite bells_flat_map; [reflexivity|].
    intros c. unfold cycle_events. rewrite !bells_app.
    unfold phase_events. rewrite !bells_flat_map by reflexivity. reflexivity.
  - unfold lines. simpl. unfold box_duration, total.
    replace (inhale + hold + exhale + hold)%Z with (inhale + 2 * hold + exhale)%Z by ring.
    reflexivity.
  - reflexivity.
Qed.

Lemma box_breathing_duration_witness :
  let w := sample_world [] in
  let s := start_state in
  let total := (2 * (4 + 2 * 4 + 4))%Z in
  let run := box_breathing w 2 4 4 4 s in
  fst run = Ret tt /\
  counted_seconds (news s (snd run)) = total /\
  bells (news s (snd run)) = 2%nat /\
  lines (snd run) =
    (lines s ++ header_if_new s
       ++ [Row (mkRow (clock w (reads s)) "Box breathing"
                      (Float (inject_Z total / 60)) "")])%list /\
  box_duration 2 4 4 4 = Float (inject_Z 32 / 60).
Proof.
  apply (@box_breathing_duration (sample_world []) 2 4 4 4 start_state);
    reflexivity.
Defined.

(** ** C10: the cue cursor of a guided session *)

Lemma quiet_no_cues (s s' : state) :
  quiet not_cue s s' -> exists evs, out s' = (out s ++ evs)%list /\ cue_prints evs = [].
Proof.
  intros [_ (evs & Ho & Hok)]. exists evs. split; [exact Ho|].
  clear Ho. induction evs as [|e evs IH]; [reflexivity|].
  simpl in Hok. apply andb_prop in Hok as [He Hevs].
  destruct e; simpl; try discriminate; auto.
Qed.

Lemma printed_quiet (script : list cue) total (s1 : state) (j : nat) (s s' : state) :
  printed script total s1 j s -> quiet not_cue s s' -> printed script total s1 j s'.
Proof.
  intros (Hj & Hall & evs & Ho & Hc) Hq.
  destruct (quiet_no_cues Hq) as (evs' & Ho' & Hc').
  repeat split; try assumption. exists (evs ++ evs')%list.
  rewrite Ho', Ho, app_assoc, cue_prints_app, Hc, Hc', app_nil_r. split; reflexivity.
Qed.

Lemma skipn_cons_nth A (l : list A) (i : nat) (a : A) (r : list A) :
  skipn i l = a :: r -> nth_error l i = Some a /\ skipn (S i) l = r.
Proof.
  revert i. induction l as [|x l IH]; intros i H.
  - rewrite skipn_nil in H. discriminate.
  - destruct i as [|i]; simpl in *.
    + injection H as <- <-. split; reflexivity.
    + apply IH. exact H.
Qed.

Lemma firstn_S_nth A (l : list A) (i : nat) (a : A) :
  nth_error l i = Some a -> firstn (S i) l = (firstn i l ++ [a])%list.
Proof.
  revert i. induction l as [|x l IH]; intros i H.
  - destruct i; discriminate.
  - destruct i as [|i]; simpl in *.
    + injection H as <-. reflexivity.
    + f_equal. apply IH. exact H.
Qed.

Lemma print_cue (script : list cue) total (s1 : state) (i : nat) (offset : Q)
  (text : string) :
  @nth_error cue script i = @Some cue (offset, text) -> (offset < total)%Q ->
  triple (printed script total s1 i) (print_centered text)
         (fun _ => printed script total s1 (S i)) (printed script total s1 i).
Proof.
  intros Hn Ho s (Hj & Hall & evs & Hout & Hc).
  assert (Hlen : (i < List.length script)%nat) by (apply nth_error_Some; congruence).
  assert (Hnext : forall s', out s' = (out s ++ [PrintCentered text])%list ->
                            printed script total s1 (S i) s').
  { intros s' Hs'. split; [exact Hlen|]. rewrite (firstn_S_nth _ _ Hn). split.
    - apply Forall_app. split; [exact Hall | constructor; [exact Ho | constructor]].
    - exists (evs ++ [PrintCentered text])%list.
      rewrite Hs', Hout, app_assoc, cue_prints_app, Hc, map_app. split; reflexivity. }
  unfold print_centered, emit, bind, step.
  destruct (intr s) as [[|k]|]; simpl.
  - split; [exact Hj|]. split; [exact Hall|]. exists evs. split; assumption.
  - apply Hnext. reflexivity.
  - apply Hnext. reflexivity.
Qed.

Section GuidedLoop.

Variable w : world.
Variable script : list cue.
Variable total start : Q.
Variable s1 : state.

Lemma print_blank (i : nat) (E : state -> Prop) :
  (forall s, printed script total s1 i s -> E s) ->
  triple (printed script total s1 i) (print "") (fun _ => printed script total s1 i) E.
Proof.
  intros HE. eapply triple_stable with (R := quiet not_cue).
  - apply emit_quiet. reflexivity.
  - intros s s'. apply printed_quiet.
  - exact HE.
Qed.

Lemma play_due_printed (elapsed : Q) (i0 : nat) :
  (elapsed < total)%Q ->
  forall rest i, rest = skipn i script -> (i0 <= i)%nat ->
    triple (printed script total s1 i) (play_due rest elapsed i)
           (fun j s => (i0 <= j)%nat /\ printed script total s1 j s)
           (fun s => exists j, (i0 <= j)%nat /\ printed script total s1 j s).
Proof.
  intros He. induction rest as [|[offset text] rest IH]; intros i Hrest Hi; simpl.
  - apply triple_ret. intros s Hs. split; assumption.
  - symmetry in Hrest. destruct (skipn_cons_nth _ _ Hrest) as [Hn Hrest'].
    destruct (Qle_bool offset elapsed) eqn:Eo.
    + assert (Ho : (offset < total)%Q).
      { eapply Qle_lt_trans; [apply Qle_bool_iff; exact Eo | exact He]. }
      eapply triple_bind.
      { apply print_blank. intros s Hs. cbv beta. exists i. split; assumption. }
      intros []; cbv beta. eapply triple_bind.
      { eapply triple_conseq; [apply (@print_cue script total s1 i offset text Hn Ho)
                              | intros ? H; exact H | intros ? ? H; exact H |].
        intros s Hs. cbv beta. exists i. split; assumption. }
      intros []; cbv beta. apply IH; [symmetry; exact Hrest' | lia].
    + apply triple_ret. intros s Hs. split; assumption.
Qed.

Lemma drawing_not_cue (e : event) : drawing e = true -> not_cue e = true.
Proof. destruct e; simpl; congruence. Qed.

Lemma guided_tick_printed (fuel : nat) (i : nat) :
  triple (printed script total s1 i) (guided_tick w fuel script total start i)
         (fun r s => match r with
                     | Some i' => (i <= i')%nat /\ printed script total s1 i' s
                     | None => printed script total s1 i s
                     end)
         (fun s => exists j, (i <= j)%nat /\ printed script total s1 j s).
Proof.
  unfold guided_tick.
  eapply triple_bind.
  { eapply triple_stable with (R := quiet not_cue) (P' := printed script total s1 i).
    - apply time_quiet.
    - intros s s'. apply printed_quiet.
    - intros s Hs. cbv beta. exists i. split; [lia | exact Hs]. }
  intros now. cbv beta.
  destruct (Qle_bool total (now - start)) eqn:Et.
  - apply triple_ret. auto.
  - assert (He : (now - start < total)%Q).
    { apply Qnot_le_lt. intros H. apply Qle_bool_iff in H. congruence. }
    eapply triple_bind.
    { apply (play_due_printed He (i0 := i)); [reflexivity | lia]. }
    intros i'. cbv beta. eapply triple_bind.
    { eapply triple_stable with (R := quiet not_cue)
        (P := fun s => (i <= i')%nat /\ printed script total s1 i' s) (P' := fun s => (i <= i')%nat /\ printed script total s1 i' s).
      - apply stable_weaken with (ok := drawing);
          [exact drawing_not_cue | apply progress_bar_draws].
      - intros s s' [Hi Hs] Hq. split; [exact Hi | eapply printed_quiet; eauto].
      - intros s [Hi Hs]. cbv beta. exists i'. split; assumption. }
    intros []; cbv beta. apply triple_ret. auto.
Qed.

Lemma guided_loop_printed (fuel : nat) :
  forall i,
    triple (printed script total s1 i) (guided_loop w fuel script total start i)
           (fun _ s => exists j, (i <= j)%nat /\ printed script total s1 j s)
           (fun s => exists j, (i <= j)%nat /\ printed script total s1 j s).
Proof.
  induction fuel as [|fuel IH]; intros i; simpl.
  - intros s Hs. simpl. exists i. split; [lia | exact Hs].
  - eapply triple_bind; [apply guided_tick_printed|].
    intros [i'|]; simpl.
    + intros s [Hi Hs]. specialize (IH i' s Hs).
      destruct (guided_loop w fuel script total start i' s) as [[a|e|] s'];
        destruct IH as (j & Hj & Hinv); exists j; (split; [lia | exact Hinv]).
    + apply triple_ret. intros s Hs. cbv beta. exists i. split; [lia | exact Hs].
Qed.

Lemma at_tick_printed (i : nat) (s : state) :
  at_tick w script total start s1 i s -> printed script total s1 i s.
Proof.
  induction 1 as [|fuel i s i' s' Hat IH Htick].
  - repeat split; [simpl; lia | simpl; constructor |].
    exists []. rewrite app_nil_r. split; reflexivity.
  - pose proof (guided_tick_printed fuel IH) as H.
    rewrite Htick in H. apply H.
Qed.

End GuidedLoop.

(** C10: at the head of every iteration of the loop of guided_session the
    cursor i is at most len(script) and exactly the cues script[0..i-1] have
    been printed, in script order; an iteration never moves the cursor back,
    and wherever an iteration or the rest of the loop stops, what has been
    printed is again a prefix script[0..j-1] with i <= j <= len(script). *)
Theorem cursor_invariant (w : world) (script : list cue) (total start : Q)
  (s1 : state) (i : nat) (s : state) :
  at_tick w script total start s1 i s ->
  (i <= List.length script)%nat /\
  cue_prints (news s1 s) = map snd (firstn i script) /\
  (forall fuel,
     let run := guided_tick w fuel script total start i s in
     exists j, (i <= j <= List.length script)%nat /\
               cue_prints (news s1 (snd run)) = map snd (firstn j script) /\
               (forall i', fst run = Ret (Some i') -> i' = j)) /\
  (forall fuel,
     let run := guided_loop w fuel script total start i s in
     exists j, (i <= j <= List.length script)%nat /\
               cue_prints (news s1 (snd run)) = map snd (firstn j script)).
Proof.
  intros Hat. pose proof (at_tick_printed Hat) as Hinv.
  split; [apply Hinv|]. split.
  { destruct Hinv as (_ & _ & evs & Ho & Hc). rewrite (news_app _ _ _ Ho). exact Hc. }
  split.
  - intros fuel run.
    pose proof (guided_tick_printed w start fuel Hinv) as H. fold run in H.
    destruct run as [[[i'|]|e|] s'] eqn:Er; simpl in *.
    + destruct H as [Hi (Hj & _ & evs & Ho & Hc)]. exists i'.
      rewrite (news_app _ _ _ Ho). repeat split; try lia; try assumption.
      intros i'' Heq. congruence.
    + destruct H as (Hj & _ & evs & Ho & Hc). exists i.
      rewrite (news_app _ _ _ Ho). repeat split; try lia; try assumption.
      intros i'' Heq. discriminate.
    + destruct H as (j & Hi & Hj & _ & evs & Ho & Hc). exists j.
      rewrite (news_app _ _ _ Ho). repeat split; try lia; try assumption.
      intros i'' Heq. discriminate.
    + destruct H as (j & Hi & Hj & _ & evs & Ho & Hc). exists j.
      rewrite (news_app _ _ _ Ho). repeat split; try lia; try assumption.
      intros i'' Heq. discriminate.
  - intros fuel run.
    pose proof (guided_loop_printed w start fuel Hinv) as H. fold run in H.
    destruct run as [[a|e|] s'] eqn:Er; simpl in *;
      destruct H as (j & Hi & Hj & _ & evs & Ho & Hc); exists j;
      rewrite (news_app _ _ _ Ho); repeat split; try lia; assumption.
Qed.

Lemma cursor_invariant_witness :
  let w := sample_world [] in
  let s1 := mkState 1 0 None [Clear; Bell] None in
  let s := snd (guided_tick w 100 script1 10 0 0 s1) in
  (1 <= List.length script1)%nat /\
  cue_prints (news s1 s) = map snd (firstn 1 script1) /\
  (forall fuel,
     let run := guided_tick w fuel script1 10 0 1 s in
     exists j, (1 <= j <= List.length script1)%nat /\
               cue_prints (news s1 (snd run)) = map snd (firstn j script1) /\
               (forall i', fst run = Ret (Some i') -> i' = j)) /\
  (forall fuel,
     let run := guided_loop w fuel script1 10 0 1 s in
     exists j, (1 <= j <= List.length script1)%nat /\
               cue_prints (news s1 (snd run)) = map snd (firstn j script1)).
Proof.
  intros w s1 s.
  apply (@cursor_invariant w script1 10 0 s1 1%nat s).
  apply at_next with (fuel := 100%nat) (i := 0%nat) (s := s1).
  - apply at_first.
  - vm_compute. reflexivity.
Defined.

(** ** C1: the guided scenario *)

Lemma int_of_float_lt (x : Q) (n : Z) :
  (0 < n)%Z -> (x < inject_Z n)%Q -> (int_of_float x < n)%Z.
Proof.
  intros Hn Hx. destruct (Qlt_le_dec x 0) as [Hneg|Hpos].
  - assert (Hq : (int_of_float x <= 0)%Z).
    { unfold int_of_float. destruct x as [a d]. unfold Qlt in Hneg. simpl in *.
      rewrite <- (Z.quot_0_l (Zpos d)) by lia. apply Z.quot_le_mono; lia. }
    lia.
  - rewrite int_of_float_nonneg by exact Hpos.
    rewrite Zlt_Qlt. eapply Qle_lt_trans; [apply Qfloor_le | exact Hx].
Qed.

Lemma filled_below (total elapsed : Q) :
  (0 < total)%Q -> (elapsed < total)%Q -> (filled_of (elapsed / total) <= 29)%Z.
Proof.
  intros Ht He. unfold filled_of, bar_len.
  assert (H : (int_of_float (elapsed / total * inject_Z 30) < 30)%Z); [|lia].
  apply int_of_float_lt; [lia|].
  apply Qlt_le_trans with (1 * inject_Z 30)%Q; [|discriminate].
  apply Qmult_lt_compat_r; [reflexivity|].
  apply Qlt_shift_div_r; [exact Ht|]. rewrite Qmult_1_l. exact He.
Qed.

Lemma render_fill_ok (total elapsed : Q) (prefix : string) (d : display) :
  (0 < total)%Q -> (elapsed < total)%Q ->
  render total elapsed prefix = Ret d -> fill_ok (Write d) = true.
Proof.
  intros Ht He H. unfold render, truediv in H.
  destruct (Qeq_bool total 0); [discriminate|]. injection H as <-. simpl.
  apply Z.leb_le. apply filled_below; assumption.
Qed.

Lemma stable_bind_lift A B (R : state -> state -> Prop) (r : result A) (k : A -> M B) :
  (forall s, R s s) ->
  (forall a, r = Ret a -> stable R (k a)) -> stable R (bind (lift r) k).
Proof.
  intros Hrefl H s. unfold bind, lift. destruct r as [a|e|]; simpl; try apply Hrefl.
  apply H. reflexivity.
Qed.

Lemma progress_loop_fills (w : world) (fuel : nat) (total : Q) (prefix : string) (start : Q) :
  (0 < total)%Q -> stable (quiet fill_ok) (progress_loop w fuel total prefix start).
Proof.
  intros Ht. induction fuel as [|fuel IH]; simpl.
  - apply stable_diverge, quiet_refl.
  - apply stable_bind; [apply quiet_trans | apply time_quiet | intros now].
    destruct (Qle_bool total (now - start)) eqn:E.
    + apply stable_ret, quiet_refl.
    + assert (He : (now - start < total)%Q).
      { apply Qnot_le_lt. intros H. apply Qle_bool_iff in H. congruence. }
      apply stable_bind_lift; [apply quiet_refl|]. intros d Hd.
      apply stable_bind; [apply quiet_trans | | intros _].
      { apply emit_quiet. eapply render_fill_ok; eauto. }
      apply stable_bind; [apply quiet_trans | apply emit_quiet; reflexivity | intros _].
      apply stable_bind; [apply quiet_trans | apply emit_quiet; reflexivity | intros _].
      exact IH.
Qed.

Lemma progress_bar_fills (w : world) (fuel : nat) (total : Q) (prefix : string) :
  (0 < total)%Q -> stable (quiet fill_ok) (progress_bar w fuel total prefix).
Proof.
  intros Ht. unfold progress_bar.
  apply stable_bind; [apply quiet_trans | apply time_quiet | intros start].
  apply stable_bind; [apply quiet_trans | apply progress_loop_fills; exact Ht | intros _].
  apply emit_quiet. reflexivity.
Qed.

Lemma max0_pos (x : Q) : (0 < x)%Q -> (0 < max0 x)%Q.
Proof.
  intros H. unfold max0. destruct (Qle_bool x 0) eqn:E; [|exact H].
  apply Qle_bool_iff in E. exfalso. eapply Qlt_not_le; eauto.
Qed.

Lemma play_due_quiet (ok : event -> bool) (rest : list cue) (elapsed : Q) (i : nat) :
  (forall t, ok (Print t) = true) -> (forall t, ok (PrintCentered t) = true) ->
  stable (quiet ok) (play_due rest elapsed i).
Proof.
  intros H1 H2.
  apply closed_play_due with (Phi := fun A => @stable A (quiet ok)) (ok := ok);
    quiet_prims; auto.
Qed.

Lemma guided_tick_fills (w : world) fuel script total start i :
  stable (quiet fill_ok) (guided_tick w fuel script total start i).
Proof.
  unfold guided_tick.
  apply stable_bind; [apply quiet_trans | apply time_quiet | intros now].
  destruct (Qle_bool total (now - start)) eqn:E.
  - apply stable_ret, quiet_refl.
  - assert (He : (0 < total - (now - start))%Q).
    { assert (H : (now - start < total)%Q).
      { apply Qnot_le_lt. intros H. apply Qle_bool_iff in H. congruence. }
      apply (Qplus_lt_l _ _ (now - start)). ring_simplify. ring_simplify in H. exact H. }
    apply stable_bind; [apply quiet_trans | apply play_due_quiet; reflexivity | intros i'].
    apply stable_bind; [apply quiet_trans | | intros _; apply stable_ret, quiet_refl].
    apply progress_bar_fills. apply max0_pos. exact He.
Qed.

Lemma guided_loop_fills (w : world) fuel script total start :
  forall i, stable (quiet fill_ok) (guided_loop w fuel script total start i).
Proof.
  induction fuel as [|fuel IH]; intros i; simpl.
  - apply stable_diverge, quiet_refl.
  - apply stable_bind; [apply quiet_trans | apply guided_tick_fills | intros [i'|]].
    + apply IH.
    + apply stable_ret, quiet_refl.
Qed.

Lemma fills_bound (evs : list event) :
  forallb fill_ok evs = true -> Forall (fun f => (f <= 29)%Z) (bar_fills evs).
Proof.
  induction evs as [|e evs IH]; intros H; [constructor|].
  simpl in H. apply andb_prop in H as [He Hevs].
  destruct e as [| | | |[p f m c| |]| | |]; simpl; auto.
  constructor; [apply Z.leb_le; exact He | auto].
Qed.

Ltac delivers_prims :=
  intros;
  first
    [ apply delivers_ret | apply delivers_bind; assumption
    | apply delivers_raise; assumption | apply delivers_diverge
    | apply delivers_try; assumption | apply delivers_emit
    | apply delivers_time | apply delivers_read | reflexivity ].

Lemma delivers_progress_bar (w : world) fuel total prefix :
  delivers (progress_bar w fuel total prefix).
Proof.
  apply closed_progress_bar with (Phi := fun A => @delivers A) (ok := any_event);
    delivers_prims.
Qed.

Lemma delivers_guided_loop (w : world) fuel script total start i :
  delivers (guided_loop w fuel script total start i).
Proof.
  apply closed_guided_loop with (Phi := fun A => @delivers A) (ok := any_event);
    delivers_prims.
Qed.

Lemma delivers_ret_state A (m : M A) (s : state) (a : A) (s' : state) :
  delivers m -> intr s = None -> m s = (Ret a, s') -> intr s' = None.
Proof.
  intros Hd Hs Hm. specialize (Hd s). rewrite Hm in Hd. simpl in Hd. tauto.
Qed.

(** *** The progress line is cleared last *)

Lemma last_snoc A (l : list A) (a d : A) : last (l ++ [a]) d = a.
Proof.
  induction l as [|x l IH]; [reflexivity|].
  simpl. destruct (l ++ [a])%list eqn:E; [destruct l; discriminate | exact IH].
Qed.

Lemma progress_loop_draws (w : world) fuel total prefix start :
  stable (quiet drawing) (progress_loop w fuel total prefix start).
Proof.
  apply closed_progress_loop with (Phi := fun A => @stable A (quiet drawing)) (ok := drawing);
    quiet_prims. assumption.
Qed.

Lemma progress_bar_cleared (w : world) fuel total prefix (s s' : state) :
  progress_bar w fuel total prefix s = (Ret tt, s') -> cleared s s'.
Proof.
  unfold progress_bar, bind, time_time. intros H.
  match type of H with
  | context [progress_loop ?a ?b ?c ?d ?e ?f] =>
      pose proof (progress_loop_draws a b c d e f) as Hq;
      destruct (progress_loop a b c d e f) as [[[]|e'|] s2]; try discriminate
  end.
  destruct Hq as [_ (evs & Ho & _)]. simpl in Ho.
  unfold write, emit, bind, step in H.
  destruct (intr s2) as [[|k]|]; simpl in H; try discriminate;
    injection H as <-;
    exists (evs ++ [Write ClearLine])%list;
    (split; [simpl; rewrite Ho, app_assoc; reflexivity|]);
    rewrite writes_app; simpl; apply last_snoc.
Qed.

Lemma quiet_no_writes (s s' : state) :
  quiet not_write s s' -> exists evs, out s' = (out s ++ evs)%list /\ writes evs = [].
Proof.
  intros [_ (evs & Ho & Hok)]. exists evs. split; [exact Ho|].
  clear Ho. induction evs as [|e evs IH]; [reflexivity|].
  simpl in Hok. apply andb_prop in Hok as [He Hevs].
  destruct e; simpl; try discriminate; auto.
Qed.

Lemma cleared_quiet (s1 s s' : state) :
  cleared s1 s -> quiet not_write s s' -> cleared s1 s'.
Proof.
  intros (evs & Ho & Hl) Hq. destruct (quiet_no_writes Hq) as (evs' & Ho' & Hw).
  exists (evs ++ evs')%list. rewrite Ho', Ho, app_assoc, writes_app, Hw, app_nil_r.
  split; [reflexivity | exact Hl].
Qed.

Lemma cleared_after (s1 s s' : state) :
  (exists evs, out s = (out s1 ++ evs)%list) -> cleared s s' -> cleared s1 s'.
Proof.
  intros (evs & Ho) (evs' & Ho' & Hl). exists (evs ++ evs')%list.
  rewrite Ho', Ho, app_assoc, writes_app. split; [reflexivity|].
  destruct (writes evs') as [|d ds] eqn:E; [discriminate|].
  clear - Hl. induction (writes evs) as [|x l IH]; [exact Hl|].
  simpl. destruct (l ++ d :: ds)%list eqn:E; [destruct l; discriminate | exact IH].
Qed.

Lemma guided_tick_cleared (w : world) fuel script total start i (s1 : state) :
  triple (cleared s1) (guided_tick w fuel script total start i)
         (fun _ => cleared s1) (fun _ => True).
Proof.
  unfold guided_tick.
  eapply triple_bind.
  { eapply triple_stable with (R := quiet not_write) (P' := cleared s1);
      [apply time_quiet | intros s s'; apply cleared_quiet | auto]. }
  intros now. cbv beta.
  destruct (Qle_bool total (now - start)); [apply triple_ret; auto|].
  eapply triple_bind.
  { eapply triple_stable with (R := quiet not_write) (P' := cleared s1);
      [apply play_due_quiet; reflexivity | intros s s'; apply cleared_quiet | auto]. }
  intros i'. cbv beta. eapply triple_bind with (Q := fun _ => cleared s1).
  - intros s Hs.
    destruct (progress_bar w fuel (max0 (total - (now - start))) "Guided:" s)
      as [[[]|e|] s'] eqn:Ep; auto.
    eapply cleared_after; [|eapply progress_bar_cleared; exact Ep].
    destruct Hs as (evs & Ho & _). exists evs. exact Ho.
  - intros []. apply triple_ret. auto.
Qed.

Lemma guided_loop_cleared (w : world) fuel script total start (s1 : state) :
  forall i, triple (cleared s1) (guided_loop w fuel script total start i)
                   (fun _ => cleared s1) (fun _ => True).
Proof.
  induction fuel as [|fuel IH]; intros i; simpl.
  - intros s Hs. simpl. exact I.
  - eapply triple_bind; [apply guided_tick_cleared|].
    intros [i'|]; cbv beta; [apply IH | apply triple_ret; auto].
Qed.

(** *** The run itself *)

Lemma guided_session_split (w : world) (fuel : nat) (script : list cue) (d : num)
  (s : state) :
  intr s = None ->
  guided_session w fuel script d s =
    (guided_loop w fuel script (value (num_mul d (Int 60))) (clock w (reads s)) 0 ;;
     bell ;;
     print_centered session_complete ;;
     log_session w ("Guided " ++ str_num w d ++ " min") d "" ;;
     input w "Press Enter to return to menu..." ;;
     ret tt)
    (mkState (S (reads s)) (typed s) None ((out s ++ [Clear]) ++ [Bell]) (logf s)).
Proof.
  intros Hs. destruct s as [rd ty it ou lg]. simpl in Hs. subst it. reflexivity.
Qed.

Lemma guided_tail_run (w : world) (kind : string) (d : num) (s : state) :
  intr s = None ->
  (bell ;;
   print_centered session_complete ;;
   log_session w kind d "" ;;
   input w "Press Enter to return to menu..." ;;
   ret tt) s =
  (Ret tt,
   mkState (S (reads s)) (S (typed s)) None
     (out s ++ [Bell; PrintCentered session_complete;
                Prompt "Press Enter to return to menu..."])
     (Some (lines s ++ header_if_new s ++ [Row (mkRow (clock w (reads s)) kind d "")]))).
Proof.
  intros Hs. destruct s as [rd ty it ou lg]. simpl in Hs. subst it.
  unfold bell, print_centered, emit, input, read_line, log_session, bind, step, emit,
    time_time, path_exists, open_append, append_line, bind, step, lines, header_if_new.
  destruct lg as [l|]; simpl; rewrite <- ?app_assoc; simpl; reflexivity.
Qed.

Lemma first_tick (w : world) (fuel : nat) (total start : Q) (s : state) :
  intr s = None ->
  (total == 10)%Q -> (clock w (reads s) - start == 0)%Q ->
  guided_tick w fuel script1 total start 0 s =
    (progress_bar w fuel (max0 (total - (clock w (reads s) - start))) "Guided:" ;;
     ret (Some 1%nat))
    (mkState (S (reads s)) (typed s) None
             ((out s ++ [Print ""]) ++ [PrintCentered "A"]) (logf s)).
Proof.
  intros Hs Ht He. destruct s as [rd ty it ou lg]. simpl in Hs. subst it.
  unfold guided_tick, bind at 1, time_time. cbn [reads fst snd].
  assert (H1 : Qle_bool total (clock w rd - start) = false).
  { destruct (Qle_bool total (clock w rd - start)) eqn:E; [|reflexivity].
    apply Qle_bool_iff in E. rewrite Ht, He in E. exfalso. apply E. reflexivity. }
  assert (H2 : Qle_bool 0 (clock w rd - start) = true).
  { apply Qle_bool_iff. rewrite He. apply Qle_refl. }
  assert (H3 : Qle_bool 5 (clock w rd - start) = false).
  { destruct (Qle_bool 5 (clock w rd - start)) eqn:E; [|reflexivity].
    apply Qle_bool_iff in E. rewrite He in E. exfalso. apply E. reflexivity. }
  simpl in H1 |- *. rewrite H1.
  unfold script1, skipn, play_due. rewrite H2, H3. reflexivity.
Qed.

Lemma same_news (a b c : list event) : (a ++ b = a ++ c)%list -> b = c.
Proof. apply app_inv_head. Qed.

(** *** The run returns *)

Lemma play_due_refines (rest : list cue) (elapsed : Q) (i : nat) (s : state) :
  intr s = None ->
  play_due rest elapsed i s =
    (Ret (snd (due_loop rest elapsed i)),
     add_outs (flat_map (fun t => [Print ""; PrintCentered t])
                        (fst (due_loop rest elapsed i))) s).
Proof.
  revert i s. induction rest as [|[offset text] rest IH]; intros i s Hs; simpl.
  - rewrite add_outs_nil. reflexivity.
  - destruct (Qle_bool offset elapsed).
    + unfold print, print_centered, bind.
      rewrite !emit_run by (simpl; exact Hs).
      rewrite IH by (simpl; exact Hs).
      destruct (due_loop rest elapsed (S i)) as [ts j]. simpl.
      rewrite !add_outs_app. reflexivity.
    + rewrite add_outs_nil. reflexivity.
Qed.

Lemma cue_prints_played (ts : list string) :
  cue_prints (flat_map (fun t => [Print ""; PrintCentered t]) ts) = ts.
Proof. induction ts as [|t ts IH]; simpl; [reflexivity | rewrite IH; reflexivity]. Qed.

Lemma progress_loop_returns (w : world) (total : Q) (prefix : string) (start : Q) (N : nat) :
  (0 < total)%Q -> (total <= clock w N - start)%Q ->
  forall fuel s,
    intr s = None -> (reads s <= N)%nat -> (N - reads s < fuel)%nat ->
    exists s',
      progress_loop w fuel total prefix start s = (Ret tt, s') /\
      intr s' = None /\ (reads s < reads s' <= S N)%nat /\
      (total <= clock w (reads s' - 1) - start)%Q.
Proof.
  intros Ht HN. induction fuel as [|fuel IH]; intros s Hs Hr Hf; [lia|].
  simpl. unfold bind at 1, time_time. cbn [reads fst snd].
  destruct (Qle_bool total (clock w (reads s) - start)) eqn:E.
  - eexists. split; [reflexivity|]. simpl. rewrite Nat.sub_0_r.
    repeat split; try assumption; try lia. apply Qle_bool_iff. exact E.
  - assert (Hlt : (reads s < N)%nat).
    { destruct (Nat.eq_dec (reads s) N) as [Heq|]; [|lia].
      rewrite Heq in E. apply Qle_bool_iff in HN. congruence. }
    unfold render, truediv.
    assert (Hnz : Qeq_bool total 0 = false).
    { destruct (Qeq_bool total 0) eqn:Ez; [|reflexivity].
      apply Qeq_bool_eq in Ez. rewrite Ez in Ht. discriminate. }
    rewrite Hnz. unfold bind, lift, write, flush, sleep.
    rewrite !emit_run by (simpl; exact Hs).
    match goal with
    | |- context [progress_loop w fuel total prefix start ?st] =>
        destruct (IH st) as (s' & Hrun & Hi & Hrd & Hlast);
        [exact Hs | simpl; lia | simpl; lia |]
    end.
    rewrite Hrun. exists s'. simpl in Hrd.
    repeat split; try assumption; lia.
Qed.

Lemma progress_bar_returns (w : world) (fuel : nat) (total : Q) (prefix : string)
  (N : nat) (s : state) :
  (0 < total)%Q -> (total <= clock w N - clock w (reads s))%Q ->
  intr s = None -> (reads s < N)%nat -> (N - reads s <= fuel)%nat ->
  exists s',
    progress_bar w fuel total prefix s = (Ret tt, s') /\
    intr s' = None /\ (S (reads s) < reads s' <= S N)%nat /\
    (total <= clock w (reads s' - 1) - clock w (reads s))%Q.
Proof.
  intros Ht HN Hs Hr Hf. unfold progress_bar, bind, time_time. cbn [reads fst snd].
  match goal with
  | |- context [progress_loop w fuel total prefix ?st0 ?st] =>
      destruct (@progress_loop_returns w total prefix st0 N Ht HN fuel st)
        as (s' & Hrun & Hi & Hrd & Hlast); [exact Hs | simpl; lia | simpl; lia |]
  end.
  rewrite Hrun. unfold write. rewrite emit_run by exact Hi.
  eexists. split; [reflexivity|]. simpl in *. repeat split; try assumption; lia.
Qed.

(** On a clock that never runs backwards the loop of [guided_session] makes
    one full iteration: [progress_bar] is handed the whole remaining time,
    so the next reading of the clock ends the loop.  The cues printed are
    those due at the first reading; later cues never play. *)
Lemma guided_loop_plays_once (w : world) (script : list cue) (total start : Q) (N : nat) :
  monotone w ->
  forall fuel i s,
    intr s = None ->
    (start <= clock w (reads s))%Q ->
    (S (reads s) < N)%nat ->
    (total <= clock w N - clock w (S (reads s)))%Q ->
    (S (N - reads s) < fuel)%nat ->
    exists s',
      guided_loop w fuel script total start i s = (Ret tt, s') /\
      intr s' = None /\
      cue_prints (news s s') =
        if Qle_bool total (clock w (reads s) - start) then []
        else fst (next_due script i (clock w (reads s) - start)).
Proof.
  intros Hmono fuel i s Hs Hstart Hr HN Hf.
  destruct fuel as [|fuel]; [lia|]. simpl.
  unfold guided_tick, bind, time_time. cbn [reads fst snd]. cbv zeta.
  set (elapsed := (clock w (reads s) - start)%Q).
  destruct (Qle_bool total elapsed) eqn:E.
  { eexists. split; [reflexivity|]. split; [exact Hs|].
    unfold news. simpl. rewrite skipn_all. reflexivity. }
  cbv beta.
  assert (He : (elapsed < total)%Q).
  { apply Qnot_le_lt. intros H. apply Qle_bool_iff in H. congruence. }
  assert (He0 : (0 <= elapsed)%Q) by (unfold elapsed; lra).
  assert (Hpos : (0 < total - elapsed)%Q) by lra.
  assert (Hrem : max0 (total - elapsed) = (total - elapsed)%Q).
  { unfold max0. destruct (Qle_bool (total - elapsed) 0) eqn:Em; [|reflexivity].
    apply Qle_bool_iff in Em. exfalso. eapply Qlt_not_le; eauto. }
  rewrite Hrem. rewrite play_due_refines by exact Hs.
  fold (next_due script i elapsed).
  set (played := flat_map (fun t => [Print ""; PrintCentered t])
                          (fst (next_due script i elapsed))).
  match goal with
  | |- context [progress_bar w fuel ?t ?p ?st] =>
      destruct (@progress_bar_returns w fuel t p N st Hpos) as (s6 & Hbar & Hi6 & Hrd & Hlast);
      [ | exact Hs | simpl; lia | simpl; lia | ];
      [ | pose proof (progress_bar_draws w fuel t p st) as Hdraw ]
  end.
  { simpl. lra. }
  rewrite Hbar in Hdraw |- *. simpl in Hrd, Hlast, Hdraw. cbn [ret].
  destruct (@quiet_no_cues _ s6 (quiet_weaken _ drawing_not_cue Hdraw)) as (evs6 & Ho6 & Hc6).
  simpl in Ho6.
  (* the second iteration breaks *)
  destruct fuel as [|fuel]; [lia|]. simpl.
  unfold guided_tick, bind, time_time. cbn [reads fst snd]. cbv zeta.
  assert (Hdone : Qle_bool total (clock w (reads s6) - start) = true).
  { apply Qle_bool_iff.
    assert (Hk : (clock w (reads s6 - 1) <= clock w (reads s6))%Q).
    { replace (reads s6) with (S (reads s6 - 1)) at 2 by lia. apply Hmono. }
    assert (Hm : (clock w (reads s) <= clock w (S (reads s)))%Q) by apply Hmono.
    unfold elapsed in Hlast. lra. }
  rewrite Hdone. eexists. split; [reflexivity|]. split; [exact Hi6|].
  rewrite (news_app s _ (played ++ evs6)).
  - rewrite cue_prints_app, Hc6, app_nil_r. apply cue_prints_played.
  - simpl. rewrite Ho6, app_assoc. reflexivity.
Qed.

Lemma guided_loop_returns (w : world) (script : list cue) (total start : Q) (N : nat) :
  monotone w ->
  forall fuel i s,
    intr s = None ->
    (start <= clock w (reads s))%Q ->
    (S (reads s) < N)%nat ->
    (total <= clock w N - clock w (S (reads s)))%Q ->
    (S (N - reads s) < fuel)%nat ->
    fst (guided_loop w fuel script total start i s) = Ret tt.
Proof.
  intros Hmono fuel i s Hs Hstart Hr HN Hf.
  destruct (@guided_loop_plays_once w script total start N Hmono fuel i s Hs Hstart Hr HN Hf)
    as (s' & Hrun & _).
  rewrite Hrun. reflexivity.
Qed.


Lemma half_second_clock_monotone (typed : list string) : monotone (sample_world typed).
Proof.
  intros n. simpl. unfold half_second_clock, Qdiv.
  apply Qmult_le_compat_r; [|discriminate].
  rewrite <- Zle_Qle. lia.
Qed.

(** C1, as amended: in an uninterrupted run of the guided session over the
    script [(0,A),(5,B),(5,C),(10,D)] with a total of 10 seconds whose first
    tick sees elapsed = 0 and which returns, "A" is the first cue printed;
    "D", whose offset equals the total, is never printed (the cues printed
    are a prefix of A, B, C), since the loop breaks as soon as elapsed
    reaches the total; the session then completes: end bell, completion
    message, one row logged with duration 1/6 minute.  No bar that is drawn
    is full (at most 29 of 30 slots) and the last write to the progress line
    clears it. *)
Theorem guided_scenario (w : world) (fuel N : nat) (s : state) :
  intr s = None ->
  monotone w ->
  (clock w (S (reads s)) - clock w (reads s) == 0)%Q ->
  (S (S (reads s)) < N)%nat ->
  (10 <= clock w N - clock w (S (S (reads s))))%Q ->
  (S N < fuel)%nat ->
  let s' := snd (guided_session w fuel script1 (Float (1 # 6)) s) in
  let evs := news s s' in
  fst (guided_session w fuel script1 (Float (1 # 6)) s) = Ret tt /\
  (exists j, (1 <= j <= 3)%nat /\
             cue_prints evs = (map snd (firstn j script1) ++ [session_complete])%list) /\
  hd_error (cue_prints evs) = Some "A"%string /\
  ~ In "D"%string (cue_prints evs) /\
  Forall (fun f => (f <= 29)%Z) (bar_fills evs) /\
  last (writes evs) (BarLine "" 30 0 0) = ClearLine /\
  bells evs = 2%nat /\
  exists ts,
    lines s' =
      (lines s ++ header_if_new s
         ++ [Row (mkRow ts ("Guided " ++ fmt_float w (1 # 6) ++ " min")
                        (Float (1 # 6)) "")])%list.
Proof.
  intros Hs Hmono Hel HN Hreachable Hfuel s' evs.
  assert (Hret : fst (guided_session w fuel script1 (Float (1 # 6)) s) = Ret tt).
  { rewrite guided_session_split by exact Hs. unfold bind at 1.
    match goal with
    | |- context [guided_loop w fuel script1 ?t ?st0 0 ?st] =>
        pose proof (@guided_loop_returns w script1 t st0 N Hmono fuel 0%nat st) as Hl;
        pose proof (delivers_guided_loop w fuel script1 t st0 0 st) as Hd;
        destruct (guided_loop w fuel script1 t st0 0 st) as [[[]|e|] s7] eqn:Eloop
    end.
    - rewrite guided_tail_run; [reflexivity|].
      simpl in Hd. apply Hd. reflexivity.
    - simpl in Hl. discriminate Hl; try reflexivity; try apply Hmono; try (simpl; lia).
      eapply Qle_trans; [|exact Hreachable]. discriminate.
    - simpl in Hl. discriminate Hl; try reflexivity; try apply Hmono; try (simpl; lia).
      eapply Qle_trans; [|exact Hreachable]. discriminate. }
  split; [exact Hret|].
  unfold evs, s' in *. clear evs s'.
  destruct (guided_session w fuel script1 (Float (1 # 6)) s) as [r sF] eqn:Erun.
  simpl in Hret. subst r. cbn [snd].
  rewrite guided_session_split in Erun by exact Hs.
  set (total := value (num_mul (Float (1 # 6)) (Int 60))) in *.
  assert (Ht : (total == 10)%Q) by reflexivity.
  set (start := clock w (reads s)) in *.
  set (s3 := mkState (S (reads s)) (typed s) None ((out s ++ [Clear]) ++ [Bell]) (logf s)) in *.
  unfold bind at 1 in Erun.
  destruct (guided_loop w fuel script1 total start 0 s3) as [[[]|e|] s7] eqn:Eloop;
    try discriminate.
  assert (Hs7 : intr s7 = None).
  { eapply delivers_ret_state; [apply delivers_guided_loop | | exact Eloop]. reflexivity. }
  (* what the loop as a whole guarantees *)
  pose proof (guided_loop_quiet w fuel script1 total start 0 s3) as Hq.
  pose proof (guided_loop_fills w fuel script1 total start 0 s3) as Hf.
  rewrite Eloop in Hq, Hf. simpl in Hq, Hf.
  destruct (quiet_no_bells Hq) as (Hlog & evsL & Hout & Hbells).
  destruct Hf as [_ (evsF & HoutF & Hfill)].
  rewrite Hout in HoutF. apply same_news in HoutF. subst evsF.
  (* the first tick *)
  assert (Hfirst : exists j, (1 <= j)%nat /\ printed script1 total s3 j s7 /\ cleared s3 s7).
  { destruct fuel as [|f]; [discriminate|]. simpl in Eloop. unfold bind at 1 in Eloop.
    rewrite first_tick in Eloop by (try reflexivity; assumption).
    unfold bind at 1 in Eloop.
    match type of Eloop with
    | context [progress_bar ?a ?b ?c ?d ?e] =>
        pose proof (progress_bar_draws a b c d e) as Hd;
        destruct (progress_bar a b c d e) as [[[]|e'|] s6] eqn:Ebar; try discriminate
    end.
    simpl in Hd, Eloop.
    assert (Hp1 : printed script1 total s3 1 s6).
    { destruct (@quiet_no_cues _ s6 (quiet_weaken _ drawing_not_cue Hd))
        as (evs6 & Ho6 & Hc6).
      split; [simpl; lia|]. split.
      - simpl. constructor; [rewrite Ht; reflexivity | constructor].
      - exists ([Print ""; PrintCentered "A"] ++ evs6)%list. split.
        + rewrite Ho6. simpl. rewrite <- !app_assoc. reflexivity.
        + rewrite cue_prints_app, Hc6. reflexivity. }
    assert (Hc1 : cleared s3 s6).
    { eapply cleared_after; [|eapply progress_bar_cleared; exact Ebar].
      exists [Print ""; PrintCentered "A"]. simpl. rewrite <- !app_assoc. reflexivity. }
    pose proof (guided_loop_printed w start f Hp1) as Hp.
    pose proof (guided_loop_cleared w f script1 total start 1 Hc1) as Hc.
    rewrite Eloop in Hp, Hc. destruct Hp as (j & Hj & Hp). exists j. auto. }
  destruct Hfirst as (j & Hj1 & (Hj4 & Hreach & evsP & HoutP & Hcues) & (evsC & HoutC & Hlast)).
  rewrite Hout in HoutP, HoutC. apply same_news in HoutP, HoutC. subst evsP evsC.
  assert (Hj3 : (j <= 3)%nat).
  { simpl in Hj4. destruct (Nat.eq_dec j 4) as [->|]; [|lia].
    rewrite Forall_forall in Hreach.
    assert (H4 : (fst (10%Q, "D"%string) < total)%Q).
    { apply Hreach. simpl. auto. }
    simpl in H4. rewrite Ht in H4. vm_compute in H4. discriminate H4. }
  (* the end of the session *)
  rewrite guided_tail_run in Erun by exact Hs7. injection Erun as <-.
  match goal with
  | |- context [news s ?sf] =>
      assert (Hnews : news s sf
                      = ([Clear; Bell] ++ evsL
                         ++ [Bell; PrintCentered session_complete;
                             Prompt "Press Enter to return to menu..."])%list)
  end.
  { apply news_app. simpl. rewrite Hout. unfold s3. simpl.
    rewrite <- !app_assoc. reflexivity. }
  rewrite !Hnews.
  assert (Hcp : cue_prints ([Clear; Bell] ++ evsL
                     ++ [Bell; PrintCentered session_complete;
                         Prompt "Press Enter to return to menu..."])
                = (map snd (firstn j script1) ++ [session_complete])%list).
  { rewrite !cue_prints_app, Hcues. reflexivity. }
  rewrite !Hcp.
  assert (Hcases : j = 1%nat \/ j = 2%nat \/ j = 3%nat) by lia.
  split; [exists j; split; [lia | reflexivity]|].
  split; [destruct Hcases as [->|[->| ->]]; reflexivity|].
  split.
  { unfold session_complete.
    destruct Hcases as [->|[->| ->]]; simpl; intros H;
      repeat (destruct H as [H|H]; [discriminate H|]); exact H. }
  split.
  { rewrite !bar_fills_app. simpl. rewrite app_nil_r. apply fills_bound. exact Hfill. }
  split.
  { rewrite !writes_app. simpl. rewrite app_nil_r. exact Hlast. }
  split.
  { rewrite !bells_app, Hbells. reflexivity. }
  exists (clock w (reads s7)).
  unfold lines, header_if_new. simpl. rewrite Hlog. reflexivity.
Qed.

Lemma guided_scenario_witness :
  let w := sample_world [] in
  let s := start_state in
  let s' := snd (guided_session w 100 script1 (Float (1 # 6)) s) in
  let evs := news s s' in
  fst (guided_session w 100 script1 (Float (1 # 6)) s) = Ret tt /\
  (exists j, (1 <= j <= 3)%nat /\
             cue_prints evs = (map snd (firstn j script1) ++ [session_complete])%list) /\
  hd_error (cue_prints evs) = Some "A"%string /\
  ~ In "D"%string (cue_prints evs) /\
  Forall (fun f => (f <= 29)%Z) (bar_fills evs) /\
  last (writes evs) (BarLine "" 30 0 0) = ClearLine /\
  bells evs = 2%nat /\
  exists ts,
    lines s' =
      (lines s ++ header_if_new s
         ++ [Row (mkRow ts ("Guided " ++ fmt_float w (1 # 6) ++ " min")
                        (Float (1 # 6)) "")])%list.
Proof.
  apply (@guided_scenario (sample_world []) 100 22 start_state).
  - reflexivity.
  - apply half_second_clock_monotone.
  - vm_compute. reflexivity.
  - simpl. lia.
  - vm_compute. congruence.
  - lia.
Defined.

(** C1 as stated fails: on a clock read every half second the run prints
    "A" and the completion message only; "D" is never printed, and no bar
    that is drawn has its thirty slots filled. *)
Lemma guided_scenario_as_stated_fails :
  let run := guided_session (sample_world []) 100 script1 (Float (1 # 6)) start_state in
  fst run = Ret tt /\
  cue_prints (out (snd run)) = ["A"%string; session_complete] /\
  ~ In "D"%string (cue_prints (out (snd run))) /\
  ~ In 30%Z (bar_fills (out (snd run))) /\
  last (writes (out (snd run))) (BarLine "" 30 0 0) = ClearLine.
Proof.
  vm_compute. repeat split; try reflexivity; intros H;
    repeat (destruct H as [H|H]; [discriminate H|]); exact H.
Qed.

(** ** C2: what the menu lets through *)

(** C2: the code does not do what the claim says.  Choice 5 with zero
    cycles is not rejected: box_breathing runs, rings its
    two bells and logs a row of duration 0; so does the body scan with a
    negative duration.  The custom timer, the sibling path, rejects a
    duration of 0: no bell, nothing logged. *)
Lemma nonpositive_parameters_not_rejected :
  let box := main (sample_world ["5"; "0"; ""; ""; ""; ""; "0"]%string) 10 start_state in
  let scan := main (sample_world ["6"; "-3"; ""; "0"]%string) 10 start_state in
  let timer := main (sample_world ["4"; "0"; ""; "0"]%string) 10 start_state in
  (fst box = Ret tt /\ bells (out (snd box)) = 2%nat /\
   map (fun l => match l with Header => None | Row r => Some (kind r, duration_min r) end)
       (lines (snd box))
   = [None; Some ("Box breathing"%string, Float (0 # 60))]) /\
  (fst scan = Ret tt /\ bells (out (snd scan)) = 2%nat /\
   map (fun l => match l with Header => None | Row r => Some (kind r, duration_min r) end)
       (lines (snd scan))
   = [None; Some ("Body-scan -3 min"%string, Int (-3))]) /\
  (fst timer = Ret tt /\ bells (out (snd timer)) = 0%nat /\ logf (snd timer) = None).
Proof.
  vm_compute. repeat split; reflexivity.
Qed.

(** * Further properties of the code *)

(** ** progress_bar *)

Lemma emit_cases (e : event) (s : state) :
  emit e s = (Raise KeyboardInterrupt, set_intr None s) \/
  exists s1,
    emit e s = (Ret tt, s1) /\ out s1 = (out s ++ [e])%list /\
    reads s1 = reads s /\ typed s1 = typed s /\ logf s1 = logf s /\
    (intr s = None -> intr s1 = None).
Proof.
  unfold emit, bind, step. destruct (intr s) as [[|k]|] eqn:E; simpl.
  - left. reflexivity.
  - right. eexists. split; [reflexivity|]. simpl.
    split; [reflexivity|]. split; [reflexivity|]. split; [reflexivity|].
    split; [reflexivity|]. intros; discriminate.
  - right. eexists. split; [reflexivity|]. simpl.
    split; [reflexivity|]. split; [reflexivity|]. split; [reflexivity|].
    split; [reflexivity|]. intros; exact E.
Qed.

Lemma emit_ret (e : event) (s s' : state) :
  emit e s = (Ret tt, s') ->
  out s' = (out s ++ [e])%list /\ reads s' = reads s /\ typed s' = typed s /\
  logf s' = logf s.
Proof.
  intros H. destruct (emit_cases e s) as [Hr|(s1 & Hs1 & Ho & Hr & Ht & Hl & _)].
  - rewrite Hr in H. discriminate.
  - rewrite Hs1 in H. injection H as <-. repeat split; assumption.
Qed.

Lemma progress_loop_waits (w : world) (total : Q) (prefix : string) (start : Q) :
  forall fuel s s',
    progress_loop w fuel total prefix start s = (Ret tt, s') ->
    (reads s < reads s')%nat /\
    (total <= clock w (reads s' - 1) - start)%Q /\
    (forall k, (reads s <= k < reads s' - 1)%nat -> (clock w k - start < total)%Q) /\
    typed s' = typed s /\ logf s' = logf s.
Proof.
  induction fuel as [|fuel IH]; intros s s' H; simpl in H; [discriminate|].
  unfold bind at 1, time_time in H. cbn [reads fst snd] in H.
  destruct (Qle_bool total (clock w (reads s) - start)) eqn:E.
  - injection H as <-. simpl. rewrite Nat.sub_0_r.
    repeat split; try lia. apply Qle_bool_iff. exact E.
  - assert (Hlt : (clock w (reads s) - start < total)%Q).
    { apply Qnot_le_lt. intros Hle. apply Qle_bool_iff in Hle. congruence. }
    unfold bind, lift in H.
    destruct (render total (clock w (reads s) - start) prefix) as [d|e|]; try discriminate.
    unfold write, flush, sleep in H.
    match type of H with
    | context [emit ?e ?st] =>
        destruct (emit e st) as [[[]|e1|] s1] eqn:E1; try discriminate;
        apply emit_ret in E1; destruct E1 as (_ & Hr1 & Ht1 & Hl1)
    end.
    destruct (emit Flush s1) as [[[]|e2|] s2] eqn:E2; try discriminate.
    apply emit_ret in E2. destruct E2 as (_ & Hr2 & Ht2 & Hl2).
    destruct (emit (Sleep (1 # 2)) s2) as [[[]|e3|] s3] eqn:E3; try discriminate.
    apply emit_ret in E3. destruct E3 as (_ & Hr3 & Ht3 & Hl3).
    destruct (IH _ _ H) as (Hrd & Hlast & Hbefore & Hty & Hlg).
    simpl in Hr1, Ht1, Hl1.
    assert (Hr : reads s3 = S (reads s)) by congruence.
    rewrite Hr in *.
    repeat split; try lia; try assumption; try congruence.
    intros k Hk. destruct (Nat.eq_dec k (reads s)) as [->|Hne]; [exact Hlt|].
    apply Hbefore. lia.
Qed.

(** X1: progress_bar never returns early.  Whatever the clock does, when
    progress_bar returns the reading that ended its loop was at least
    total_seconds after its first reading, and every reading before it was
    not; it has consumed no input and left the log file alone. *)
Theorem progress_bar_waits (w : world) (fuel : nat) (total : Q) (prefix : string)
  (s s' : state) :
  progress_bar w fuel total prefix s = (Ret tt, s') ->
  (S (reads s) < reads s')%nat /\
  (total <= clock w (reads s' - 1) - clock w (reads s))%Q /\
  (forall k, (S (reads s) <= k < reads s' - 1)%nat ->
             (clock w k - clock w (reads s) < total)%Q) /\
  typed s' = typed s /\ logf s' = logf s.
Proof.
  unfold progress_bar, bind, time_time. cbn [reads fst snd]. intros H.
  match type of H with
  | context [progress_loop w fuel total prefix ?st0 ?st] =>
      destruct (progress_loop w fuel total prefix st0 st) as [[[]|e|] s2] eqn:El;
      try discriminate
  end.
  apply progress_loop_waits in El. simpl in El.
  destruct El as (Hrd & Hlast & Hbefore & Hty & Hlg).
  unfold write in H. apply emit_ret in H. destruct H as (_ & Hr & Ht & Hl).
  rewrite Hr, Ht, Hl. repeat split; try lia; assumption.
Qed.

Lemma progress_bar_waits_witness :
  let w := sample_world [] in
  let s := start_state in
  let s' := snd (progress_bar w 100 2 "Timer:" s) in
  (S (reads s) < reads s')%nat /\
  (2 <= clock w (reads s' - 1) - clock w (reads s))%Q /\
  (forall k, (S (reads s) <= k < reads s' - 1)%nat ->
             (clock w k - clock w (reads s) < 2)%Q) /\
  typed s' = typed s /\ logf s' = logf s.
Proof.
  apply (@progress_bar_waits (sample_world []) 100 2 "Timer:" start_state).
  vm_compute. reflexivity.
Defined.

(** X2: progress_bar returns once the clock has got there.  Uninterrupted,
    with total_seconds > 0 and a reading N at least total_seconds after the
    first one, the loop ends at or before reading N (given that many
    iterations), and progress_bar returns. *)
Theorem progress_bar_completes (w : world) (fuel : nat) (total : Q) (prefix : string)
  (N : nat) (s : state) :
  (0 < total)%Q ->
  (total <= clock w N - clock w (reads s))%Q ->
  intr s = None -> (reads s < N)%nat -> (N - reads s <= fuel)%nat ->
  fst (progress_bar w fuel total prefix s) = Ret tt /\
  (reads (snd (progress_bar w fuel total prefix s)) <= S N)%nat /\
  intr (snd (progress_bar w fuel total prefix s)) = None.
Proof.
  intros Ht HN Hs Hr Hf.
  destruct (@progress_bar_returns w fuel total prefix N s Ht HN Hs Hr Hf)
    as (s' & Hrun & Hi & Hrd & _).
  rewrite Hrun. simpl. repeat split; [lia | exact Hi].
Qed.

Lemma progress_bar_completes_witness :
  let w := sample_world [] in
  let s := start_state in
  fst (progress_bar w 5 2 "Timer:" s) = Ret tt /\
  (reads (snd (progress_bar w 5 2 "Timer:" s)) <= 6)%nat /\
  intr (snd (progress_bar w 5 2 "Timer:" s)) = None.
Proof.
  apply (@progress_bar_completes (sample_world []) 5 2 "Timer:" 5 start_state);
    try (vm_compute; congruence); simpl; lia.
Defined.

Lemma monotone_le (w : world) (n m : nat) :
  monotone w -> (n <= m)%nat -> (clock w n <= clock w m)%Q.
Proof.
  intros Hm H. induction H as [|m H IH]; [apply Qle_refl|].
  eapply Qle_trans; [exact IH | apply Hm].
Qed.

Lemma int_of_float_nonpos (x : Q) : (x <= 0)%Q -> int_of_float x = Qceiling x.
Proof.
  destruct x as [n d]. unfold Qle, int_of_float, Qceiling, Qfloor, Qopp. simpl.
  intros H. rewrite Z.mul_1_r in H.
  replace n with (- (- n))%Z at 1 by lia.
  rewrite Z.quot_opp_l by lia. f_equal. apply Z.quot_div_nonneg; lia.
Qed.

Lemma int_of_float_mono (x y : Q) : (x <= y)%Q -> (int_of_float x <= int_of_float y)%Z.
Proof.
  intros H. destruct (Qlt_le_dec x 0) as [Hx|Hx]; destruct (Qlt_le_dec y 0) as [Hy|Hy].
  - rewrite !int_of_float_nonpos by (apply Qlt_le_weak; assumption).
    apply Qceiling_resp_le. exact H.
  - rewrite (int_of_float_nonpos (x := x)) by (apply Qlt_le_weak; assumption).
    rewrite (int_of_float_nonneg (x := y)) by exact Hy.
    apply Z.le_trans with 0%Z.
    + change 0%Z with (Qceiling 0). apply Qceiling_resp_le. apply Qlt_le_weak. exact Hx.
    + change 0%Z with (Qfloor 0). apply Qfloor_resp_le. exact Hy.
  - exfalso. apply (Qlt_not_le _ _ Hy). eapply Qle_trans; eauto.
  - rewrite !int_of_float_nonneg by assumption. apply Qfloor_resp_le. exact H.
Qed.

Lemma filled_mono (total e1 e2 : Q) :
  (0 < total)%Q -> (e1 <= e2)%Q ->
  (filled_of (e1 / total) <= filled_of (e2 / total))%Z.
Proof.
  intros Ht H. unfold filled_of. apply int_of_float_mono.
  apply Qmult_le_compat_r; [|discriminate].
  unfold Qdiv. apply Qmult_le_compat_r; [exact H|].
  apply Qinv_le_0_compat. apply Qlt_le_weak. exact Ht.
Qed.

Lemma progress_loop_ascends (w : world) (total : Q) (prefix : string) (start : Q) :
  monotone w -> (0 < total)%Q ->
  forall fuel s,
    exists evs,
      out (snd (progress_loop w fuel total prefix start s)) = (out s ++ evs)%list /\
      ascending (bar_fills evs) /\
      Forall (fun f => (filled_of ((clock w (reads s) - start) / total) <= f)%Z)
             (bar_fills evs).
Proof.
  intros Hmono Ht.
  assert (Hnz : Qeq_bool total 0 = false).
  { destruct (Qeq_bool total 0) eqn:Ez; [|reflexivity].
    apply Qeq_bool_eq in Ez. rewrite Ez in Ht. discriminate. }
  assert (Hnil : forall s s' : state, out s' = out s ->
            exists evs, out s' = (out s ++ evs)%list /\ ascending (bar_fills evs) /\
              Forall (fun f => (filled_of ((clock w (reads s) - start) / total) <= f)%Z)
                     (bar_fills evs)).
  { intros s s' H. exists []. rewrite app_nil_r. simpl. repeat split; auto. }
  induction fuel as [|fuel IH]; intros s; simpl.
  - apply Hnil. reflexivity.
  - unfold bind at 1, time_time. cbn [reads fst snd].
    destruct (Qle_bool total (clock w (reads s) - start)) eqn:E.
    + apply Hnil. reflexivity.
    + unfold render, truediv. rewrite Hnz. unfold bind, lift, write, flush, sleep.
      set (f0 := filled_of ((clock w (reads s) - start) / total)).
      match goal with
      | |- context [emit (Write ?d) ?st] =>
          destruct (emit_cases (Write d) st) as [Hr1|(s1 & Hs1 & Ho1 & Hr1 & _)];
          [ rewrite Hr1; apply Hnil; reflexivity | rewrite Hs1 ]
      end.
      simpl in Ho1, Hr1.
      destruct (emit_cases Flush s1) as [Hr2|(s2 & Hs2 & Ho2 & Hr2 & _)].
      { rewrite Hr2. simpl. eexists [_]. rewrite Ho1. split; [reflexivity|].
        simpl. repeat split; auto.  constructor; [apply Z.le_refl | constructor]. }
      rewrite Hs2.
      destruct (emit_cases (Sleep (1 # 2)) s2) as [Hr3|(s3 & Hs3 & Ho3 & Hr3 & _)].
      { rewrite Hr3. simpl. eexists [_; _]. rewrite Ho2, Ho1, <- app_assoc.
        split; [reflexivity|]. simpl. repeat split; auto.
        constructor; [apply Z.le_refl | constructor]. }
      rewrite Hs3.
      destruct (IH s3) as (evs & Ho & Hasc & Hlow).
      assert (Hrd : reads s3 = S (reads s)) by congruence.
      rewrite Hrd in Hlow.
      assert (Hstep : (f0 <= filled_of ((clock w (S (reads s)) - start) / total))%Z).
      { apply filled_mono; [exact Ht|].
        assert (Hc : (clock w (reads s) <= clock w (S (reads s)))%Q) by apply Hmono.
        lra. }
      eexists (_ :: _ :: _ :: evs).
      split; [rewrite Ho, Ho3, Ho2, Ho1, <- !app_assoc; reflexivity|].
      simpl. fold f0.
      assert (Hall : Forall (fun f => (f0 <= f)%Z) (bar_fills evs)).
      { eapply Forall_impl; [|exact Hlow]. intros f Hf. simpl in Hf. lia. }
      repeat split; auto. constructor; [apply Z.le_refl | exact Hall].
Qed.

(** X3: the bar never goes back.  On a clock that never runs backwards and
    with total_seconds > 0, the filled-slot counts of the bars one
    progress_bar call draws never decrease, and each lies between 0 and 29,
    wherever the call stops. *)
Theorem bars_never_recede (w : world) (fuel : nat) (total : Q) (prefix : string)
  (s : state) :
  monotone w -> (0 < total)%Q ->
  let evs := news s (snd (progress_bar w fuel total prefix s)) in
  ascending (bar_fills evs) /\
  Forall (fun f => (0 <= f <= 29)%Z) (bar_fills evs).
Proof.
  intros Hmono Ht evs.
  pose proof (progress_bar_fills w fuel prefix Ht s) as [_ (evsF & HoF & HokF)].
  assert (H : exists evs', out (snd (progress_bar w fuel total prefix s)) = (out s ++ evs')%list /\
                ascending (bar_fills evs') /\
                Forall (fun f => (0 <= f)%Z) (bar_fills evs')).
  { unfold progress_bar, bind, time_time. cbn [reads fst snd].
    match goal with
    | |- context [progress_loop w fuel total prefix ?st0 ?st] =>
        destruct (@progress_loop_ascends w total prefix st0 Hmono Ht fuel st)
          as (evsL & HoL & Hasc & Hlow)
    end.
    simpl in HoL, Hlow.
    assert (Hpos : Forall (fun f => (0 <= f)%Z) (bar_fills evsL)).
    { eapply Forall_impl; [|exact Hlow]. intros f Hf. simpl in Hf.
      eapply Z.le_trans; [|exact Hf].
      replace 0%Z with (filled_of (0 / total)) by reflexivity.
      apply filled_mono; [exact Ht|].
      assert (Hc : (clock w (reads s) <= clock w (S (reads s)))%Q) by apply Hmono.
      lra. }
    match goal with
    | |- context [progress_loop w fuel total prefix ?st0 ?st] =>
        destruct (progress_loop w fuel total prefix st0 st) as [[[]|e|] s2]
    end; simpl in HoL |- *; try (exists evsL; repeat split; assumption).
    destruct (emit_cases (Write ClearLine) s2) as [Hr|(s3 & Hs3 & Ho3 & _)].
    - unfold write. rewrite Hr. simpl. exists evsL. repeat split; assumption.
    - unfold write. rewrite Hs3. simpl. exists (evsL ++ [Write ClearLine])%list.
      rewrite Ho3, HoL, <- app_assoc, bar_fills_app. simpl. rewrite app_nil_r.
      repeat split; assumption. }
  destruct H as (evs' & Ho & Hasc & Hpos).
  assert (Heq : evsF = evs') by (eapply same_news; rewrite <- HoF; exact Ho).
  subst evsF. unfold evs. rewrite (news_app _ _ _ Ho).
  split; [exact Hasc|].
  pose proof (fills_bound _ HokF) as Hup.
  rewrite Forall_forall in *. intros f Hf. split; [apply Hpos | apply Hup]; exact Hf.
Qed.

Lemma bars_never_recede_witness :
  let w := sample_world [] in
  let evs := news start_state (snd (progress_bar w 100 2 "Timer:" start_state)) in
  ascending (bar_fills evs) /\
  Forall (fun f => (0 <= f <= 29)%Z) (bar_fills evs).
Proof.
  apply (@bars_never_recede (sample_world []) 100 2 "Timer:" start_state).
  - apply half_second_clock_monotone.
  - reflexivity.
Defined.

(** ** log_session and show_log *)

Lemma flat_map_single A B (g : A -> B) (l : list A) :
  flat_map (fun a => [g a]) l = map g l.
Proof. induction l as [|a l IH]; simpl; [reflexivity | rewrite IH; reflexivity]. Qed.

Lemma well_formed_logged (s : state) (r : row) :
  well_formed (logf s) ->
  well_formed (Some (lines s ++ header_if_new s ++ [Row r])%list).
Proof.
  unfold lines, header_if_new. destruct (logf s) as [l|]; simpl.
  - intros (rows & ->). exists (rows ++ [r])%list. rewrite map_app. reflexivity.
  - intros _. exists [r]. reflexivity.
Qed.

(** X4: log_session only appends.  Uninterrupted, two calls in a row keep
    every line the file had, write the header only if the first call created
    the file, and add exactly their two rows in order, stamped with two
    successive readings of the clock; nothing is printed, and a well-formed
    file stays well-formed. *)
Theorem log_session_appends (w : world) (k1 k2 : string) (d1 d2 : num) (n1 n2 : string)
  (s : state) :
  intr s = None ->
  let run := (log_session w k1 d1 n1 ;; log_session w k2 d2 n2) s in
  fst run = Ret tt /\
  lines (snd run) =
    (lines s ++ header_if_new s
       ++ [Row (mkRow (clock w (reads s)) k1 d1 n1);
           Row (mkRow (clock w (S (reads s))) k2 d2 n2)])%list /\
  out (snd run) = out s /\
  (well_formed (logf s) -> well_formed (logf (snd run))).
Proof.
  intros Hs run. unfold run, bind.
  rewrite log_session_run by exact Hs.
  rewrite log_session_run by reflexivity.
  destruct s as [rd ty it ou lg]. unfold lines, header_if_new. cbn.
  destruct lg as [l|]; cbn.
  - rewrite <- !app_assoc. repeat split.
    intros (rows & ->).
    exists (rows ++ [mkRow (clock w rd) k1 d1 n1; mkRow (clock w (S rd)) k2 d2 n2])%list.
    rewrite map_app. reflexivity.
  - repeat split. intros _.
    exists [mkRow (clock w rd) k1 d1 n1; mkRow (clock w (S rd)) k2 d2 n2]. reflexivity.
Qed.

Lemma log_session_appends_witness :
  let w := sample_world [] in
  let s := start_state in
  let run := (log_session w "Custom timer" (Float 2) "" ;;
              log_session w "Box breathing" (Float 1) "") s in
  fst run = Ret tt /\
  lines (snd run) =
    (lines s ++ header_if_new s
       ++ [Row (mkRow (clock w (reads s)) "Custom timer" (Float 2) "");
           Row (mkRow (clock w (S (reads s))) "Box breathing" (Float 1) "")])%list /\
  out (snd run) = out s /\
  (well_formed (logf s) -> well_formed (logf (snd run))).
Proof.
  apply (@log_session_appends (sample_world []) "Custom timer" "Box breathing"
           (Float 2) (Float 1) "" "" start_state).
  reflexivity.
Defined.

Lemma show_log_run (w : world) (s : state) :
  intr s = None ->
  show_log w s =
    match logf s with
    | None =>
        (Ret tt,
         mkState (reads s) (S (typed s)) None
           (out s ++ [Clear;
                      Print "No log found yet. Your sessions will be saved to meditation_log.csv";
                      Prompt "Press Enter to return to menu..."])
           None)
    | Some content =>
        match content with
        | [] | [_] =>
            (Ret tt,
             mkState (reads s) (S (typed s)) None
               (out s ++ [Clear; PrintCentered "Meditation Log"; Print (str_mul "-" 60);
                          Print "No sessions logged yet."; Print (str_mul "-" 60);
                          Prompt "Press Enter to return to menu..."])
               (Some content))
        | Header :: rows =>
            (Ret tt,
             mkState (reads s) (S (typed s)) None
               (out s ++ [Clear; PrintCentered "Meditation Log"; Print (str_mul "-" 60)]
                      ++ shown w (last20 rows)
                      ++ [Print (str_mul "-" 60);
                          Prompt "Press Enter to return to menu..."])
               (Some content))
        | Row _ :: _ =>
            (Raise KeyError,
             mkState (reads s) (typed s) None
               (out s ++ [Clear; PrintCentered "Meditation Log"; Print (str_mul "-" 60)])
               (Some content))
        end
    end.
Proof.
  intros Hs. destruct s as [rd ty it ou lg]. simpl in Hs. subst it.
  unfold show_log, clear, print_centered, print. unfold bind at 1.
  rewrite emit_run by reflexivity.
  unfold bind at 1, path_exists, bind at 1, step. cbn [intr add_outs logf].
  destruct lg as [content|]; cbn [negb].
  - unfold bind at 1. rewrite emit_run by reflexivity.
    unfold bind at 1. rewrite emit_run by reflexivity.
    unfold bind at 1, read_log, lines. cbn [logf add_outs].
    destruct content as [|[|r0] [|l1 rest]].
    + unfold bind. rewrite !emit_run by reflexivity. rewrite input_run by reflexivity.
      simpl. rewrite <- ?app_assoc. reflexivity.
    + unfold bind. rewrite !emit_run by reflexivity. rewrite input_run by reflexivity.
      simpl. rewrite <- ?app_assoc. reflexivity.
    + unfold bind at 1.
      rewrite (for_each_run (fun r => [Print (fmt_entry w r)]));
        [| intros a s1 H1; apply emit_run; exact H1 | reflexivity].
      unfold bind. rewrite !emit_run by reflexivity. rewrite input_run by reflexivity.
      simpl. rewrite flat_map_single. unfold shown.
      rewrite <- ?app_assoc. reflexivity.
    + unfold bind. rewrite !emit_run by reflexivity. rewrite input_run by reflexivity.
      simpl. rewrite <- ?app_assoc. reflexivity.
    + unfold bind, raise, add_outs. simpl. rewrite <- ?app_assoc. reflexivity.
  - unfold bind. rewrite !emit_run by reflexivity. rewrite input_run by reflexivity.
    simpl. rewrite <- ?app_assoc. reflexivity.
Qed.

Lemma last20_snoc A (l : list A) (x : A) :
  last20 (l ++ [x]) = (skipn (List.length l - 19) l ++ [x])%list.
Proof.
  unfold last20. rewrite length_app. simpl.
  replace (List.length l + 1 - 20)%nat with (List.length l - 19)%nat by lia.
  rewrite skipn_app.
  replace (List.length l - 19 - List.length l)%nat with 0%nat by lia. reflexivity.
Qed.

(** X5: what log_session writes, show_log shows last.  Uninterrupted and
    from a well-formed (or absent) log file, logging a session and then
    viewing the log prints the title, at most nineteen older entries, which
    are the newest of the old rows in file order, then the session just
    logged, then the closing rule and the prompt. *)
Theorem logged_session_is_shown_last (w : world) (kind : string) (d : num)
  (notes : string) (s : state) :
  intr s = None -> well_formed (logf s) ->
  let r := Row (mkRow (clock w (reads s)) kind d notes) in
  let run := (log_session w kind d notes ;; show_log w) s in
  fst run = Ret tt /\
  exists skipped older,
    tl (lines s) = (skipped ++ older)%list /\
    (List.length older <= 19)%nat /\
    news s (snd run) =
      ([Clear; PrintCentered "Meditation Log"; Print (str_mul "-" 60)]
       ++ shown w older
       ++ [Print (fmt_entry w r); Print (str_mul "-" 60);
           Prompt "Press Enter to return to menu..."])%list.
Proof.
  intros Hs Hwf r run. unfold run, r, bind. clear run r.
  rewrite log_session_run by exact Hs.
  rewrite show_log_run by reflexivity.
  destruct s as [rd ty it ou lg]. simpl in Hs. subst it.
  unfold lines, header_if_new. cbn [logf reads typed out intr].
  set (r := Row (mkRow (clock w rd) kind d notes)).
  destruct lg as [l|].
  - destruct Hwf as (rows & ->). cbn [app tl].
    assert (Hshape : exists x rest, (map Row rows ++ [r])%list = x :: rest).
    { destruct rows; simpl; eauto. }
    destruct Hshape as (x & rest & Hx).
    rewrite Hx. cbn [fst snd]. rewrite <- Hx.
    split; [reflexivity|].
    exists (firstn (List.length (map Row rows) - 19) (map Row rows)),
           (skipn (List.length (map Row rows) - 19) (map Row rows)).
    split; [rewrite firstn_skipn; reflexivity|].
    split; [rewrite length_skipn; lia|].
    apply news_app. cbn [out]. rewrite last20_snoc. unfold shown.
    rewrite map_app. rewrite <- !app_assoc. reflexivity.
  - cbn. split; [reflexivity|]. exists [], [].
    split; [reflexivity|]. split; [simpl; lia|].
    rewrite skipn_app, Nat.sub_diag, skipn_all. reflexivity.
Qed.

Lemma logged_session_is_shown_last_witness :
  let w := sample_world [] in
  let s := start_state in
  let r := Row (mkRow (clock w (reads s)) "Custom timer" (Float 2) "") in
  let run := (log_session w "Custom timer" (Float 2) "" ;; show_log w) s in
  fst run = Ret tt /\
  exists skipped older,
    tl (lines s) = (skipped ++ older)%list /\
    (List.length older <= 19)%nat /\
    news s (snd run) =
      ([Clear; PrintCentered "Meditation Log"; Print (str_mul "-" 60)]
       ++ shown w older
       ++ [Print (fmt_entry w r); Print (str_mul "-" 60);
           Prompt "Press Enter to return to menu..."])%list.
Proof.
  apply (@logged_session_is_shown_last (sample_world []) "Custom timer" (Float 2) ""
           start_state); simpl; auto.
Defined.

Lemma path_exists_quiet (ok : event -> bool) : stable (quiet ok) path_exists.
Proof.
  intros s. unfold path_exists, bind, step.
  destruct (intr s) as [[|k]|]; simpl; apply quiet_same; reflexivity.
Qed.

Lemma read_log_quiet (ok : event -> bool) : stable (quiet ok) read_log.
Proof. intros s. apply quiet_same; reflexivity. Qed.

Lemma show_log_quiet (w : world) : stable (quiet not_bell) (show_log w).
Proof.
  unfold show_log, clear, print_centered, print.
  apply stable_bind; [apply quiet_trans | apply emit_quiet; reflexivity | intros _].
  apply stable_bind; [apply quiet_trans | apply path_exists_quiet | intros ex].
  destruct (negb ex).
  - no_bell.
  - apply stable_bind; [apply quiet_trans | apply emit_quiet; reflexivity | intros _].
    apply stable_bind; [apply quiet_trans | apply emit_quiet; reflexivity | intros _].
    apply stable_bind; [apply quiet_trans | apply read_log_quiet | intros content].
    apply stable_bind; [apply quiet_trans | | intros _].
    + destruct content as [|[|r0] [|l1 rest]]; no_bell.
    + no_bell.
Qed.

(** X6: show_log only reads.  Wherever it stops, whatever the file holds,
    viewing the log leaves the log file exactly as it was (it never creates
    it either) and rings no bell. *)
Theorem show_log_read_only (w : world) (s : state) :
  logf (snd (show_log w s)) = logf s /\
  bells (news s (snd (show_log w s))) = 0%nat.
Proof.
  destruct (quiet_no_bells (show_log_quiet w s)) as (Hl & evs & Ho & Hb).
  split; [exact Hl|]. rewrite (news_app _ _ _ Ho). exact Hb.
Qed.

(** X7: a log file that exists but is empty never gets its header.
    Uninterrupted, log_session then writes rows only; show_log takes the
    first row for the field names, so after one session it reports that no
    session is logged, and from the second session on it fails with
    KeyError. *)
Theorem headerless_log (w : world) (k1 k2 : string) (d1 d2 : num) (n1 n2 : string)
  (s : state) :
  intr s = None -> logf s = Some [] ->
  let one := (log_session w k1 d1 n1 ;; show_log w) s in
  let two := (log_session w k1 d1 n1 ;; log_session w k2 d2 n2 ;; show_log w) s in
  (fst one = Ret tt /\
   lines (snd one) = [Row (mkRow (clock w (reads s)) k1 d1 n1)] /\
   In (Print "No sessions logged yet.") (news s (snd one))) /\
  (fst two = Raise KeyError /\
   lines (snd two) = [Row (mkRow (clock w (reads s)) k1 d1 n1);
                      Row (mkRow (clock w (S (reads s))) k2 d2 n2)]).
Proof.
  intros Hs Hl one two. unfold one, two, bind.
  rewrite !log_session_run by exact Hs.
  rewrite log_session_run by reflexivity.
  rewrite !show_log_run by reflexivity.
  destruct s as [rd ty it ou lg]. simpl in Hs, Hl. subst it lg.
  unfold lines, header_if_new, news. cbn.
  rewrite skipn_app, Nat.sub_diag, skipn_all. cbn.
  repeat split. auto 10.
Qed.

Lemma headerless_log_witness :
  let w := sample_world [] in
  let s := mkState 0 0 None [] (Some []) in
  let one := (log_session w "Custom timer" (Float 2) "" ;; show_log w) s in
  let two := (log_session w "Custom timer" (Float 2) "" ;;
              log_session w "Box breathing" (Float 1) "" ;; show_log w) s in
  (fst one = Ret tt /\
   lines (snd one) = [Row (mkRow (clock w (reads s)) "Custom timer" (Float 2) "")] /\
   In (Print "No sessions logged yet.") (news s (snd one))) /\
  (fst two = Raise KeyError /\
   lines (snd two) = [Row (mkRow (clock w (reads s)) "Custom timer" (Float 2) "");
                      Row (mkRow (clock w (S (reads s))) "Box breathing" (Float 1) "")]).
Proof.
  apply (@headerless_log (sample_world []) "Custom timer" "Box breathing"
           (Float 2) (Float 1) "" "" (mkState 0 0 None [] (Some []))); reflexivity.
Defined.

(** ** The program never ends in an exception *)

Lemma safe_ret A (allowed : exn -> bool) (a : A) : safe allowed (ret a).
Proof. intros s Hs. exact Hs. Qed.

Lemma safe_diverge A (allowed : exn -> bool) : safe allowed (@diverge A).
Proof. intros s Hs. exact Hs. Qed.

Lemma safe_raise A (allowed : exn -> bool) (e : exn) :
  allowed e = true -> safe allowed (@raise A e).
Proof. intros H s Hs. destruct e; simpl; auto. Qed.

Lemma safe_bind A B (allowed : exn -> bool) (m : M A) (k : A -> M B) :
  safe allowed m -> (forall a, safe allowed (k a)) -> safe allowed (bind m k).
Proof.
  intros Hm Hk s Hs. unfold bind. specialize (Hm s Hs).
  destruct (m s) as [[a|e|] s1]; simpl in *; try exact Hm.
  apply Hk. exact Hm.
Qed.

Lemma safe_weaken A (allowed allowed' : exn -> bool) (m : M A) :
  (forall e, allowed e = true -> allowed' e = true) ->
  safe allowed m -> safe allowed' m.
Proof.
  intros H Hm s Hs. specialize (Hm s Hs).
  destruct (fst (m s)) as [a|[]|]; simpl in *; try exact Hm;
    (split; [apply H|]; apply Hm).
Qed.

Lemma safe_try A (inner allowed : exn -> bool) (m h : M A) (e : exn) :
  e <> KeyboardInterrupt ->
  (forall e', inner e' = true -> exn_eqb e e' = true \/ allowed e' = true) ->
  safe inner m -> safe allowed h -> safe allowed (try_except m e h).
Proof.
  intros He H Hm Hh s Hs. unfold try_except. specialize (Hm s Hs).
  destruct (m s) as [[a|e'|] s1]; simpl in *; try exact Hm.
  destruct (exn_eqb e e') eqn:Eq.
  - apply Hh. destruct e'; try apply Hm. destruct e; try discriminate. congruence.
  - destruct e'; simpl; try exact I;
      (split; [|apply Hm]);
      (destruct (H _ (proj1 Hm)) as [Hc|Hc]; [congruence | exact Hc]).
Qed.

Lemma safe_emit (allowed : exn -> bool) (e : event) : safe allowed (emit e).
Proof.
  intros s Hs. unfold emit, bind, step.
  destruct (intr s) as [[|k]|]; simpl; auto.
Qed.

Lemma safe_time (w : world) (allowed : exn -> bool) : safe allowed (time_time w).
Proof. intros s Hs. exact Hs. Qed.

Lemma safe_read (w : world) (allowed : exn -> bool) : safe allowed (read_line w).
Proof.
  intros s Hs. unfold read_line, bind, step.
  destruct (intr s) as [[|k]|]; simpl; auto.
Qed.

Lemma safe_input (w : world) (allowed : exn -> bool) (prompt : string) :
  safe allowed (input w prompt).
Proof.
  unfold input. apply safe_bind; [apply safe_emit | intros _; apply safe_read].
Qed.

Lemma safe_for_each A (allowed : exn -> bool) (l : list A) (body : A -> M unit) :
  (forall a, safe allowed (body a)) -> safe allowed (for_each l body).
Proof.
  intros H. induction l as [|a l IH]; simpl; [apply safe_ret|].
  apply safe_bind; [apply H | intros _; exact IH].
Qed.

Lemma safe_parse A (o : option A) : safe value_error_only (parse o).
Proof. destruct o; simpl; [apply safe_ret | apply safe_raise; reflexivity]. Qed.

Lemma safe_log_session (w : world) (allowed : exn -> bool) kind d notes :
  safe allowed (log_session w kind d notes).
Proof.
  intros s Hw. destruct s as [rd ty it ou lg]. simpl in Hw.
  unfold log_session, bind, time_time, path_exists, open_append, append_line, step.
  destruct lg as [l|].
  - destruct Hw as (rows & ->).
    destruct it as [[|[|[|n]]]|]; simpl; try exact I;
      exists (rows ++ [mkRow (clock w rd) kind d notes])%list;
      rewrite map_app; reflexivity.
  - destruct it as [[|[|[|[|n]]]]|]; simpl; try exact I;
      exists [mkRow (clock w rd) kind d notes]; reflexivity.
Qed.

Lemma safe_read_log (allowed : exn -> bool) B (k : list line -> M B) :
  (forall content,
     content = [] \/ (exists rows, content = Header :: map Row rows) ->
     safe allowed (k content)) ->
  safe allowed (bind read_log k).
Proof.
  intros H s Hw. unfold bind, read_log. cbn [fst snd].
  apply H; [|exact Hw].
  unfold lines. destruct (logf s); [right; exact Hw | left; reflexivity].
Qed.

Lemma safe_path_exists (allowed : exn -> bool) : safe allowed path_exists.
Proof.
  intros s Hs. unfold path_exists, bind, step.
  destruct (intr s) as [[|k]|]; simpl; auto.
Qed.

Lemma safe_show_log (w : world) (allowed : exn -> bool) : safe allowed (show_log w).
Proof.
  unfold show_log, clear, print_centered, print.
  apply safe_bind; [apply safe_emit | intros _].
  apply safe_bind; [apply safe_path_exists | intros file_exists].
  destruct file_exists; cbn [negb].
  - apply safe_bind; [apply safe_emit | intros _].
    apply safe_bind; [apply safe_emit | intros _].
    apply safe_read_log. intros content Hc.
    apply safe_bind.
    + destruct Hc as [->|(rows & ->)]; [apply safe_emit|].
      destruct rows as [|r rows]; [apply safe_emit|].
      apply safe_for_each. intros a. apply safe_emit.
    + intros _. apply safe_bind; [apply safe_emit | intros _].
      apply safe_bind; [apply safe_input | intros _; apply safe_ret].
  - apply safe_bind; [apply safe_emit | intros _].
    apply safe_bind; [apply safe_input | intros _; apply safe_ret].
Qed.

Section Safe.

Variable w : world.
Hypothesis clock_monotone : monotone w.

Lemma safe_progress_loop (total : Q) (prefix : string) (r0 : nat) :
  forall fuel s r s',
    well_formed (logf s) -> (r0 <= reads s)%nat ->
    progress_loop w fuel total prefix (clock w r0) s = (r, s') ->
    survives no_exception r s'.
Proof.
  induction fuel as [|fuel IH]; intros s r s' Hs Hr; simpl.
  { intros H. inversion H; subst. exact Hs. }
  unfold bind at 1, time_time. cbn [reads fst snd].
  destruct (Qle_bool total (clock w (reads s) - clock w r0)) eqn:E.
  - intros H. inversion H; subst. exact Hs.
  - assert (Hlt : (clock w (reads s) - clock w r0 < total)%Q).
    { apply Qnot_le_lt. intros Hle. apply Qle_bool_iff in Hle. congruence. }
    assert (Hge : (clock w r0 <= clock w (reads s))%Q).
    { apply monotone_le; assumption. }
    assert (Hnz : Qeq_bool total 0 = false).
    { destruct (Qeq_bool total 0) eqn:Ez; [|reflexivity].
      apply Qeq_bool_eq in Ez. rewrite Ez in Hlt. exfalso. lra. }
    unfold render, truediv. rewrite Hnz. unfold bind at 1, lift. cbv iota beta.
    unfold write, flush, sleep.
    unfold bind at 1.
    match goal with
    | |- context [emit ?e ?st] =>
        destruct (emit_cases e st) as [Hk|(s1 & Hk & _ & Hr1 & _ & Hl1 & _)]; rewrite Hk
    end.
    { intros H. inversion H; subst. exact I. }
    unfold bind at 1.
    destruct (emit_cases Flush s1) as [Hk2|(s2 & Hk2 & _ & Hr2 & _ & Hl2 & _)]; rewrite Hk2.
    { intros H. inversion H; subst. exact I. }
    unfold bind at 1.
    destruct (emit_cases (Sleep (1 # 2)) s2)
      as [Hk3|(s3 & Hk3 & _ & Hr3 & _ & Hl3 & _)]; rewrite Hk3.
    { intros H. inversion H; subst. exact I. }
    apply IH.
    + rewrite Hl3, Hl2, Hl1. exact Hs.
    + rewrite Hr3, Hr2, Hr1. simpl. lia.
Qed.

Lemma safe_progress_bar (allowed : exn -> bool) (fuel : nat) (total : Q) (prefix : string) :
  safe allowed (progress_bar w fuel total prefix).
Proof.
  apply safe_weaken with (allowed := no_exception); [discriminate|].
  intros s Hs. unfold progress_bar, bind, time_time. cbn [reads fst snd].
  destruct (progress_loop w fuel total prefix (clock w (reads s))
              (mkState (S (reads s)) (typed s) (intr s) (out s) (logf s)))
    as [r s2] eqn:El.
  assert (Hr : survives no_exception r s2).
  { eapply safe_progress_loop; [| |exact El]; simpl; [exact Hs | lia]. }
  destruct r as [[]|e|]; simpl in *; try exact Hr.
  apply (@safe_emit no_exception (Write ClearLine) s2 Hr).
Qed.

Lemma safe_play_due (allowed : exn -> bool) (rest : list cue) (elapsed : Q) (i : nat) :
  safe allowed (play_due rest elapsed i).
Proof.
  revert i. induction rest as [|[offset text] rest IH]; intros i; simpl; [apply safe_ret|].
  destruct (Qle_bool offset elapsed); [|apply safe_ret].
  apply safe_bind; [apply safe_emit | intros _].
  apply safe_bind; [apply safe_emit | intros _]. apply IH.
Qed.

Lemma safe_guided_loop (allowed : exn -> bool) fuel script total start :
  forall i, safe allowed (guided_loop w fuel script total start i).
Proof.
  induction fuel as [|fuel IH]; intros i; simpl; [apply safe_diverge|].
  apply safe_bind.
  - unfold guided_tick. apply safe_bind; [apply safe_time | intros now].
    destruct (Qle_bool total (now - start)); [apply safe_ret|].
    apply safe_bind; [apply safe_play_due | intros i'].
    apply safe_bind; [apply safe_progress_bar | intros _; apply safe_ret].
  - intros [i'|]; [apply IH | apply safe_ret].
Qed.

Ltac safely :=
  repeat first
    [ apply safe_ret
    | apply safe_emit
    | apply safe_time
    | apply safe_read
    | apply safe_input
    | apply safe_log_session
    | apply safe_show_log
    | apply safe_progress_bar
    | apply safe_guided_loop
    | apply safe_for_each; intros
    | apply safe_bind; [|intros] ].

Lemma safe_guided_session (allowed : exn -> bool) fuel script d :
  safe allowed (guided_session w fuel script d).
Proof.
  unfold guided_session, clear, bell, print_centered, print, write, flush, sleep. safely.
Qed.

Lemma safe_custom_timer (allowed : exn -> bool) fuel d :
  safe allowed (custom_timer w fuel d).
Proof.
  unfold custom_timer, clear, bell, print_centered, print, write, flush, sleep. safely.
Qed.

Lemma safe_box_breathing (allowed : exn -> bool) c i h e :
  safe allowed (box_breathing w c i h e).
Proof.
  unfold box_breathing, phase, clear, bell, print_centered, print, write, flush, sleep.
  safely.
Qed.

Lemma safe_body_scan (allowed : exn -> bool) fuel (n : Z) :
  overflows (inject_Z (n * 60) / inject_Z 10) = false ->
  safe allowed (body_scan w fuel (Int n)).
Proof.
  intros Hn. unfold body_scan. cbv zeta.
  apply safe_bind; [apply safe_emit | intros _].
  change (py_truediv (num_mul (Int n) (Int 60)) (Int (Z.of_nat (List.length parts))))
    with (if overflows (inject_Z (n * 60) / inject_Z 10) then Raise OverflowError
          else Ret (inject_Z (n * 60) / inject_Z 10)%Q).
  rewrite Hn.
  unfold clear, bell, print_centered, print, write, flush, sleep.
  apply safe_bind; [apply safe_ret | intros per_part].
  safely.
Qed.

Lemma safe_bind_with A B (allowed : exn -> bool) (P : A -> Prop) (m : M A) (k : A -> M B) :
  safe allowed m ->
  (forall s a s', m s = (Ret a, s') -> P a) ->
  (forall a, P a -> safe allowed (k a)) ->
  safe allowed (bind m k).
Proof.
  intros Hm HP Hk s Hs. unfold bind. specialize (Hm s Hs). specialize (HP s).
  destruct (m s) as [[a|e|] s1]; simpl in *; try exact Hm.
  apply Hk; [eapply HP; reflexivity | exact Hm].
Qed.

(** What follows [input] only ever sees a line of the terminal. *)
Lemma safe_input_bind A (allowed : exn -> bool) (prompt : string) (k : string -> M A) :
  (forall n, safe allowed (k (stdin w n))) -> safe allowed (bind (input w prompt) k).
Proof.
  intros H.
  apply safe_bind_with with (P := fun t => exists n, t = stdin w n).
  - apply safe_input.
  - intros s t s1 E. unfold input in E. unfold bind at 1 in E.
    destruct (emit (Prompt prompt) s) as [[[]|e|] s0] eqn:Ee; try discriminate.
    unfold read_line, bind, step in E.
    destruct (intr s0) as [[|j]|]; try discriminate;
      injection E as <- <-; eexists; reflexivity.
  - intros t [n ->]. apply H.
Qed.

Lemma value_error_caught (e : exn) :
  value_error_only e = true -> exn_eqb ValueError e = true \/ no_exception e = true.
Proof. destruct e; simpl; intros H; try discriminate. left. reflexivity. Qed.

Lemma safe_custom_timer_of (fuel : nat) (mins : pyfloat) :
  safe value_error_only (custom_timer_of w fuel mins).
Proof.
  assert (Hu : safe value_error_only (custom_timer_unbounded w mins)).
  { unfold custom_timer_unbounded, clear, bell, print_centered.
    repeat (apply safe_bind; [first [apply safe_emit | apply safe_time] | intros ?]).
    apply safe_raise. reflexivity. }
  unfold custom_timer_of. destruct mins as [q| | |]; try exact Hu.
  destruct (overflows (q * 60)); [exact Hu | apply safe_custom_timer].
Qed.

Lemma safe_menu_custom (fuel : nat) : safe no_exception (menu_custom w fuel).
Proof.
  unfold menu_custom.
  apply safe_try with (inner := value_error_only);
    [discriminate | exact value_error_caught | |].
  - apply safe_bind; [apply safe_input | intros t].
    apply safe_bind; [apply safe_parse | intros mins].
    apply safe_bind.
    + destruct (float_le0 mins); [apply safe_raise; reflexivity | apply safe_ret].
    + intros _. apply safe_custom_timer_of.
  - unfold print. safely.
Qed.

Lemma safe_menu_box : safe no_exception (menu_box w).
Proof.
  unfold menu_box.
  apply safe_try with (inner := value_error_only);
    [discriminate | exact value_error_caught | |].
  - apply safe_bind; [apply safe_input | intros a].
    apply safe_bind; [apply safe_parse | intros cycles].
    apply safe_bind; [apply safe_input | intros b].
    apply safe_bind; [apply safe_parse | intros inhale].
    apply safe_bind; [apply safe_input | intros c].
    apply safe_bind; [apply safe_parse | intros hold].
    apply safe_bind; [apply safe_input | intros d].
    apply safe_bind; [apply safe_parse | intros exhale].
    apply safe_box_breathing.
  - unfold print, sleep. safely.
Qed.

Lemma bounded_minutes (q : Q) :
  (Qabs q <= inject_Z (2 ^ 63))%Q ->
  overflows (inject_Z (int_of_float q * 60) / inject_Z 10) = false.
Proof.
  intros Hq. apply Qabs_Qle_condition in Hq. destruct Hq as [Hlo Hhi].
  assert (Hn : (- 2 ^ 63 <= int_of_float q <= 2 ^ 63)%Z).
  { split.
    - rewrite <- (int_of_float_Z (- 2 ^ 63)). apply int_of_float_mono. exact Hlo.
    - rewrite <- (int_of_float_Z (2 ^ 63)). apply int_of_float_mono. exact Hhi. }
  set (n := int_of_float q) in *.
  unfold overflows.
  destruct (Qle_bool (inject_Z (2 ^ 1024 - 2 ^ 970))
                     (Qabs (inject_Z (n * 60) / inject_Z 10))) eqn:E; [|reflexivity].
  exfalso. apply Qle_bool_iff in E.
  assert (Hx : (inject_Z (n * 60) / inject_Z 10 == inject_Z (6 * n))%Q).
  { rewrite !inject_Z_mult. change (inject_Z 60) with 60%Q. change (inject_Z 10) with 10%Q.
    change (inject_Z 6) with 6%Q. field. }
  rewrite Hx in E.
  assert (Hb : (Qabs (inject_Z (6 * n)) <= inject_Z (2 ^ 66))%Q).
  { apply Qabs_Qle_condition. split.
    - change (- inject_Z (2 ^ 66))%Q with (inject_Z (- 2 ^ 66)). rewrite <- Zle_Qle. lia.
    - rewrite <- Zle_Qle. lia. }
  assert (Hc : (inject_Z (2 ^ 66) < inject_Z (2 ^ 1024 - 2 ^ 970))%Q).
  { rewrite <- Zlt_Qlt. vm_compute. reflexivity. }
  apply (Qlt_irrefl (inject_Z (2 ^ 66))).
  eapply Qlt_le_trans; [exact Hc|]. eapply Qle_trans; eauto.
Qed.

Section Tame.

Hypothesis numbers_tame : tame w.

Lemma safe_menu_body_scan (fuel : nat) : safe no_exception (menu_body_scan w fuel).
Proof.
  unfold menu_body_scan.
  apply safe_try with (inner := value_error_only);
    [discriminate | exact value_error_caught | |].
  - apply safe_input_bind. intros n.
    destruct (numbers_tame n) as (_ & Hf & _).
    destruct (py_float w (or_default (stdin w n) "10")) as [x|].
    + specialize (Hf x eq_refl). destruct x as [q| | |]; try contradiction.
      intros s Hs.
      exact (@safe_body_scan value_error_only fuel (int_of_float q)
               (@bounded_minutes q Hf) s Hs).
    + intros s Hs. split; [reflexivity | exact Hs].
  - unfold print, sleep. safely.
Qed.

Lemma safe_menu_tick (fuel : nat) : safe no_exception (menu_tick w fuel).
Proof.
  unfold menu_tick, show_menu, clear, print_centered, print, sleep.
  apply safe_bind; [safely | intros _].
  apply safe_bind; [apply safe_input | intros t].
  cbv zeta.
  repeat match goal with
  | |- safe _ (if ?b then _ else _) => destruct b
  end.
  - apply safe_bind; [apply safe_guided_session | intros; apply safe_ret].
  - apply safe_bind; [apply safe_guided_session | intros; apply safe_ret].
  - apply safe_bind; [apply safe_guided_session | intros; apply safe_ret].
  - apply safe_bind; [apply safe_menu_custom | intros; apply safe_ret].
  - apply safe_bind; [apply safe_menu_box | intros; apply safe_ret].
  - apply safe_bind; [apply safe_menu_body_scan | intros; apply safe_ret].
  - apply safe_bind; [apply safe_show_log | intros; apply safe_ret].
  - safely.
  - safely.
Qed.

Lemma safe_main_menu (fuel : nat) : safe no_exception (main_menu w fuel).
Proof.
  induction fuel as [|fuel IH]; simpl; [apply safe_diverge|].
  apply safe_bind; [apply safe_menu_tick | intros [|]]; [exact IH | apply safe_ret].
Qed.

End Tame.

End Safe.

Lemma typed_lines_tame (typed : list string) :
  forallb (fun t => match dec_int t with
                    | Some z => (Z.abs z <=? 2 ^ 63)%Z
                    | None => true
                    end) typed = true ->
  tame (sample_world typed).
Proof.
  intros Hall. rewrite forallb_forall in Hall.
  assert (Hline : forall k z, dec_int (typing typed k) = Some z -> (Z.abs z <= 2 ^ 63)%Z).
  { intros k z Hz. unfold typing in Hz.
    destruct (nth_in_or_default k typed EmptyString) as [Hin|Hd].
    - specialize (Hall _ Hin). rewrite Hz in Hall. apply Z.leb_le. exact Hall.
    - rewrite Hd in Hz. discriminate Hz. }
  assert (Hdef : forall k d z, (Z.abs d <= 2 ^ 63)%Z -> dec_int (str_Z d) = Some d ->
                   dec_int (or_default (typing typed k) (str_Z d)) = Some z ->
                   (Z.abs z <= 2 ^ 63)%Z).
  { intros k d z Hd Hp Hz. destruct (typing typed k) eqn:E.
    - simpl in Hz. rewrite Hp in Hz. injection Hz as <-. exact Hd.
    - simpl in Hz. rewrite <- E in Hz. eapply Hline. exact Hz. }
  assert (Hfl : forall t x, (forall z, dec_int t = Some z -> (Z.abs z <= 2 ^ 63)%Z) ->
                  option_map (fun z => Finite (inject_Z z)) (dec_int t) = Some x ->
                  bounded_float x).
  { intros t x Ht Hx. destruct (dec_int t) as [z|]; [|discriminate].
    injection Hx as <-. cbn [bounded_float]. specialize (Ht z eq_refl).
    apply Qabs_Qle_condition. split.
    - change (- inject_Z (2 ^ 63))%Q with (inject_Z (- 2 ^ 63)). rewrite <- Zle_Qle. lia.
    - rewrite <- Zle_Qle. lia. }
  intros k. simpl. split; [|split].
  - intros x. apply Hfl. intros z. apply Hline.
  - intros x. apply Hfl. intros z.
    apply (Hdef k 10%Z z); [vm_compute; congruence | reflexivity].
  - intros z. apply (Hdef k 4%Z z); [vm_compute; congruence | reflexivity].
Qed.

(** X8: with ordinary input no exception escapes.  On a clock that never
    runs backwards, from a well-formed (or absent) log file, and as long as
    every number typed is finite and at most 2^63 in magnitude, whatever is
    typed and whenever Ctrl-C is pressed, if at all, main returns normally or
    is still looping when the granted iterations run out: no ValueError,
    ZeroDivisionError, KeyError, OverflowError or KeyboardInterrupt escapes.
    Without an interrupt the log file is well-formed afterwards.  (The
    terminal is taken to supply a line whenever one is asked for.) *)
Theorem tame_input_never_crashes (w : world) (fuel : nat) (s : state) :
  monotone w -> tame w -> well_formed (logf s) ->
  (fst (main w fuel s) = Ret tt \/ fst (main w fuel s) = Diverge) /\
  (intr s = None ->
   intr (snd (main w fuel s)) = None /\ well_formed (logf (snd (main w fuel s)))).
Proof.
  intros Hmono Htame Hw.
  pose proof (@safe_main_menu w Hmono Htame fuel s Hw) as Hr.
  pose proof (delivers_main_menu w fuel s) as Hd.
  unfold main, try_except.
  destruct (main_menu w fuel s) as [[[]|e|] s1]; simpl in *.
  - split; [left; reflexivity|]. intros Hi. split; [apply Hd; exact Hi | exact Hr].
  - destruct e; simpl in *; try (exfalso; apply proj1 in Hr; discriminate Hr).
    destruct Hd as [Hi1 Hs1]. unfold print. rewrite emit_run by exact Hs1.
    split; [left; reflexivity|]. intros Hi. contradiction.
  - split; [right; reflexivity|]. intros Hi. split; [apply Hd; exact Hi | exact Hr].
Qed.

Lemma tame_input_never_crashes_witness :
  let w := sample_world ["4"; "abc"; ""; "6"; "-3"; ""; "5"; "x"; "0"]%string in
  let s := mkState 0 0 (Some 40%nat) [] (Some [Header]) in
  (fst (main w 10 s) = Ret tt \/ fst (main w 10 s) = Diverge) /\
  (intr s = None ->
   intr (snd (main w 10 s)) = None /\ well_formed (logf (snd (main w 10 s)))).
Proof.
  apply (@tame_input_never_crashes
           (sample_world ["4"; "abc"; ""; "6"; "-3"; ""; "5"; "x"; "0"]%string) 10
           (mkState 0 0 (Some 40%nat) [] (Some [Header]))).
  - apply half_second_clock_monotone.
  - apply typed_lines_tame. vm_compute. reflexivity.
  - exists []. reflexivity.
Defined.

(** ** Guided sessions: cues are only looked at once *)

Lemma guided_session_outcome (w : world) (fuel N : nat) (script : list cue)
  (d : num) (s : state) :
  intr s = None ->
  monotone w ->
  (S (S (reads s)) < N)%nat ->
  (value (num_mul d (Int 60)) <= clock w N - clock w (S (S (reads s))))%Q ->
  (S N < fuel)%nat ->
  let total := value (num_mul d (Int 60)) in
  let elapsed := (clock w (S (reads s)) - clock w (reads s))%Q in
  let run := guided_session w fuel script d s in
  fst run = Ret tt /\
  cue_prints (news s (snd run)) =
    ((if Qle_bool total elapsed then [] else fst (next_due script 0 elapsed))
       ++ [session_complete])%list /\
  bells (news s (snd run)) = 2%nat /\
  exists ts,
    lines (snd run) =
      (lines s ++ header_if_new s
         ++ [Row (mkRow ts ("Guided " ++ str_num w d ++ " min") d "")])%list.
Proof.
  intros Hs Hmono HN Hreach Hfuel total elapsed run.
  unfold run. clear run.
  destruct (guided_session w fuel script d s) as [r sF] eqn:Erun.
  rewrite guided_session_split in Erun by exact Hs.
  fold total in Erun.
  set (start := clock w (reads s)) in *.
  set (s3 := mkState (S (reads s)) (typed s) None ((out s ++ [Clear]) ++ [Bell]) (logf s)).
  destruct (@guided_loop_plays_once w script total start N Hmono fuel 0%nat s3)
    as (s7 & Hrun & Hi7 & Hcues).
  { reflexivity. }
  { unfold start. simpl. apply Hmono. }
  { simpl. exact HN. }
  { simpl. exact Hreach. }
  { simpl. lia. }
  pose proof (guided_loop_quiet w fuel script total start 0 s3) as Hq.
  rewrite Hrun in Hq. simpl in Hq.
  destruct (quiet_no_bells Hq) as (Hlog & evsL & Hout & Hbells).
  unfold bind at 1 in Erun. fold s3 in Erun. rewrite Hrun in Erun.
  rewrite guided_tail_run in Erun by exact Hi7.
  injection Erun as <- <-. cbn [fst snd].
  assert (HnewsL : news s3 s7 = evsL).
  { apply news_app. exact Hout. }
  rewrite HnewsL in Hcues. simpl reads in Hcues. fold elapsed in Hcues.
  match goal with
  | |- context [news s ?sf] =>
      assert (Hnews : news s sf
                      = ([Clear; Bell] ++ evsL
                         ++ [Bell; PrintCentered session_complete;
                             Prompt "Press Enter to return to menu..."])%list)
  end.
  { apply news_app. simpl. rewrite Hout. unfold s3. simpl.
    rewrite <- !app_assoc. reflexivity. }
  rewrite !Hnews.
  split; [reflexivity|]. split; [|split].
  - rewrite !cue_prints_app, Hcues. reflexivity.
  - rewrite !bells_app, Hbells. reflexivity.
  - exists (clock w (reads s7)).
    unfold lines, header_if_new. simpl. rewrite Hlog. reflexivity.
Qed.


(** X9: on a clock that never runs backwards, an uninterrupted guided session
    of any script and duration whose clock reaches the total returns; the only
    cues it prints are those already due at the first look at the clock after
    the starting bell (none when the total has already passed by then),
    followed by the completion message: progress_bar is handed the whole
    remaining time, so cues that come due later are never printed.  Both
    bells ring and one row is logged. *)
Theorem guided_cues_first_tick_only (w : world) (fuel N : nat) (script : list cue)
  (d : num) (s : state) :
  intr s = None ->
  monotone w ->
  (S (S (reads s)) < N)%nat ->
  (value (num_mul d (Int 60)) <= clock w N - clock w (S (S (reads s))))%Q ->
  (S N < fuel)%nat ->
  let total := value (num_mul d (Int 60)) in
  let elapsed := (clock w (S (reads s)) - clock w (reads s))%Q in
  let run := guided_session w fuel script d s in
  fst run = Ret tt /\
  cue_prints (news s (snd run)) =
    ((if Qle_bool total elapsed then [] else fst (next_due script 0 elapsed))
       ++ [session_complete])%list /\
  bells (news s (snd run)) = 2%nat /\
  exists ts,
    lines (snd run) =
      (lines s ++ header_if_new s
         ++ [Row (mkRow ts ("Guided " ++ str_num w d ++ " min") d "")])%list.
Proof. exact (@guided_session_outcome w fuel N script d s). Qed.

Lemma guided_cues_first_tick_only_witness :
  let w := sample_world [] in
  let s := start_state in
  let total := value (num_mul (Int 5) (Int 60)) in
  let elapsed := (clock w (S (reads s)) - clock w (reads s))%Q in
  let run := guided_session w 700 GUIDED_5 (Int 5) s in
  fst run = Ret tt /\
  cue_prints (news s (snd run)) =
    ((if Qle_bool total elapsed then [] else fst (next_due GUIDED_5 0 elapsed))
       ++ [session_complete])%list /\
  bells (news s (snd run)) = 2%nat /\
  exists ts,
    lines (snd run) =
      (lines s ++ header_if_new s
         ++ [Row (mkRow ts ("Guided " ++ str_num w (Int 5) ++ " min") (Int 5) "")])%list.
Proof.
  apply (@guided_cues_first_tick_only (sample_world []) 700 602 GUIDED_5 (Int 5) start_state).
  - reflexivity.
  - apply half_second_clock_monotone.
  - simpl. lia.
  - vm_compute. congruence.
  - lia.
Defined.

Lemma next_due_first (c1 c2 : cue) (rest : list cue) (e : Q) :
  (fst c1 <= e)%Q -> (e < fst c2)%Q ->
  fst (next_due (c1 :: c2 :: rest) 0 e) = [snd c1].
Proof.
  intros H1 H2. destruct c1 as [o1 t1], c2 as [o2 t2]. simpl in H1, H2.
  unfold next_due. cbn [skipn due_loop].
  assert (E1 : Qle_bool o1 e = true) by (apply Qle_bool_iff; exact H1).
  assert (E2 : Qle_bool o2 e = false).
  { destruct (Qle_bool o2 e) eqn:E; [|reflexivity].
    apply Qle_bool_iff in E. exfalso. eapply Qlt_not_le; eauto. }
  rewrite E1, E2. reflexivity.
Qed.

(** X17: the guided sessions of the menu show their first line only.  For
    each of the three built-in scripts with its own duration, on a clock that
    never runs backwards, uninterrupted, when the clock is first looked at
    less than 8 seconds after the session starts and later reaches the total,
    the session returns having printed the first cue of the script and the
    completion message and nothing else of the script, which has at least
    seven cues. *)
Theorem builtin_guided_first_cue_only (w : world) (fuel N : nat) (script : list cue)
  (d : num) (s : state) :
  In (script, d) [(GUIDED_5, Int 5); (GUIDED_10, Int 10); (GUIDED_15, Int 15)] ->
  intr s = None ->
  monotone w ->
  (clock w (S (reads s)) - clock w (reads s) < 8)%Q ->
  (S (S (reads s)) < N)%nat ->
  (value (num_mul d (Int 60)) <= clock w N - clock w (S (S (reads s))))%Q ->
  (S N < fuel)%nat ->
  let run := guided_session w fuel script d s in
  fst run = Ret tt /\
  cue_prints (news s (snd run)) = (map snd (firstn 1 script) ++ [session_complete])%list /\
  (7 <= List.length script)%nat.
Proof.
  intros Hin Hs Hmono Hfirst HN Hreach Hfuel run.
  destruct (@guided_session_outcome w fuel N script d s Hs Hmono HN Hreach Hfuel)
    as (Hret & Hcues & _).
  fold run in Hret, Hcues.
  split; [exact Hret|].
  assert (H0 : (0 <= clock w (S (reads s)) - clock w (reads s))%Q).
  { pose proof (Hmono (reads s)). lra. }
  assert (Hcase : forall total (c1 c2 : cue) rest,
            (8 < total)%Q -> (fst c1 == 0)%Q -> (8 <= fst c2)%Q ->
            (if Qle_bool total (clock w (S (reads s)) - clock w (reads s)) then []
             else fst (next_due (c1 :: c2 :: rest) 0
                         (clock w (S (reads s)) - clock w (reads s))))
            = [snd c1]).
  { intros total c1 c2 rest Ht Hc1 Hc2.
    assert (E : Qle_bool total (clock w (S (reads s)) - clock w (reads s)) = false).
    { destruct (Qle_bool total _) eqn:E; [|reflexivity].
      apply Qle_bool_iff in E. exfalso. lra. }
    rewrite E. apply next_due_first; lra. }
  simpl in Hin.
  destruct Hin as [H|[H|[H|[]]]]; injection H as <- <-; rewrite Hcues;
    (split; [|simpl; lia]).
  - unfold GUIDED_5. rewrite Hcase; [reflexivity | reflexivity | reflexivity | discriminate].
  - unfold GUIDED_10. rewrite Hcase; [reflexivity | reflexivity | reflexivity | discriminate].
  - unfold GUIDED_15. rewrite Hcase; [reflexivity | reflexivity | reflexivity | discriminate].
Qed.

Lemma builtin_guided_first_cue_only_witness :
  let w := sample_world [] in
  let s := start_state in
  let run := guided_session w 1300 GUIDED_10 (Int 10) s in
  fst run = Ret tt /\
  cue_prints (news s (snd run))
    = (map snd (firstn 1 GUIDED_10) ++ [session_complete])%list /\
  (7 <= List.length GUIDED_10)%nat.
Proof.
  apply (@builtin_guided_first_cue_only
           (sample_world []) 1300 1202 GUIDED_10 (Int 10) start_state).
  - simpl. right. left. reflexivity.
  - reflexivity.
  - apply half_second_clock_monotone.
  - vm_compute. reflexivity.
  - simpl. lia.
  - vm_compute. congruence.
  - lia.
Defined.

(** ** The custom timer *)

Lemma timer_tail_run (w : world) (msg kind : string) (d : num) (s : state) :
  intr s = None ->
  (bell ;;
   print_centered msg ;;
   log_session w kind d "" ;;
   input w "Press Enter to return to menu..." ;;
   ret tt) s =
  (Ret tt,
   mkState (S (reads s)) (S (typed s)) None
     (out s ++ [Bell; PrintCentered msg; Prompt "Press Enter to return to menu..."])
     (Some (lines s ++ header_if_new s ++ [Row (mkRow (clock w (reads s)) kind d "")]))).
Proof.
  intros Hs. unfold bell, print_centered, bind.
  repeat (rewrite emit_run by (simpl; exact Hs)).
  rewrite log_session_run by (simpl; exact Hs).
  rewrite input_run by reflexivity.
  destruct s as [rd ty it ou lg]. simpl in *. subst it.
  unfold lines, header_if_new. simpl. rewrite <- ?app_assoc. reflexivity.
Qed.

(** X10: on a clock that never runs backwards, an uninterrupted custom timer
    of a positive duration whose clock reaches the total returns; it prints
    its banner and "Time's up. Well done.", rings its two bells, and appends
    to the log one row "Custom timer" with the duration as given (and the
    header first when the file is new).  Nothing is said of the time stamp of
    the row. *)
Theorem custom_timer_completes (w : world) (fuel N : nat) (d : num) (s : state) :
  intr s = None ->
  monotone w ->
  (0 < value (num_mul d (Int 60)))%Q ->
  (value (num_mul d (Int 60)) <= clock w N - clock w (reads s))%Q ->
  (reads s < N)%nat ->
  (N - reads s <= fuel)%nat ->
  let total := value (num_mul d (Int 60)) in
  let run := custom_timer w fuel d s in
  fst run = Ret tt /\
  cue_prints (news s (snd run)) =
    [("Custom silent timer — " ++ str_num w d ++ " minutes")%string;
     "Time's up. Well done."%string] /\
  bells (news s (snd run)) = 2%nat /\
  exists ts,
    lines (snd run) =
      (lines s ++ header_if_new s ++ [Row (mkRow ts "Custom timer" d "")])%list.
Proof.
  intros Hs Hmono Hpos Hreach HN Hfuel total run.
  unfold run. clear run. fold total in Hpos, Hreach.
  destruct (custom_timer w fuel d s) as [r sF] eqn:Erun.
  unfold custom_timer, clear, print_centered, bell in Erun.
  fold total in Erun.
  unfold bind at 1 in Erun. rewrite emit_run in Erun by exact Hs.
  unfold bind at 1 in Erun. rewrite emit_run in Erun by exact Hs.
  unfold bind at 1 in Erun. rewrite emit_run in Erun by exact Hs.
  unfold bind at 1 in Erun.
  set (banner := ("Custom silent timer — " ++ str_num w d ++ " minutes")%string) in *.
  set (s3 := add_outs [Bell] (add_outs [PrintCentered banner] (add_outs [Clear] s))) in *.
  destruct (@progress_bar_returns w fuel total "Timer:" N s3 Hpos)
    as (s6 & Hbar & Hi6 & Hrd & Hlast); try assumption.
  pose proof (progress_bar_draws w fuel total "Timer:" s3) as Hdraw.
  rewrite Hbar in Hdraw, Erun. simpl in Hdraw, Hrd, Hlast.
  destruct (quiet_no_bells (quiet_weaken _ drawing_not_bell Hdraw))
    as (Hlog & evsB & HoutB & Hbells).
  destruct (@quiet_no_cues _ s6 (quiet_weaken _ drawing_not_cue Hdraw))
    as (evsC & HoutC & Hcues).
  rewrite HoutB in HoutC. apply same_news in HoutC. subst evsC.
  fold (bell) in Erun.
  change (emit (PrintCentered "Time's up. Well done."))
    with (print_centered "Time's up. Well done.") in Erun.
  rewrite timer_tail_run in Erun by exact Hi6.
  injection Erun as <- <-. cbn [fst snd].
  match goal with
  | |- context [news s ?sf] =>
      assert (Hnews : news s sf
                      = ([Clear; PrintCentered banner; Bell] ++ evsB
                         ++ [Bell; PrintCentered "Time's up. Well done.";
                             Prompt "Press Enter to return to menu..."])%list)
  end.
  { apply news_app. simpl. rewrite HoutB. unfold s3. simpl.
    rewrite <- !app_assoc. reflexivity. }
  rewrite !Hnews.
  split; [reflexivity|]. split; [|split].
  - rewrite !cue_prints_app, Hcues. reflexivity.
  - rewrite !bells_app, Hbells. reflexivity.
  - exists (clock w (reads s6)).
    unfold lines, header_if_new. simpl. rewrite Hlog. reflexivity.
Qed.

Lemma custom_timer_completes_witness :
  let w := sample_world [] in
  let s := start_state in
  let d := Float (1 # 2) in
  let total := value (num_mul d (Int 60)) in
  let run := custom_timer w 100 d s in
  fst run = Ret tt /\
  cue_prints (news s (snd run)) =
    [("Custom silent timer — " ++ str_num w d ++ " minutes")%string;
     "Time's up. Well done."%string] /\
  bells (news s (snd run)) = 2%nat /\
  exists ts,
    lines (snd run) =
      (lines s ++ header_if_new s ++ [Row (mkRow ts "Custom timer" d "")])%list.
Proof.
  apply (@custom_timer_completes (sample_world []) 100 62 (Float (1 # 2)) start_state).
  - reflexivity.
  - apply half_second_clock_monotone.
  - vm_compute. reflexivity.
  - vm_compute. congruence.
  - simpl. lia.
  - simpl. lia.
Defined.

(** ** Box breathing with parameters that are not positive *)

(** X11: box breathing accepts integers of any sign, as long as the
    quotient cycles * (inhale + hold + exhale + hold) / 60 fits a float (it
    is below 2^1024 - 2^970 in magnitude; beyond that the division raises
    OverflowError).  An uninterrupted run then returns and rings both bells;
    a count that is zero or negative is skipped, as range() is empty, so the
    seconds counted down are
    max(0, cycles) * (max(0, inhale) + 2 * max(0, hold) + max(0, exhale)),
    while the duration logged is computed from the parameters as given,
    cycles * (inhale + hold + exhale + hold) / 60, which can differ from it
    and be negative. *)
Theorem box_breathing_any_parameters (w : world) (cycles inhale hold exhale : Z)
  (s : state) :
  intr s = None ->
  overflows (inject_Z (cycles * (inhale + hold + exhale + hold)) / 60) = false ->
  let run := box_breathing w cycles inhale hold exhale s in
  fst run = Ret tt /\
  counted_seconds (news s (snd run)) =
    (Z.max 0 cycles * (Z.max 0 inhale + 2 * Z.max 0 hold + Z.max 0 exhale))%Z /\
  bells (news s (snd run)) = 2%nat /\
  lines (snd run) =
    (lines s ++ header_if_new s
       ++ [Row (mkRow (clock w (reads s)) "Box breathing"
                 (Float (inject_Z (cycles * (inhale + hold + exhale + hold)) / 60)) "")])%list.
Proof.
  intros Hs _ run.
  unfold run. rewrite box_breathing_run by exact Hs. simpl fst. simpl snd.
  unfold news. simpl out.
  rewrite skipn_app, Nat.sub_diag, skipn_all. simpl skipn. rewrite app_nil_l.
  assert (Hmax : forall n, Z.of_nat (Z.to_nat n) = Z.max 0 n) by (intros n; lia).
  split; [reflexivity|]. split; [|split].
  - unfold box_events. rewrite !counted_seconds_app.
    rewrite counted_flat_map
      with (c := (Z.max 0 inhale + Z.max 0 hold + Z.max 0 exhale + Z.max 0 hold)%Z).
    + rewrite range_up_length, Hmax.
      change (counted_seconds [Clear; _; _; _; _; _]) with 0%Z.
      change (counted_seconds [Bell; _; _]) with 0%Z.
      ring.
    + intros c. unfold cycle_events. rewrite !counted_seconds_app, !phase_seconds, !Hmax.
      change (counted_seconds [Print _]) with 0%Z. ring.
  - unfold box_events. rewrite !bells_app. rewrite bells_flat_map; [reflexivity|].
    intros c. unfold cycle_events. rewrite !bells_app.
    unfold phase_events. rewrite !bells_flat_map by reflexivity. reflexivity.
  - unfold lines. simpl. reflexivity.
Qed.

Lemma box_breathing_any_parameters_witness :
  let w := sample_world [] in
  let s := start_state in
  let run := box_breathing w 2 (-3) 1 1 s in
  fst run = Ret tt /\
  counted_seconds (news s (snd run)) =
    (Z.max 0 2 * (Z.max 0 (-3) + 2 * Z.max 0 1 + Z.max 0 1))%Z /\
  bells (news s (snd run)) = 2%nat /\
  lines (snd run) =
    (lines s ++ header_if_new s
       ++ [Row (mkRow (clock w (reads s)) "Box breathing"
                 (Float (inject_Z (2 * (-3 + 1 + 1 + 1)) / 60)) "")])%list.
Proof.
  apply (@box_breathing_any_parameters (sample_world []) 2 (-3) 1 1 start_state).
  - reflexivity.
  - vm_compute. reflexivity.
Defined.

(** ** The body scan *)

(** A bar of any length, positive or not, on a clock that never runs
    backwards and gains [total] within [K] readings. *)
Lemma progress_bar_runs (w : world) (fuel K : nat) (total : Q) (prefix : string)
  (s : state) :
  monotone w -> intr s = None -> (0 < K)%nat -> (K <= fuel)%nat ->
  (total <= clock w (reads s + K) - clock w (reads s))%Q ->
  exists s',
    progress_bar w fuel total prefix s = (Ret tt, s') /\
    intr s' = None /\ logf s' = logf s /\
    (clock w (reads s) + total <= clock w (reads s'))%Q /\
    exists evs, out s' = (out s ++ evs)%list /\ bells evs = 0%nat /\ cue_prints evs = [].
Proof.
  intros Hmono Hs HK Hfuel Hreach.
  destruct (Qlt_le_dec 0 total) as [Hpos|Hneg].
  - destruct (@progress_bar_returns w fuel total prefix (reads s + K) s Hpos Hreach Hs)
      as (s' & Hbar & Hi & Hrd & Hlast); [lia | lia |].
    pose proof (progress_bar_draws w fuel total prefix s) as Hdraw.
    rewrite Hbar in Hdraw. simpl in Hdraw.
    destruct (quiet_no_bells (quiet_weaken _ drawing_not_bell Hdraw))
      as (Hlog & evs & Hout & Hbells).
    destruct (@quiet_no_cues _ s' (quiet_weaken _ drawing_not_cue Hdraw))
      as (evsC & HoutC & Hcues).
    rewrite Hout in HoutC. apply same_news in HoutC. subst evsC.
    exists s'. split; [exact Hbar|]. split; [exact Hi|]. split; [exact Hlog|]. split.
    + assert (Hk : (clock w (reads s' - 1) <= clock w (reads s'))%Q).
      { apply monotone_le; [exact Hmono | lia]. }
      lra.
    + exists evs. auto.
  - destruct fuel as [|fuel]; [lia|].
    unfold progress_bar, bind at 1, time_time. cbn [reads fst snd].
    unfold bind at 1. simpl progress_loop. unfold bind at 1, time_time. cbn [reads fst snd].
    assert (Hstep : (clock w (reads s) <= clock w (S (reads s)))%Q) by apply Hmono.
    assert (Hdone : Qle_bool total (clock w (S (reads s)) - clock w (reads s)) = true).
    { apply Qle_bool_iff. lra. }
    rewrite Hdone. cbn [ret]. unfold write. rewrite emit_run by exact Hs.
    eexists. split; [reflexivity|]. cbn [add_outs intr logf reads out].
    split; [exact Hs|]. split; [reflexivity|]. split.
    + assert (Hk : (clock w (reads s) <= clock w (S (S (reads s))))%Q).
      { apply monotone_le; [exact Hmono | lia]. }
      lra.
    + exists [Write ClearLine]. auto.
Qed.

Lemma scan_parts_run (w : world) (fuel K : nat) (per_part : Q) (n : Z) :
  monotone w -> (0 < K)%nat -> (K <= fuel)%nat ->
  (forall r, per_part <= clock w (r + K) - clock w r)%Q ->
  forall (l : list (Z * string)) (s : state),
    intr s = None ->
    exists s',
      for_each l (fun ip =>
        print "" ;;
        print_centered ("Focus: " ++ snd ip) ;;
        progress_bar w fuel per_part
          ("Part " ++ str_Z (fst ip) ++ "/" ++ str_Z n ++ ":")) s = (Ret tt, s') /\
      intr s' = None /\ logf s' = logf s /\
      (clock w (reads s) + inject_Z (Z.of_nat (List.length l)) * per_part
       <= clock w (reads s'))%Q /\
      exists evs,
        out s' = (out s ++ evs)%list /\ bells evs = 0%nat /\
        cue_prints evs = map (fun ip => ("Focus: " ++ snd ip)%string) l.
Proof.
  intros Hmono HK Hfuel Hclock.
  induction l as [|[idx part] l IH]; intros s Hs.
  - exists s. split; [reflexivity|]. split; [exact Hs|]. split; [reflexivity|]. split.
    + cbn [List.length Z.of_nat]. change (inject_Z 0) with 0%Q. lra.
    + exists []. rewrite app_nil_r. auto.
  - cbn [for_each fst snd].
    unfold print, print_centered.
    unfold bind at 1. unfold bind at 1. rewrite emit_run by exact Hs.
    unfold bind at 1. rewrite emit_run by exact Hs.
    set (s2 := add_outs [PrintCentered ("Focus: " ++ part)] (add_outs [Print ""] s)).
    destruct (@progress_bar_runs w fuel K per_part
                ("Part " ++ str_Z idx ++ "/" ++ str_Z n ++ ":") s2 Hmono Hs HK Hfuel
                (Hclock (reads s2)))
      as (s3 & Hbar & Hi3 & Hl3 & Ht3 & evs3 & Ho3 & Hb3 & Hc3).
    rewrite Hbar.
    destruct (IH s3 Hi3) as (s' & Hrun & Hi & Hl & Ht & evs & Ho & Hb & Hc).
    unfold print, print_centered in Hrun. rewrite Hrun.
    exists s'. split; [reflexivity|]. split; [exact Hi|].
    split; [rewrite Hl, Hl3; reflexivity|]. split.
    + simpl reads in Ht3.
      assert (Hn : (inject_Z (Z.of_nat (List.length ((idx, part) :: l)))
                    == inject_Z (Z.of_nat (List.length l)) + 1)%Q).
      { cbn [List.length]. rewrite Nat2Z.inj_succ. unfold Z.succ.
        rewrite inject_Z_plus. reflexivity. }
      rewrite Hn. lra.
    + exists ([Print ""; PrintCentered ("Focus: " ++ part)] ++ evs3 ++ evs)%list.
      split; [|split].
      * rewrite Ho, Ho3. unfold s2. simpl. rewrite <- !app_assoc. reflexivity.
      * rewrite !bells_app, Hb3, Hb. reflexivity.
      * rewrite !cue_prints_app, Hc3, Hc. reflexivity.
Qed.

(** X12: on a clock that never runs backwards and gains a tenth of the
    total within every K readings, an uninterrupted body scan of a whole
    number of minutes, positive or not, whose tenth of a total
    minutes * 60 / 10 fits a float (beyond 2^1024 - 2^970 in magnitude the
    division raises OverflowError) returns; it prints its banner, the ten
    "Focus:" lines in order from head to toes and the completion message,
    rings its two bells, and appends to the log one row "Body-scan <d> min"
    with the minutes as given (and the header first when the file is new).
    Nothing is said of the time stamp of the row. *)
Theorem body_scan_completes (w : world) (fuel K : nat) (minutes : Z) (s : state) :
  intr s = None ->
  monotone w ->
  (0 < K)%nat -> (K <= fuel)%nat ->
  overflows (inject_Z (minutes * 60) / inject_Z 10) = false ->
  (forall r, inject_Z (minutes * 60) / inject_Z 10 <= clock w (r + K) - clock w r)%Q ->
  let d := Int minutes in
  let run := body_scan w fuel d s in
  fst run = Ret tt /\
  cue_prints (news s (snd run)) = body_scan_lines w d /\
  bells (news s (snd run)) = 2%nat /\
  exists ts,
    lines (snd run) =
      (lines s ++ header_if_new s
         ++ [Row (mkRow ts ("Body-scan " ++ str_num w d ++ " min") d "")])%list.
Proof.
  intros Hs Hmono HK Hfuel Hfit Hclock d run.
  unfold run. clear run.
  destruct (body_scan w fuel d s) as [r sF] eqn:Erun.
  unfold body_scan in Erun. cbv zeta in Erun.
  assert (Hdiv : py_truediv (num_mul d (Int 60)) (Int (Z.of_nat (List.length parts)))
                 = Ret (inject_Z (minutes * 60) / inject_Z 10)%Q).
  { unfold d. cbn [num_mul py_truediv].
    change (Z.of_nat (List.length parts)) with 10%Z.
    change (10 =? 0)%Z with false. cbv iota. rewrite Hfit. reflexivity. }
  rewrite Hdiv in Erun.
  set (per_part := (inject_Z (minutes * 60) / inject_Z 10)%Q) in *.
  unfold clear, bell, print_centered, sleep in Erun.
  unfold bind at 1 in Erun. rewrite emit_run in Erun by exact Hs.
  unfold bind at 1, lift in Erun.
  unfold bind at 1 in Erun. rewrite emit_run in Erun by exact Hs.
  unfold bind at 1 in Erun. rewrite emit_run in Erun by exact Hs.
  unfold bind at 1 in Erun. rewrite emit_run in Erun by exact Hs.
  unfold bind at 1 in Erun.
  set (banner := ("Body-scan — " ++ str_num w d ++ " minutes")%string) in *.
  set (s4 := add_outs [Sleep (12 # 10)]
               (add_outs [PrintCentered banner] (add_outs [Bell] (add_outs [Clear] s)))) in *.
  destruct (@scan_parts_run w fuel K per_part (Z.of_nat (List.length parts))
              Hmono HK Hfuel Hclock (enumerate 1 parts) s4 Hs)
    as (s5 & Hrun & Hi5 & Hl5 & Ht5 & evs & Ho5 & Hb5 & Hc5).
  unfold print, print_centered in Hrun. unfold print in Erun. rewrite Hrun in Erun.
  fold (bell) in Erun.
  change (emit (PrintCentered "Body scan complete. Slowly reconnect with the room."))
    with (print_centered "Body scan complete. Slowly reconnect with the room.") in Erun.
  rewrite timer_tail_run in Erun by exact Hi5.
  injection Erun as <- <-. cbn [fst snd].
  match goal with
  | |- context [news s ?sf] =>
      assert (Hnews : news s sf
                      = ([Clear; Bell; PrintCentered banner; Sleep (12 # 10)] ++ evs
                         ++ [Bell;
                             PrintCentered "Body scan complete. Slowly reconnect with the room.";
                             Prompt "Press Enter to return to menu..."])%list)
  end.
  { apply news_app. cbn [out]. rewrite Ho5. unfold s4. cbn [out add_outs].
    rewrite <- !app_assoc. reflexivity. }
  rewrite !Hnews.
  split; [reflexivity|]. split; [|split].
  - rewrite !cue_prints_app, Hc5. reflexivity.
  - rewrite !bells_app, Hb5. reflexivity.
  - exists (clock w (reads s5)).
    unfold lines, header_if_new. cbn [logf]. rewrite Hl5. reflexivity.
Qed.

Lemma half_second_clock_advances (typed : list string) (k : nat) (r : nat) :
  (inject_Z (Z.of_nat k) / 2 <= clock (sample_world typed) (r + S k)
                                - clock (sample_world typed) r)%Q.
Proof.
  simpl. unfold half_second_clock, Qdiv.
  setoid_replace (inject_Z (Z.of_nat (r + S k - 1)) * / 2
                  - inject_Z (Z.of_nat (r - 1)) * / 2)%Q
    with ((inject_Z (Z.of_nat (r + S k - 1)) - inject_Z (Z.of_nat (r - 1))) * / 2)%Q by ring.
  apply Qmult_le_compat_r; [|discriminate].
  unfold Qminus. rewrite <- inject_Z_opp, <- inject_Z_plus, <- Zle_Qle. lia.
Qed.

Lemma body_scan_completes_witness :
  let w := sample_world [] in
  let s := start_state in
  let d := Int 1 in
  let run := body_scan w 20 d s in
  fst run = Ret tt /\
  cue_prints (news s (snd run)) = body_scan_lines w d /\
  bells (news s (snd run)) = 2%nat /\
  exists ts,
    lines (snd run) =
      (lines s ++ header_if_new s
         ++ [Row (mkRow ts ("Body-scan " ++ str_num w d ++ " min") d "")])%list.
Proof.
  apply (@body_scan_completes (sample_world []) 20 13 1 start_state).
  - reflexivity.
  - apply half_second_clock_monotone.
  - lia.
  - lia.
  - vm_compute. reflexivity.
  - intros r. eapply Qle_trans; [|apply (@half_second_clock_advances [] 12 r)].
    vm_compute. discriminate.
Defined.

(** ** What the menu lets through to the sessions *)

(** The sessions never raise ValueError themselves, so the handlers of the
    menu only ever see the ValueError of a rejected entry. *)

Lemma nv_ret A (a : A) (s : state) : fst (ret a s) <> Raise ValueError.
Proof. discriminate. Qed.

Lemma nv_bind A B (m : M A) (k : A -> M B) :
  (forall s, fst (m s) <> Raise ValueError) ->
  (forall a s, fst (k a s) <> Raise ValueError) ->
  forall s, fst (bind m k s) <> Raise ValueError.
Proof.
  intros Hm Hk s. unfold bind. specialize (Hm s).
  destruct (m s) as [[a|e|] s1]; simpl in *; [apply Hk | | discriminate].
  intros H. apply Hm. injection H as ->. reflexivity.
Qed.

Lemma nv_emit (e : event) (s : state) : fst (emit e s) <> Raise ValueError.
Proof. unfold emit, bind, step. destruct (intr s) as [[|k]|]; discriminate. Qed.

Lemma nv_read (w : world) (s : state) : fst (read_line w s) <> Raise ValueError.
Proof. unfold read_line, bind, step. destruct (intr s) as [[|k]|]; discriminate. Qed.

Lemma nv_input (w : world) (prompt : string) (s : state) :
  fst (input w prompt s) <> Raise ValueError.
Proof.
  unfold input. apply nv_bind; [apply nv_emit | intros _; apply nv_read].
Qed.

Lemma nv_for_each A (l : list A) (body : A -> M unit) :
  (forall a s, fst (body a s) <> Raise ValueError) ->
  forall s, fst (for_each l body s) <> Raise ValueError.
Proof.
  intros H. induction l as [|a l IH]; simpl; [discriminate|].
  apply nv_bind; [apply H | intros _; exact IH].
Qed.

Lemma nv_truediv (a b : Q) (s : state) : fst (lift (truediv a b) s) <> Raise ValueError.
Proof. unfold lift, truediv. destruct (Qeq_bool b 0); discriminate. Qed.

Lemma nv_py_truediv (a b : num) (s : state) :
  fst (lift (py_truediv a b) s) <> Raise ValueError.
Proof.
  unfold lift, py_truediv, truediv.
  destruct a as [x|x], b as [y|y]; cbn [value];
    repeat match goal with |- context [if ?c then _ else _] => destruct c end;
    discriminate.
Qed.

Lemma nv_progress_loop (w : world) (total : Q) (prefix : string) (start : Q) :
  forall fuel s, fst (progress_loop w fuel total prefix start s) <> Raise ValueError.
Proof.
  induction fuel as [|fuel IH]; simpl; [discriminate|].
  apply nv_bind; [discriminate | intros now].
  destruct (Qle_bool total (now - start)); [discriminate|].
  apply nv_bind.
  { intros s. unfold lift, render, truediv. destruct (Qeq_bool total 0); discriminate. }
  intros d.
  apply nv_bind; [apply nv_emit | intros _].
  apply nv_bind; [apply nv_emit | intros _].
  apply nv_bind; [apply nv_emit | intros _]. exact IH.
Qed.

Lemma nv_progress_bar (w : world) (fuel : nat) (total : Q) (prefix : string) (s : state) :
  fst (progress_bar w fuel total prefix s) <> Raise ValueError.
Proof.
  revert s. unfold progress_bar.
  apply nv_bind; [discriminate | intros start].
  apply nv_bind; [apply nv_progress_loop | intros _; apply nv_emit].
Qed.

Lemma nv_log_session (w : world) kind d notes (s : state) :
  fst (log_session w kind d notes s) <> Raise ValueError.
Proof.
  destruct s as [rd ty it ou lg].
  unfold log_session, bind, time_time, path_exists, open_append, append_line, step.
  destruct lg; destruct it as [[|[|[|[|n]]]]|]; simpl; discriminate.
Qed.

Lemma nv_custom_timer (w : world) (fuel : nat) (d : num) (s : state) :
  fst (custom_timer w fuel d s) <> Raise ValueError.
Proof.
  revert s. unfold custom_timer, clear, bell, print_centered.
  repeat first
    [ apply nv_ret | apply nv_emit | apply nv_input | apply nv_log_session
    | apply nv_progress_bar | apply nv_bind; [|intros ?] | intros ? ].
Qed.

Lemma nv_body_scan (w : world) (fuel : nat) (d : num) (s : state) :
  fst (body_scan w fuel d s) <> Raise ValueError.
Proof.
  revert s. unfold body_scan, clear, bell, print_centered, print, sleep.
  repeat first
    [ apply nv_ret | apply nv_emit | apply nv_input | apply nv_log_session
    | apply nv_progress_bar | apply nv_py_truediv | apply nv_for_each; intros ?
    | apply nv_bind; [|intros ?] | intros ? ].
Qed.

Lemma try_transparent A (m h : M A) (e : exn) (s : state) :
  fst (m s) <> Raise e -> try_except m e h s = m s.
Proof.
  intros H. unfold try_except. destruct (m s) as [[a|e'|] s1]; try reflexivity.
  destruct (exn_eqb e e') eqn:Eq; [|reflexivity].
  exfalso. apply H. destruct e, e'; try discriminate; reflexivity.
Qed.

Lemma try_bind_ret A B (m : M A) (k : A -> M B) (h : M B) (e : exn) (a : A)
  (s s1 : state) :
  m s = (Ret a, s1) -> try_except (bind m k) e h s = try_except (k a) e h s1.
Proof. intros H. unfold try_except, bind. rewrite H. reflexivity. Qed.

Lemma try_bind_raise A B (m : M A) (k : A -> M B) (h : M B) (e : exn) (s s1 : state) :
  m s = (Raise e, s1) -> try_except (bind m k) e h s = h s1.
Proof.
  intros H. unfold try_except, bind. rewrite H.
  destruct e; reflexivity.
Qed.

(** X13: what choice 4 lets through.  Without an interrupt, after its
    prompt the entry, stripped, is read by float().  An entry that float()
    rejects, or one that reads as a number at most zero (minus infinity
    included), is rejected: "Invalid duration" is printed and a second line
    is awaited; the clock is not read, no bell rings, and the log file is
    left as it is.  A finite number above zero whose sixty-fold fits a float
    starts the custom timer, and the outcome is that of custom_timer with
    this number: the handler swallows no error of such a timer.  For
    infinity, not-a-number and a finite number whose sixty-fold does not fit
    a float (it reaches 2^1024 - 2^970) the timer starts all the same: the
    screen is cleared, the banner printed, the bell rung and the clock read
    twice; then the first bar cannot be drawn, int() raising ValueError on a
    not-a-number, and the handler of the menu takes this for a bad entry:
    "Invalid duration" is printed and a second line awaited, with nothing
    logged. *)
Theorem menu_custom_admits (w : world) (fuel : nat) (s : state) :
  intr s = None ->
  let ask := Prompt "Enter duration in minutes (e.g., 7.5): " in
  let complaint := Print "Invalid duration. Press Enter to continue..." in
  let s1 := mkState (reads s) (S (typed s)) None (out s ++ [ask]) (logf s) in
  let rejected :=
    (Ret tt,
     mkState (reads s) (S (S (typed s))) None (out s ++ [ask; complaint]) (logf s)) in
  let given_up (mins : pyfloat) :=
    (Ret tt,
     mkState (S (S (reads s))) (S (S (typed s))) None
       (out s ++ [ask; Clear;
                  PrintCentered ("Custom silent timer — " ++ str_float w mins ++ " minutes");
                  Bell; complaint])
       (logf s)) in
  menu_custom w fuel s =
    match py_float w (strip w (stdin w (typed s))) with
    | None => rejected
    | Some (Finite q) =>
        if Qle_bool q 0 then rejected
        else if overflows (q * 60) then given_up (Finite q)
        else custom_timer w fuel (Float q) s1
    | Some NegInf => rejected
    | Some PosInf => given_up PosInf
    | Some NaN => given_up NaN
    end.
Proof.
  intros Hs ask complaint s1 rejected given_up. unfold menu_custom.
  erewrite try_bind_ret by (apply input_run; exact Hs). fold ask. fold s1.
  assert (Hrej : (print "Invalid duration. Press Enter to continue..." ;;
                  read_line w ;; ret tt) s1 = rejected).
  { unfold print, bind. rewrite emit_run by reflexivity.
    unfold read_line, bind, step, rejected, s1. simpl.
    rewrite <- app_assoc. reflexivity. }
  assert (Hgive : forall mins,
            try_except (custom_timer_unbounded w mins) ValueError
              (print "Invalid duration. Press Enter to continue..." ;;
               read_line w ;; ret tt) s1 = given_up mins).
  { intros mins. unfold custom_timer_unbounded, clear, print_centered, bell.
    erewrite try_bind_ret by (apply emit_run; reflexivity).
    erewrite try_bind_ret by (apply emit_run; reflexivity).
    erewrite try_bind_ret by (apply emit_run; reflexivity).
    erewrite try_bind_ret by reflexivity.
    erewrite try_bind_ret by reflexivity.
    unfold try_except, raise. cbn [exn_eqb].
    unfold print, bind. rewrite emit_run by reflexivity.
    unfold read_line, bind, step, given_up, s1, complaint. simpl.
    rewrite <- !app_assoc. reflexivity. }
  destruct (py_float w (strip w (stdin w (typed s)))) as [[q| | |]|].
  - erewrite try_bind_ret by reflexivity. cbn [float_le0].
    destruct (Qle_bool q 0).
    + erewrite try_bind_raise by reflexivity. exact Hrej.
    + erewrite try_bind_ret by reflexivity. cbn [custom_timer_of].
      destruct (overflows (q * 60)).
      * apply Hgive.
      * apply try_transparent. apply nv_custom_timer.
  - erewrite try_bind_ret by reflexivity. cbn [float_le0].
    erewrite try_bind_ret by reflexivity. apply Hgive.
  - erewrite try_bind_ret by reflexivity. cbn [float_le0].
    erewrite try_bind_raise by reflexivity. exact Hrej.
  - erewrite try_bind_ret by reflexivity. cbn [float_le0].
    erewrite try_bind_ret by reflexivity. apply Hgive.
  - erewrite try_bind_raise by reflexivity. exact Hrej.
Qed.

Lemma menu_custom_admits_witness :
  let w := sample_world ["3"]%string in
  let s := start_state in
  let ask := Prompt "Enter duration in minutes (e.g., 7.5): " in
  let complaint := Print "Invalid duration. Press Enter to continue..." in
  let s1 := mkState (reads s) (S (typed s)) None (out s ++ [ask]) (logf s) in
  let rejected :=
    (Ret tt,
     mkState (reads s) (S (S (typed s))) None (out s ++ [ask; complaint]) (logf s)) in
  let given_up (mins : pyfloat) :=
    (Ret tt,
     mkState (S (S (reads s))) (S (S (typed s))) None
       (out s ++ [ask; Clear;
                  PrintCentered ("Custom silent timer — " ++ str_float w mins ++ " minutes");
                  Bell; complaint])
       (logf s)) in
  menu_custom w 5 s =
    match py_float w (strip w (stdin w (typed s))) with
    | None => rejected
    | Some (Finite q) =>
        if Qle_bool q 0 then rejected
        else if overflows (q * 60) then given_up (Finite q)
        else custom_timer w 5 (Float q) s1
    | Some NegInf => rejected
    | Some PosInf => given_up PosInf
    | Some NaN => given_up NaN
    end.
Proof.
  apply (@menu_custom_admits (sample_world ["3"]%string) 5 start_state).
  reflexivity.
Defined.

(** X14: what choice 5 lets through.  Without an interrupt the four
    entries are asked for in turn, a blank one standing for "4"; the first
    one that int() rejects ends the dialogue at once: "Invalid numbers" is
    printed, the later prompts are not shown, no bell rings and the log file
    is left as it is.  When all four are integers, of any sign, box
    breathing runs with them. *)
Theorem menu_box_admits (w : world) (s : state) :
  intr s = None ->
  let entry k := py_int w (or_default (stdin w (k + typed s)) "4") in
  let prompts :=
    [Prompt "Number of cycles (default 4): "; Prompt "Inhale seconds (default 4): ";
     Prompt "Hold seconds (default 4): "; Prompt "Exhale seconds (default 4): "] in
  let after k :=
    mkState (reads s) (k + typed s) None (out s ++ firstn k prompts) (logf s) in
  let rejected k :=
    (Ret tt,
     add_outs [Print "Invalid numbers. Returning to menu..."; Sleep (12 # 10)] (after k)) in
  menu_box w s =
    match entry 0%nat with
    | None => rejected 1%nat
    | Some cycles =>
    match entry 1%nat with
    | None => rejected 2%nat
    | Some inhale =>
    match entry 2%nat with
    | None => rejected 3%nat
    | Some hold =>
    match entry 3%nat with
    | None => rejected 4%nat
    | Some exhale => box_breathing w cycles inhale hold exhale (after 4%nat)
    end end end end.
Proof.
  intros Hs entry prompts after rejected.
  assert (Hrej : forall k,
            (print "Invalid numbers. Returning to menu..." ;; sleep (12 # 10)) (after k)
            = rejected k).
  { intros k. unfold print, sleep, bind. rewrite !emit_run by reflexivity.
    unfold rejected, add_outs. simpl. rewrite <- !app_assoc. reflexivity. }
  assert (Hin : forall k p,
            nth_error prompts k = Some (Prompt p) ->
            input w p (after k) = (Ret (stdin w (k + typed s)), after (S k))).
  { intros k p Hk. rewrite input_run by reflexivity. unfold after, prompts in *.
    destruct k as [|[|[|[|k]]]]; simpl in Hk;
      try (destruct k; discriminate Hk);
      injection Hk as <-; simpl; rewrite <- ?app_assoc; reflexivity. }
  assert (H0 : s = after 0%nat).
  { destruct s as [rd ty it ou lg]. simpl in Hs. subst it.
    unfold after. simpl. rewrite app_nil_r. reflexivity. }
  unfold menu_box. rewrite H0 at 1.
  erewrite try_bind_ret by (apply Hin; reflexivity).
  fold (entry 0%nat). destruct (entry 0%nat) as [cycles|];
    [erewrite try_bind_ret by reflexivity
    | erewrite try_bind_raise by reflexivity; apply Hrej].
  erewrite try_bind_ret by (apply Hin; reflexivity).
  fold (entry 1%nat). destruct (entry 1%nat) as [inhale|];
    [erewrite try_bind_ret by reflexivity
    | erewrite try_bind_raise by reflexivity; apply Hrej].
  erewrite try_bind_ret by (apply Hin; reflexivity).
  fold (entry 2%nat). destruct (entry 2%nat) as [hold|];
    [erewrite try_bind_ret by reflexivity
    | erewrite try_bind_raise by reflexivity; apply Hrej].
  erewrite try_bind_ret by (apply Hin; reflexivity).
  fold (entry 3%nat). destruct (entry 3%nat) as [exhale|];
    [erewrite try_bind_ret by reflexivity
    | erewrite try_bind_raise by reflexivity; apply Hrej].
  apply try_transparent. rewrite box_breathing_run by reflexivity. discriminate.
Qed.

Lemma menu_box_admits_witness :
  let w := sample_world [""; "3"; "x"; "5"]%string in
  let s := start_state in
  let entry k := py_int w (or_default (stdin w (k + typed s)) "4") in
  let prompts :=
    [Prompt "Number of cycles (default 4): "; Prompt "Inhale seconds (default 4): ";
     Prompt "Hold seconds (default 4): "; Prompt "Exhale seconds (default 4): "] in
  let after k :=
    mkState (reads s) (k + typed s) None (out s ++ firstn k prompts) (logf s) in
  let rejected k :=
    (Ret tt,
     add_outs [Print "Invalid numbers. Returning to menu..."; Sleep (12 # 10)] (after k)) in
  menu_box w s =
    match entry 0%nat with
    | None => rejected 1%nat
    | Some cycles =>
    match entry 1%nat with
    | None => rejected 2%nat
    | Some inhale =>
    match entry 2%nat with
    | None => rejected 3%nat
    | Some hold =>
    match entry 3%nat with
    | None => rejected 4%nat
    | Some exhale => box_breathing w cycles inhale hold exhale (after 4%nat)
    end end end end.
Proof.
  apply (@menu_box_admits (sample_world [""; "3"; "x"; "5"]%string) start_state).
  reflexivity.
Defined.

Lemma int_of_float_small (x : Q) : (-1 < x)%Q -> (x < 1)%Q -> int_of_float x = 0%Z.
Proof.
  destruct x as [a d]. unfold Qlt, int_of_float. simpl. intros Hlo Hhi.
  destruct (Z_lt_le_dec a 0) as [Hneg|Hpos].
  - replace a with (- (- a))%Z by lia. rewrite Z.quot_opp_l by lia.
    rewrite Z.quot_small by lia. reflexivity.
  - apply Z.quot_small. lia.
Qed.

Lemma menu_body_scan_run (w : world) (fuel : nat) (s : state) :
  intr s = None ->
  let s1 := mkState (reads s) (S (typed s)) None
              (out s ++ [Prompt "Duration minutes (default 10): "]) (logf s) in
  let rejected :=
    (Ret tt, add_outs [Print "Invalid input. Returning to menu..."; Sleep (12 # 10)] s1) in
  menu_body_scan w fuel s =
    match py_float w (or_default (stdin w (typed s)) "10") with
    | None => rejected
    | Some NaN => rejected
    | Some PosInf => (Raise OverflowError, s1)
    | Some NegInf => (Raise OverflowError, s1)
    | Some (Finite mins) => body_scan w fuel (Int (int_of_float mins)) s1
    end.
Proof.
  intros Hs s1 rejected. unfold menu_body_scan.
  erewrite try_bind_ret by (apply input_run; exact Hs). fold s1.
  assert (Hrej : (print "Invalid input. Returning to menu..." ;; sleep (12 # 10)) s1
                 = rejected).
  { unfold print, sleep, bind. rewrite !emit_run by reflexivity.
    unfold rejected, add_outs. simpl. rewrite <- !app_assoc. reflexivity. }
  destruct (py_float w (or_default (stdin w (typed s)) "10")) as [[mins| | |]|].
  - erewrite try_bind_ret by reflexivity.
    erewrite try_bind_ret by reflexivity.
    apply try_transparent. apply nv_body_scan.
  - erewrite try_bind_ret by reflexivity. reflexivity.
  - erewrite try_bind_ret by reflexivity. reflexivity.
  - erewrite try_bind_ret by reflexivity.
    erewrite try_bind_raise by reflexivity. exact Hrej.
  - erewrite try_bind_raise by reflexivity. exact Hrej.
Qed.

(** X15: what choice 6 lets through.  Without an interrupt, after its
    prompt the entry, a blank one standing for "10", is read by float().
    An entry that float() rejects prints "Invalid input" and starts nothing,
    and so does one that reads as not-a-number, on which int() raises
    ValueError.  An infinity of either sign makes int() raise OverflowError,
    which the handler does not catch: it leaves the menu with nothing more
    printed.  Any finite number starts the body scan with that number
    truncated toward zero, and the outcome is that of body_scan: a negative
    one is not rejected, and an entry strictly between -1 and 1 starts a scan
    of 0 minutes. *)
Theorem menu_body_scan_admits (w : world) (fuel : nat) (s : state) :
  intr s = None ->
  let s1 := mkState (reads s) (S (typed s)) None
              (out s ++ [Prompt "Duration minutes (default 10): "]) (logf s) in
  let rejected :=
    (Ret tt, add_outs [Print "Invalid input. Returning to menu..."; Sleep (12 # 10)] s1) in
  menu_body_scan w fuel s =
    match py_float w (or_default (stdin w (typed s)) "10") with
    | None => rejected
    | Some NaN => rejected
    | Some PosInf => (Raise OverflowError, s1)
    | Some NegInf => (Raise OverflowError, s1)
    | Some (Finite mins) => body_scan w fuel (Int (int_of_float mins)) s1
    end /\
  (forall mins : Q, (-1 < mins)%Q -> (mins < 1)%Q -> int_of_float mins = 0%Z).
Proof.
  intros Hs s1 rejected. split; [|exact int_of_float_small].
  apply menu_body_scan_run. exact Hs.
Qed.

Lemma menu_body_scan_admits_witness :
  let w := sample_world ["-2"]%string in
  let s := start_state in
  let s1 := mkState (reads s) (S (typed s)) None
              (out s ++ [Prompt "Duration minutes (default 10): "]) (logf s) in
  let rejected :=
    (Ret tt, add_outs [Print "Invalid input. Returning to menu..."; Sleep (12 # 10)] s1) in
  menu_body_scan w 5 s =
    match py_float w (or_default (stdin w (typed s)) "10") with
    | None => rejected
    | Some NaN => rejected
    | Some PosInf => (Raise OverflowError, s1)
    | Some NegInf => (Raise OverflowError, s1)
    | Some (Finite mins) => body_scan w 5 (Int (int_of_float mins)) s1
    end /\
  (forall mins : Q, (-1 < mins)%Q -> (mins < 1)%Q -> int_of_float mins = 0%Z).
Proof.
  apply (@menu_body_scan_admits (sample_world ["-2"]%string) 5 start_state).
  reflexivity.
Defined.

(** ** How the program ends *)

Lemma input_ret (w : world) (prompt t : string) (s s' : state) :
  input w prompt s = (Ret t, s') ->
  t = stdin w (typed s) /\ typed s' = S (typed s) /\
  out s' = (out s ++ [Prompt prompt])%list.
Proof.
  unfold input. unfold bind at 1.
  destruct (emit (Prompt prompt) s) as [[[]|e|] s1] eqn:E; try discriminate.
  destruct (emit_ret _ _ E) as (Ho & _ & Ht & _).
  unfold read_line, bind, step.
  destruct (intr s1) as [[|k]|]; try discriminate;
    intros H; injection H as <- <-; simpl; rewrite Ho, Ht; auto.
Qed.

Lemma then_true_not_false (m : M unit) (s s' : state) :
  (m ;; ret true) s <> (Ret false, s').
Proof.
  unfold bind. destruct (m s) as [[[]|e|] s1]; simpl; discriminate.
Qed.

Lemma menu_tick_false (w : world) (fuel : nat) (s s' : state) :
  menu_tick w fuel s = (Ret false, s') ->
  (0 < typed s')%nat /\
  strip w (stdin w (typed s' - 1)) = "0"%string /\
  exists pre,
    out s' = (pre ++ [Prompt "Enter choice: "; Clear;
                      PrintCentered "May you have a calm and peaceful day — goodbye."])%list.
Proof.
  unfold menu_tick. unfold bind at 1.
  destruct (show_menu s) as [[[]|e|] s0]; try discriminate.
  unfold bind at 1.
  destruct (input w "Enter choice: " s0) as [[t|e|] s2] eqn:Ein; try discriminate.
  destruct (input_ret _ _ _ Ein) as (-> & Ht2 & Ho2).
  cbv zeta.
  repeat match goal with
  | |- (if ?b then _ else _) _ = _ -> _ => destruct b eqn:?
  | |- (_ ;; ret true) _ = _ -> _ => intros H; exfalso; exact (then_true_not_false _ _ H)
  end.
  - unfold clear, print_centered. unfold bind at 1.
    destruct (emit Clear s2) as [[[]|e|] s3] eqn:E3; try discriminate.
    unfold bind at 1.
    match goal with
    | |- context [emit ?ev s3] => destruct (emit ev s3) as [[[]|e|] s4] eqn:E4; try discriminate
    end.
    intros H. injection H as <-.
    destruct (emit_ret _ _ E3) as (Ho3 & _ & Ht3 & _).
    destruct (emit_ret _ _ E4) as (Ho4 & _ & Ht4 & _).
    rewrite Ht4, Ht3, Ht2. split; [lia|]. split.
    + simpl. rewrite Nat.sub_0_r.
      match goal with H : String.eqb _ "0" = true |- _ => apply String.eqb_eq in H; exact H end.
    + exists (out s0). rewrite Ho4, Ho3, Ho2. rewrite <- !app_assoc. reflexivity.
  - intros H. exfalso. revert H. unfold print, sleep.
    match goal with
    | |- (?a ;; ?b ;; ret true) _ = _ -> _ =>
        change (a ;; b ;; ret true) with (a ;; (b ;; ret true))
    end.
    unfold bind at 1.
    match goal with
    | |- context [emit ?ev s2] => destruct (emit ev s2) as [[[]|e|] s3]; try discriminate
    end.
    apply then_true_not_false.
Qed.

Lemma main_menu_returns_by_choice (w : world) :
  forall fuel s s',
    main_menu w fuel s = (Ret tt, s') ->
    (0 < typed s')%nat /\
    strip w (stdin w (typed s' - 1)) = "0"%string /\
    exists pre,
      out s' = (pre ++ [Prompt "Enter choice: "; Clear;
                        PrintCentered "May you have a calm and peaceful day — goodbye."])%list.
Proof.
  induction fuel as [|fuel IH]; intros s s'; simpl; [discriminate|].
  unfold bind.
  destruct (menu_tick w fuel s) as [[[|]|e|] s1] eqn:Et; try discriminate.
  - apply IH.
  - intros H. injection H as <-. eapply menu_tick_false. exact Et.
Qed.

(** X16: main comes to a normal end in two ways only.  Either the user
    entered 0 at the menu prompt, and then that was the last line read and
    the terminal ends with the prompt, a cleared screen and the goodbye
    message; or Ctrl-C was pressed, and the last thing printed is the
    farewell "Session interrupted. Take care.". *)
Theorem leaves_by_choice_or_interrupt (w : world) (fuel : nat) (s : state) :
  fst (main w fuel s) = Ret tt ->
  let s' := snd (main w fuel s) in
  ((0 < typed s')%nat /\
   strip w (stdin w (typed s' - 1)) = "0"%string /\
   exists pre,
     out s' = (pre ++ [Prompt "Enter choice: "; Clear;
                       PrintCentered "May you have a calm and peaceful day — goodbye."])%list)
  \/
  (intr s <> None /\ exists pre, out s' = (pre ++ [Print farewell])%list).
Proof.
  unfold main, try_except.
  pose proof (delivers_main_menu w fuel s) as Hd.
  destruct (main_menu w fuel s) as [[[]|e|] s1] eqn:Em; simpl in *.
  - intros _. left. eapply main_menu_returns_by_choice. exact Em.
  - destruct e; simpl; try discriminate.
    destruct Hd as [Hi Hs1]. unfold print. rewrite emit_run by exact Hs1.
    intros _. right. split; [exact Hi|]. exists (out s1). reflexivity.
  - discriminate.
Qed.

Lemma leaves_by_choice_or_interrupt_witness :
  let w := sample_world ["9"; "0"]%string in
  let s := start_state in
  let s' := snd (main w 5 s) in
  ((0 < typed s')%nat /\
   strip w (stdin w (typed s' - 1)) = "0"%string /\
   exists pre,
     out s' = (pre ++ [Prompt "Enter choice: "; Clear;
                       PrintCentered "May you have a calm and peaceful day — goodbye."])%list)
  \/
  (intr s <> None /\ exists pre, out s' = (pre ++ [Print farewell])%list).
Proof.
  apply (@leaves_by_choice_or_interrupt (sample_world ["9"; "0"]%string) 5 start_state).
  vm_compute. reflexivity.
Defined.

(** ** An entry too large for the body scan *)

Lemma add_outs_add_outs (a b : list event) (s : state) :
  add_outs b (add_outs a s) = add_outs (a ++ b) s.
Proof. destruct s. unfold add_outs. simpl. rewrite <- app_assoc. reflexivity. Qed.

Lemma show_menu_run (s : state) :
  intr s = None -> show_menu s = (Ret tt, add_outs menu_events s).
Proof.
  intros Hs. unfold show_menu, clear, print_centered, print.
  repeat (unfold bind at 1; rewrite emit_run by exact Hs; rewrite ?add_outs_add_outs).
  rewrite emit_run by exact Hs. rewrite add_outs_add_outs. reflexivity.
Qed.

(** X18: an entry at choice 6 that is too large ends the program.  Without
    an interrupt, when the line typed at the menu is 6 and the next one reads
    as an infinity, or as a finite number whose whole minutes times 60,
    divided by the ten parts, do not fit a float (the quotient reaches
    2^1024 - 2^970 in magnitude), OverflowError is raised, by int() on the
    infinity, or by the division in body_scan once the screen is cleared.
    Neither the handler of the menu, which catches ValueError, nor that of
    main, which catches KeyboardInterrupt, stops it: main ends in
    OverflowError, with no bell rung, the clock not read, no farewell printed
    and the log file as it was. *)
Theorem large_scan_entry_ends_program (w : world) (fuel : nat) (s : state)
  (x : pyfloat) :
  intr s = None ->
  strip w (stdin w (typed s)) = "6"%string ->
  py_float w (or_default (stdin w (S (typed s))) "10") = Some x ->
  beyond_scan x = true ->
  let run := main w (S fuel) s in
  fst run = Raise OverflowError /\
  news s (snd run) =
    (menu_events
       ++ [Prompt "Enter choice: "; Prompt "Duration minutes (default 10): "]
       ++ match x with Finite _ => [Clear] | _ => [] end)%list /\
  reads (snd run) = reads s /\
  typed (snd run) = S (S (typed s)) /\
  logf (snd run) = logf s.
Proof.
  intros Hs Hchoice Hx Hbig run. unfold run, main. clear run.
  assert (Hm : exists sF,
            main_menu w (S fuel) s = (Raise OverflowError, sF) /\
            out sF = (out s ++ menu_events
                        ++ [Prompt "Enter choice: "; Prompt "Duration minutes (default 10): "]
                        ++ match x with Finite _ => [Clear] | _ => [] end)%list /\
            reads sF = reads s /\ typed sF = S (S (typed s)) /\ logf sF = logf s).
  { cbn [main_menu]. unfold bind at 1. unfold menu_tick.
    unfold bind at 1. rewrite show_menu_run by exact Hs.
    unfold bind at 1. rewrite input_run by exact Hs.
    cbn [add_outs reads typed out logf]. cbv zeta. rewrite Hchoice.
    cbn [String.eqb Ascii.eqb Bool.eqb]. 
    unfold bind at 1.
    rewrite menu_body_scan_run by reflexivity.
    cbn [reads typed out logf]. rewrite Hx.
    destruct x as [q| | |]; cbn [beyond_scan] in Hbig; try discriminate.
    - unfold body_scan. cbv zeta. unfold clear.
      unfold bind at 1. rewrite emit_run by reflexivity.
      unfold bind at 1.
      cbn [num_mul py_truediv lift].
      change (Z.of_nat (List.length parts)) with 10%Z.
      change (10 =? 0)%Z with false. cbv iota. rewrite Hbig.
      eexists. split; [reflexivity|]. cbn [add_outs out reads typed logf].
      rewrite <- !app_assoc. repeat split; reflexivity.
    - eexists. split; [reflexivity|]. cbn [out reads typed logf].
      rewrite <- !app_assoc. repeat split; reflexivity.
    - eexists. split; [reflexivity|]. cbn [out reads typed logf].
      rewrite <- !app_assoc. repeat split; reflexivity. }
  destruct Hm as (sF & Hrun & Hout & Hrd & Hty & Hlog).
  unfold try_except. rewrite Hrun. cbn [exn_eqb fst snd].
  split; [reflexivity|]. split; [apply news_app; exact Hout|]. auto.
Qed.

Lemma large_scan_entry_ends_program_witness :
  let w := sample_world ["6"; "1000000000000000000000000000000000000000000000000000000000000000000000000000000000000000000000000000000000000000000000000000000000000000000000000000000000000000000000000000000000000000000000000000000000000000000000000000000000000000000000000000000000000000000000000000000000000000000000000000000000000000000000000000"]%string in
  let s := start_state in
  let run := main w 1 s in
  fst run = Raise OverflowError /\
  news s (snd run) =
    (menu_events
       ++ [Prompt "Enter choice: "; Prompt "Duration minutes (default 10): "]
       ++ [Clear])%list /\
  reads (snd run) = reads s /\
  typed (snd run) = S (S (typed s)) /\
  logf (snd run) = logf s.
Proof.
  apply (@large_scan_entry_ends_program
           (sample_world ["6"; "1000000000000000000000000000000000000000000000000000000000000000000000000000000000000000000000000000000000000000000000000000000000000000000000000000000000000000000000000000000000000000000000000000000000000000000000000000000000000000000000000000000000000000000000000000000000000000000000000000000000000000000000000000"]%string)
           0 start_state
           (Finite (inject_Z (10 ^ 315)))).
  - reflexivity.
  - reflexivity.
  - vm_compute. reflexivity.
  - vm_compute. reflexivity.
Defined.
